(** * The question-text parser of [src/components/mcq-parser.tsx]

    A shallow embedding of [parseJSONFormat], [parseJSONQuestion],
    [parseMCQText] and [parseStructuredFormat], with the string and
    regular-expression primitives of the JavaScript runtime they rest on,
    followed by the properties of the specification checked on it. *)

From Stdlib Require Import List ZArith NArith Bool String Ascii Lia.
From Stdlib Require Import DecimalString DecimalZ DecimalPos Sorted FinFun.
Import ListNotations.

(* ================================================================== *)
(** ** JavaScript strings *)

(** A JavaScript string is a sequence of UTF-16 code units. *)
Definition char := N.
Definition jstring := list char.

(** An ASCII literal read as a JavaScript string. *)
Definition js (s : string) : jstring :=
  map N_of_ascii (list_ascii_of_string s).

(** U+2705, the marker glyph of the JSON and structured formats, and
    U+2713, the check mark of the line-pattern format. *)
Definition GLYPH : char := 0x2705%N.
Definition CHECK : char := 0x2713%N.

Definition jstring_eqb (a b : jstring) : bool :=
  if list_eq_dec N.eq_dec a b then true else false.

(** Truthiness of a string: non-empty. *)
Definition nonempty (s : jstring) : bool :=
  match s with [] => false | _ :: _ => true end.

Module CharClass.
Open Scope N_scope.

Definition between (lo hi c : char) : bool := (lo <=? c) && (c <=? hi).

(** [\s], and the set [String.prototype.trim] strips: WhiteSpace and
    LineTerminator of ECMA-262. *)
Definition space (c : char) : bool :=
  between 9 13 c || (c =? 32) || (c =? 0xA0) || (c =? 0x1680)
  || between 0x2000 0x200A c || (c =? 0x2028) || (c =? 0x2029)
  || (c =? 0x202F) || (c =? 0x205F) || (c =? 0x3000) || (c =? 0xFEFF).

(** [\d] *)
Definition digit (c : char) : bool := between 48 57 c.

Definition upper_letter (c : char) : bool := between 65 90 c.
Definition lower_letter (c : char) : bool := between 97 122 c.

(** [\w] *)
Definition word (c : char) : bool :=
  upper_letter c || lower_letter c || digit c || (c =? 95).

(** [.] without the [s] flag: anything but a line terminator. *)
Definition dot (c : char) : bool :=
  negb ((c =? 10) || (c =? 13) || (c =? 0x2028) || (c =? 0x2029)).

(** [[A-Da-d]] *)
Definition letterAD (c : char) : bool := between 65 68 c || between 97 100 c.

(** [toUpperCase] of a one-unit ASCII string. *)
Definition to_upper (c : char) : char :=
  if lower_letter c then c - 32 else c.

Definition to_lower (c : char) : char :=
  if upper_letter c then c + 32 else c.

(** A literal pattern character.  Under the [i] flag two units match when
    their canonical (upper-case) forms agree; a unit outside ASCII never
    canonicalizes into ASCII, so an ASCII pattern character matches its
    two ASCII cases and nothing else. *)
Definition lit (ignoreCase : bool) (a : ascii) (c : char) : bool :=
  if ignoreCase then to_upper c =? to_upper (N_of_ascii a)
  else c =? N_of_ascii a.

Definition one (x : char) (c : char) : bool := c =? x.
End CharClass.

Fixpoint trimStart (s : jstring) : jstring :=
  match s with
  | c :: t => if CharClass.space c then trimStart t else s
  | [] => []
  end.

Definition trimEnd (s : jstring) : jstring := rev (trimStart (rev s)).

(** [s.trim()] *)
Definition trim (s : jstring) : jstring := trimEnd (trimStart s).

Fixpoint startsWith (s p : jstring) : bool :=
  match p, s with
  | [], _ => true
  | a :: p', b :: s' => (a =? b)%N && startsWith s' p'
  | _ :: _, [] => false
  end.

(** [s.includes(sub)] *)
Fixpoint includes (s sub : jstring) : bool :=
  startsWith s sub ||
  match s with
  | [] => false
  | _ :: t => includes t sub
  end.

(** [s.includes(c)] for a one-unit string [c]. *)
Definition has (c : char) (s : jstring) : bool := existsb (N.eqb c) s.

(** [s.replace(/c/g, "")] for a one-unit literal [c]. *)
Definition strip (c : char) (s : jstring) : jstring :=
  filter (fun x => negb (N.eqb c x)) s.

(** [s.split("\n")] *)
Fixpoint splitLines_aux (cur : jstring) (s : jstring) : list jstring :=
  match s with
  | [] => [rev cur]
  | c :: t =>
      if (c =? 10)%N then rev cur :: splitLines_aux [] t
      else splitLines_aux (c :: cur) t
  end.

Definition splitLines (s : jstring) : list jstring := splitLines_aux [] s.

(** [`${n}`] for an integer [n]. *)
Definition decimal (n : Z) : jstring := js (NilZero.string_of_int (Z.to_int n)).

(** [arr.findIndex(p)] *)
Fixpoint findIndex_from {A : Type} (p : A -> bool) (i : Z) (l : list A) : Z :=
  match l with
  | [] => (-1)%Z
  | x :: t => if p x then i else findIndex_from p (i + 1)%Z t
  end.

Definition findIndex {A : Type} (p : A -> bool) (l : list A) : Z :=
  findIndex_from p 0%Z l.

(** [arr.forEach((x, i) => ...)] visits the elements with their positions. *)
Fixpoint indexed_from {A : Type} (i : nat) (l : list A) : list (nat * A) :=
  match l with
  | [] => []
  | x :: t => (i, x) :: indexed_from (S i) t
  end.

Definition indexed {A : Type} (l : list A) : list (nat * A) := indexed_from 0 l.

(* ================================================================== *)
(** ** Regular expressions

    The patterns of the parser use literals, classes, concatenation,
    alternation, greedy and lazy repetition and one consulted capture
    group.  The matcher is the backtracking one of ECMA-262: alternatives
    are tried left to right, a greedy repetition tries one more iteration
    before stopping, a lazy one stops before iterating, and the first
    success is the result. *)

Inductive regex : Type :=
| Eps
| Chr (p : char -> bool)
| Cat (r1 r2 : regex)
| Alt (r1 r2 : regex)
| Star (r : regex)
| LazyStar (r : regex)
| Grp (r : regex).

Definition Plus (r : regex) : regex := Cat r (Star r).
Definition LazyPlus (r : regex) : regex := Cat r (LazyStar r).
Definition Opt (r : regex) : regex := Alt r Eps.

(** A literal, character by character. *)
Fixpoint Lit (ignoreCase : bool) (s : string) : regex :=
  match s with
  | EmptyString => Eps
  | String a EmptyString => Chr (CharClass.lit ignoreCase a)
  | String a t => Cat (Chr (CharClass.lit ignoreCase a)) (Lit ignoreCase t)
  end.

Fixpoint Seq (rs : list regex) : regex :=
  match rs with
  | [] => Eps
  | [r] => r
  | r :: t => Cat r (Seq t)
  end.

Definition orElse {A : Type} (a b : option A) : option A :=
  match a with Some _ => a | None => b end.

Section Matcher.
Variable A : Type.

(** A continuation takes the rest of the input and the capture. *)
Definition cont : Type := jstring -> option jstring -> option A.

(** [matcher r s c k]: match [r] at the head of [s], then continue with
    [k].  An iteration of a repetition that consumes nothing is
    rejected, so [length s] iterations are enough fuel. *)
Fixpoint matcher (r : regex) (s : jstring) (c : option jstring) (k : cont)
  {struct r} : option A :=
  match r with
  | Eps => k s c
  | Chr p =>
      match s with
      | x :: t => if p x then k t c else None
      | [] => None
      end
  | Cat r1 r2 => matcher r1 s c (fun s1 c1 => matcher r2 s1 c1 k)
  | Alt r1 r2 => orElse (matcher r1 s c k) (matcher r2 s c k)
  | Star r1 =>
      (fix loop (fuel : nat) (s : jstring) (c : option jstring) : option A :=
         match fuel with
         | O => k s c
         | S fuel' =>
             orElse
               (matcher r1 s c
                  (fun s1 c1 =>
                     if List.length s1 <? List.length s then loop fuel' s1 c1 else None))
               (k s c)
         end) (List.length s) s c
  | LazyStar r1 =>
      (fix loop (fuel : nat) (s : jstring) (c : option jstring) : option A :=
         match fuel with
         | O => k s c
         | S fuel' =>
             orElse
               (k s c)
               (matcher r1 s c
                  (fun s1 c1 =>
                     if List.length s1 <? List.length s then loop fuel' s1 c1 else None))
         end) (List.length s) s c
  | Grp r1 =>
      matcher r1 s c
        (fun s1 _ => k s1 (Some (firstn (List.length s - List.length s1) s)))
  end.
End Matcher.

Arguments matcher {A} r s c k.

(** The outcome of a match: the input after the match and group 1. *)
Record rmatch : Type := { rest : jstring; group1 : option jstring }.

(** A match of [r] starting at the head of [s] (a pattern under [^], or the
    sticky match of [split]). *)
Definition matchAt (r : regex) (s : jstring) : option rmatch :=
  matcher r s None (fun s1 c => Some {| rest := s1; group1 := c |}).

(** [r.exec(s)]: the match at the leftmost position that has one. *)
Fixpoint exec (r : regex) (s : jstring) : option rmatch :=
  match matchAt r s with
  | Some m => Some m
  | None =>
      match s with
      | [] => None
      | _ :: t => exec r t
      end
  end.

(** [r.test(s)] *)
Definition test (r : regex) (s : jstring) : bool :=
  match exec r s with Some _ => true | None => false end.

(** [^r.test(s)] *)
Definition testAt (r : regex) (s : jstring) : bool :=
  match matchAt r s with Some _ => true | None => false end.

(** [s.replace(/^r/, "")]: the anchored match, if any, is removed. *)
Definition removeAt (r : regex) (s : jstring) : jstring :=
  match matchAt r s with
  | Some m => rest m
  | None => s
  end.

(** [s.replace(/\*\*/g, "")]: every occurrence of two stars is removed,
    scanning left to right. *)
Fixpoint removeBold (s : jstring) : jstring :=
  match s with
  | 42%N :: t =>
      match t with
      | 42%N :: t' => removeBold t'
      | _ => 42%N :: removeBold t
      end
  | c :: t => c :: removeBold t
  | [] => []
  end.

(** [s.split(/(?=r)/)]: the input is cut before every position other than
    the first where [r] matches; the cut pieces keep all the text. *)
Fixpoint splitBefore_aux (r : regex) (cur : jstring) (s : jstring)
  : list jstring :=
  match s with
  | [] => [rev cur]
  | c :: t =>
      if nonempty cur && testAt r s
      then rev cur :: splitBefore_aux r [c] t
      else splitBefore_aux r (c :: cur) t
  end.

Definition splitBefore (r : regex) (s : jstring) : list jstring :=
  splitBefore_aux r [] s.

(** [s.replace(/\b\w/g, l => l.toUpperCase())]: a word character is
    upper-cased when the unit before it is not a word character. *)
Fixpoint capitalize_aux (prevWord : bool) (s : jstring) : jstring :=
  match s with
  | [] => []
  | c :: t =>
      (if CharClass.word c && negb prevWord then CharClass.to_upper c else c)
        :: capitalize_aux (CharClass.word c) t
  end.

Definition capitalizeWords (s : jstring) : jstring := capitalize_aux false s.

(** [s.replace(/_/g, " ")] *)
Definition underscoresToSpaces (s : jstring) : jstring :=
  map (fun c => if (c =? 95)%N then 32%N else c) s.

(* ================================================================== *)
(** ** The patterns of the parser *)

Module Pattern.
Import CharClass.

Definition spaces : regex := Star (Chr space).          (* \s*  *)
Definition dashes : regex := Plus (Chr (one 45)).       (* -+   *)
Definition text : regex := Grp (Plus (Chr dot)).        (* (.+) *)

(** [/\*\*Name:\*\*|Name:\s*-+/i], the shape of the four section labels. *)
Definition label (name : string) : regex :=
  Alt (Lit true ("**" ++ name ++ ":**"))
      (Seq [Lit true (name ++ ":"); spaces; dashes]).

(** [/(?:\*\*Name:\*\*|Name:\s*-+)\s*(.+)/i] *)
Definition labelText (name : string) : regex :=
  Seq [label name; spaces; text].

Definition questionLabel : regex := label "Question".
Definition optionsLabel : regex := label "Options".
Definition answerLabel : regex := label "Correct Answer".
Definition reasoningLabel : regex := label "Reasoning".

(** [/###\s*✅\s*\*\*Correct Answer:\*\*/i] *)
Definition emphasizedAnswerLabel : regex :=
  Seq [Lit true "###"; spaces; Chr (one GLYPH); spaces;
       Lit true "**Correct Answer:**"].

(** [/^(.+?):\s*-+/], matched at the head of the line. *)
Definition customLabel : regex :=
  Seq [Grp (LazyPlus (Chr dot)); Lit false ":"; spaces; dashes].

(** [/^-\s*/] *)
Definition bullet : regex := Seq [Lit false "-"; spaces].

(** [/^\d+\.?\s/] *)
Definition numbered : regex :=
  Seq [Plus (Chr digit); Opt (Lit false "."); Chr space].

(** [/^Q\d*\.?\s/i] *)
Definition qPrefixed : regex :=
  Seq [Lit true "Q"; Star (Chr digit); Opt (Lit true "."); Chr space].

(** [/^\d+\.?\s|^Q\d*\.?\s/i] *)
Definition questionPrefix : regex := Alt numbered qPrefixed.

(** [/^[A-Da-d][.)]\s/] *)
Definition optionPrefix : regex :=
  Seq [Chr letterAD; Chr (fun c => one 46 c || one 41 c); Chr space].

(** [/^(Answer|Correct|Ans):\s*[A-Da-d]/i] *)
Definition answerLine : regex :=
  Seq [Grp (Alt (Lit true "Answer") (Alt (Lit true "Correct") (Lit true "Ans")));
       Lit true ":"; spaces; Chr letterAD].

(** [/[A-Da-d]/]; the group stands for [match[0]]. *)
Definition anyLetterAD : regex := Grp (Chr letterAD).

(** [/^(Explanation|Reason|Why):/i] and [/^(Explanation|Reason|Why):\s*/i] *)
Definition explanationLine : regex :=
  Seq [Grp (Alt (Lit true "Explanation")
              (Alt (Lit true "Reason") (Lit true "Why")));
       Lit true ":"].
Definition explanationPrefix : regex := Seq [explanationLine; spaces].

End Pattern.

(* ================================================================== *)
(** ** Decoded JSON values and the question model *)

(** A value returned by [JSON.parse].  The fields of an object are listed
    in the order [Object.keys] enumerates them.  The parser only asks of a
    number whether it is zero. *)
#[warnings="-register-all"]
Inductive json : Type :=
| JNull
| JBool (b : bool)
| JNum (n : Z)
| JStr (s : jstring)
| JArr (items : list json)
| JObj (fields : list (jstring * json)).

Record AdditionalSection : Type := { title : jstring; content : jstring }.

(** [interface MCQQuestion].  [question] and [explanation] are declared as
    strings; [parseJSONQuestion] stores the item's fields unchecked, so
    they hold whatever truthy value the item carried.  [None] is
    [undefined]. *)
Record MCQQuestion : Type := {
  id : jstring;
  question : json;
  options : list jstring;
  correctAnswer : Z;
  explanation : option json;
  additionalSections : option (list AdditionalSection)
}.

(** Exceptions, and computations that may throw. *)
Inductive exn : Type := TypeError.

Inductive result (A : Type) : Type :=
| Ok (a : A)
| Throw (e : exn).
Arguments Ok {A} a.
Arguments Throw {A} e.

Definition bind {A B : Type} (c : result A) (k : A -> result B) : result B :=
  match c with
  | Ok a => k a
  | Throw e => Throw e
  end.

Notation "x <- c ;; k" := (bind c (fun x => k))
  (at level 61, c at next level, right associativity).

(** The case mapping of [String.prototype.toLowerCase] is a table of the
    runtime; the parser is defined over any such mapping. *)
Class CaseTable : Type := { toLowerCase : jstring -> jstring }.

(** The mapping on A-Z, which is the runtime's on text whose only cased
    letters are ASCII. *)
Definition asciiCase : CaseTable :=
  {| toLowerCase := map CharClass.to_lower |}.

Fixpoint lookup (key : jstring) (fields : list (jstring * json)) : option json :=
  match fields with
  | [] => None
  | (k, v) :: t => if jstring_eqb k key then Some v else lookup key t
  end.

(** [v.key] for the property names the parser reads ([question],
    [options], [questions], [correct_answer], [reasoning], [explanation]):
    reading a property of [null] throws, a primitive or an array has none
    of them. *)
Definition get (v : json) (key : string) : result (option json) :=
  match v with
  | JNull => Throw TypeError
  | JObj fields => Ok (lookup (js key) fields)
  | _ => Ok None
  end.

Definition truthy (v : option json) : bool :=
  match v with
  | None | Some JNull => false
  | Some (JBool b) => b
  | Some (JNum n) => negb (n =? 0)%Z
  | Some (JStr s) => nonempty s
  | Some (JArr _) | Some (JObj _) => true
  end.

(** [Array.isArray(v)] *)
Definition isArray (v : option json) : bool :=
  match v with Some (JArr _) => true | _ => false end.

Definition elements (v : option json) : list json :=
  match v with Some (JArr l) => l | _ => [] end.

(** [Object.keys(item)] *)
Definition keys (v : json) : list jstring :=
  match v with JObj fields => map fst fields | _ => [] end.

(* ================================================================== *)
(** ** The JSON question extractor *)

Section Parser.
Context {caseTable : CaseTable}.

(** The keys [parseJSONQuestion] does not turn into sections. *)
Definition reservedKey (key : jstring) : bool :=
  jstring_eqb key (js "question") || jstring_eqb key (js "options")
  || jstring_eqb key (js "correct_answer") || jstring_eqb key (js "reasoning")
  || jstring_eqb key (js "title").

(** The body of [Object.keys(item).forEach]: what one key pushes. *)
Definition sectionOfKey (fields : list (jstring * json)) (key : jstring)
  : list AdditionalSection :=
  if reservedKey key then []
  else
    match lookup key fields with
    | Some (JStr s) =>
        if nonempty (trim s)
        then [{| title := capitalizeWords (underscoresToSpaces key);
                 content := s |}]
        else []
    | _ => []
    end.

Definition sectionsOfItem (item : json) : list AdditionalSection :=
  match item with
  | JObj fields => flat_map (sectionOfKey fields) (keys item)
  | _ => []
  end.

(** [item.options.forEach((option, optIndex) => ...)], threading
    [correctAnswer] and [cleanOptions]; [option.replace] throws when the
    option is not a string. *)
Fixpoint scanOptions (opts : list (nat * json)) (correctAnswer : Z)
  (cleanOptions : list jstring) : result (Z * list jstring) :=
  match opts with
  | [] => Ok (correctAnswer, cleanOptions)
  | (optIndex, JStr option) :: t =>
      let cleanOption := trim (strip GLYPH option) in
      scanOptions t
        (if has GLYPH option then Z.of_nat optIndex else correctAnswer)
        (cleanOptions ++ [cleanOption])
  | (_, _) :: _ => Throw TypeError
  end.

(** [opt.includes("✅")] on a raw option. *)
Definition marked (opt : json) : bool :=
  match opt with JStr s => has GLYPH s | _ => false end.

(** [opt.toLowerCase().includes(text) || text.includes(opt.toLowerCase())] *)
Definition matchesAnswer (text : jstring) (opt : jstring) : bool :=
  includes (toLowerCase opt) text || includes text (toLowerCase opt).

(** [`q-${index}`] *)
Definition questionId (index : Z) : jstring := js "q-" ++ decimal index.

Definition parseJSONQuestion (item : json) (index : nat)
  : result (option MCQQuestion) :=
  q <- get item "question" ;;
  if negb (truthy q) then Ok None else
  o <- get item "options" ;;
  if negb (truthy o) || negb (isArray o) then Ok None else
  let additional := sectionsOfItem item in
  scanned <- scanOptions (indexed (elements o)) 0 [] ;;
  let '(correctAnswer, cleanOptions) := scanned in
  answer <- get item "correct_answer" ;;
  correctAnswer' <-
    (if negb (existsb marked (elements o)) && truthy answer then
       match answer with
       | Some (JStr a) =>
           let correctAnswerText := trim (toLowerCase a) in
           let matchingIndex :=
             findIndex (matchesAnswer correctAnswerText) cleanOptions in
           Ok (if (matchingIndex =? -1)%Z then correctAnswer else matchingIndex)
       | _ => Throw TypeError
       end
     else Ok correctAnswer) ;;
  reasoning <- get item "reasoning" ;;
  expl <- get item "explanation" ;;
  Ok (Some {|
    id := questionId (Z.of_nat index);
    question := match q with Some v => v | None => JNull end;
    options := cleanOptions;
    correctAnswer := correctAnswer';
    explanation :=
      if truthy reasoning then reasoning
      else if truthy expl then expl else None;
    additionalSections :=
      if 0 <? List.length additional then Some additional else None
  |}).

(** [items.forEach((item, index) => ...)] pushing the converted items. *)
Fixpoint parseItems (items : list (nat * json)) (questions : list MCQQuestion)
  : result (list MCQQuestion) :=
  match items with
  | [] => Ok questions
  | (index, item) :: t =>
      r <- parseJSONQuestion item index ;;
      parseItems t
        (match r with Some q => questions ++ [q] | None => questions end)
  end.

Definition parseJSONFormat (data : json) : result (list MCQQuestion) :=
  q <- get data "question" ;;
  single <- (if truthy q then o <- get data "options" ;; Ok (truthy o)
             else Ok false) ;;
  if single then
    r <- parseJSONQuestion data 0 ;;
    Ok (match r with Some question => [question] | None => [] end)
  else if isArray (Some data) then parseItems (indexed (elements (Some data))) []
  else
    qs <- get data "questions" ;;
    if truthy qs && isArray qs then parseItems (indexed (elements qs)) []
    else Ok [].

(* ================================================================== *)
(** ** The structured-header parser *)

(** The values of [currentSection]; [SecNone] is the initial [""]. *)
Inductive section : Type :=
| SecNone | SecQuestion | SecOptions | SecAnswer | SecReasoning | SecAdditional.

Definition section_eqb (a b : section) : bool :=
  match a, b with
  | SecNone, SecNone | SecQuestion, SecQuestion | SecOptions, SecOptions
  | SecAnswer, SecAnswer | SecReasoning, SecReasoning
  | SecAdditional, SecAdditional => true
  | _, _ => false
  end.

(** The local variables of the loop over the lines of one block. *)
Record block : Type := {
  bQuestion : jstring;
  bOptions : list jstring;
  bCorrectAnswer : Z;
  bExplanation : jstring;
  bAdditionalSections : list AdditionalSection;
  currentSection : section;
  currentSectionTitle : jstring;
  currentSectionContent : jstring
}.

Definition emptyBlock : block :=
  {| bQuestion := []; bOptions := []; bCorrectAnswer := 0; bExplanation := [];
     bAdditionalSections := []; currentSection := SecNone;
     currentSectionTitle := []; currentSectionContent := [] |}.

Definition setQuestion (v : jstring) (b : block) : block :=
  {| bQuestion := v; bOptions := bOptions b;
     bCorrectAnswer := bCorrectAnswer b; bExplanation := bExplanation b;
     bAdditionalSections := bAdditionalSections b;
     currentSection := currentSection b;
     currentSectionTitle := currentSectionTitle b;
     currentSectionContent := currentSectionContent b |}.

Definition setOptions (v : list jstring) (b : block) : block :=
  {| bQuestion := bQuestion b; bOptions := v;
     bCorrectAnswer := bCorrectAnswer b; bExplanation := bExplanation b;
     bAdditionalSections := bAdditionalSections b;
     currentSection := currentSection b;
     currentSectionTitle := currentSectionTitle b;
     currentSectionContent := currentSectionContent b |}.

Definition setCorrectAnswer (v : Z) (b : block) : block :=
  {| bQuestion := bQuestion b; bOptions := bOptions b;
     bCorrectAnswer := v; bExplanation := bExplanation b;
     bAdditionalSections := bAdditionalSections b;
     currentSection := currentSection b;
     currentSectionTitle := currentSectionTitle b;
     currentSectionContent := currentSectionContent b |}.

Definition setExplanation (v : jstring) (b : block) : block :=
  {| bQuestion := bQuestion b; bOptions := bOptions b;
     bCorrectAnswer := bCorrectAnswer b; bExplanation := v;
     bAdditionalSections := bAdditionalSections b;
     currentSection := currentSection b;
     currentSectionTitle := currentSectionTitle b;
     currentSectionContent := currentSectionContent b |}.

Definition setAdditionalSections (v : list AdditionalSection) (b : block)
  : block :=
  {| bQuestion := bQuestion b; bOptions := bOptions b;
     bCorrectAnswer := bCorrectAnswer b; bExplanation := bExplanation b;
     bAdditionalSections := v;
     currentSection := currentSection b;
     currentSectionTitle := currentSectionTitle b;
     currentSectionContent := currentSectionContent b |}.

Definition setSection (v : section) (b : block) : block :=
  {| bQuestion := bQuestion b; bOptions := bOptions b;
     bCorrectAnswer := bCorrectAnswer b; bExplanation := bExplanation b;
     bAdditionalSections := bAdditionalSections b;
     currentSection := v;
     currentSectionTitle := currentSectionTitle b;
     currentSectionContent := currentSectionContent b |}.

Definition setSectionTitle (v : jstring) (b : block) : block :=
  {| bQuestion := bQuestion b; bOptions := bOptions b;
     bCorrectAnswer := bCorrectAnswer b; bExplanation := bExplanation b;
     bAdditionalSections := bAdditionalSections b;
     currentSection := currentSection b;
     currentSectionTitle := v;
     currentSectionContent := currentSectionContent b |}.

Definition setSectionContent (v : jstring) (b : block) : block :=
  {| bQuestion := bQuestion b; bOptions := bOptions b;
     bCorrectAnswer := bCorrectAnswer b; bExplanation := bExplanation b;
     bAdditionalSections := bAdditionalSections b;
     currentSection := currentSection b;
     currentSectionTitle := currentSectionTitle b;
     currentSectionContent := v |}.

(** The guarded [additionalSections.push] that three places of the loop
    share. *)
Definition flushSection (b : block) : block :=
  if section_eqb (currentSection b) SecAdditional
     && nonempty (currentSectionTitle b) && nonempty (currentSectionContent b)
  then
    setAdditionalSections
      (bAdditionalSections b ++
       [{| title := currentSectionTitle b;
           content := trim (currentSectionContent b) |}]) b
  else b.

(** The [findIndex] over the options collected so far, and the guarded
    assignment that follows it. *)
Definition matchesText (answerText : jstring) (opt : jstring) : bool :=
  includes (toLowerCase opt) (toLowerCase answerText)
  || includes (toLowerCase answerText) (toLowerCase opt).

Definition resolveAnswer (answerText : jstring) (b : block) : block :=
  let matchingIndex := findIndex (matchesText answerText) (bOptions b) in
  if (matchingIndex =? -1)%Z then b else setCorrectAnswer matchingIndex b.

(** [a += (a ? "\n" : "") + line] *)
Definition appendLine (a line : jstring) : jstring :=
  a ++ (if nonempty a then [10%N] else []) ++ line.

(** The text a label line carries after the label, if any. *)
Definition trailingText (name : string) (line : jstring) : option jstring :=
  match exec (Pattern.labelText name) line with
  | Some m => group1 m
  | None => None
  end.

(** The body of [for (const line of lines)]. *)
Definition blockLine (b : block) (line : jstring) : block :=
  if test Pattern.questionLabel line then
    let b := setSection SecQuestion b in
    match trailingText "Question" line with
    | Some t => setQuestion (trim (removeBold t)) b
    | None => b
    end
  else if test Pattern.optionsLabel line then
    setSection SecOptions (flushSection b)
  else if test Pattern.answerLabel line
          || test Pattern.emphasizedAnswerLabel line then
    let b := setSection SecAnswer b in
    match trailingText "Correct Answer" line with
    | Some t => resolveAnswer (trim (removeBold t)) b
    | None => b
    end
  else if test Pattern.reasoningLabel line then
    let b := setSection SecReasoning b in
    match trailingText "Reasoning" line with
    | Some t => setExplanation (trim t) b
    | None => b
    end
  else if testAt Pattern.customLabel line then
    let b := flushSection b in
    match matchAt Pattern.customLabel line with
    | Some {| group1 := Some t |} =>
        setSectionContent []
          (setSectionTitle (trim t) (setSection SecAdditional b))
    | _ => b
    end
  else
    if section_eqb (currentSection b) SecQuestion
       && negb (nonempty (bQuestion b)) then
      setQuestion (trim (removeBold line)) b
    else if section_eqb (currentSection b) SecOptions then
      if startsWith line (js "-") then
        let optionText := trim (removeAt Pattern.bullet line) in
        let isCorrect := has GLYPH line in
        let optionText := trim (strip GLYPH (removeBold optionText)) in
        let b := setOptions (bOptions b ++ [optionText]) b in
        if isCorrect
        then setCorrectAnswer (Z.of_nat (List.length (bOptions b)) - 1) b
        else b
      else b
    else if section_eqb (currentSection b) SecAnswer then
      resolveAnswer (trim (removeBold line)) b
    else if section_eqb (currentSection b) SecReasoning then
      setExplanation (appendLine (bExplanation b) line) b
    else if section_eqb (currentSection b) SecAdditional then
      setSectionContent (appendLine (currentSectionContent b) line) b
    else b.

(** The lines of a block: trimmed, blank ones dropped. *)
Definition blockLines (blk : jstring) : list jstring :=
  filter nonempty (map trim (splitLines blk)).

(** The state after the loop and the flush that follows it. *)
Definition scanBlock (blk : jstring) : block :=
  flushSection (fold_left blockLine (blockLines blk) emptyBlock).

(** The body of [questionBlocks.forEach((block, index) => ...)]: the
    question the block yields, if any. *)
Definition parseBlock (blk : jstring) (index : nat) : option MCQQuestion :=
  if negb (test Pattern.questionLabel blk) then None
  else
    let b := scanBlock blk in
    if nonempty (bQuestion b) && (0 <? List.length (bOptions b)) then
      Some {|
        id := questionId (Z.of_nat index);
        question := JStr (bQuestion b);
        options := bOptions b;
        correctAnswer := bCorrectAnswer b;
        explanation :=
          if nonempty (bExplanation b) then Some (JStr (bExplanation b))
          else None;
        additionalSections :=
          if 0 <? List.length (bAdditionalSections b)
          then Some (bAdditionalSections b) else None
      |}
    else None.

Definition questionBlocks (text : jstring) : list jstring :=
  filter (fun blk => nonempty (trim blk))
    (splitBefore Pattern.questionLabel text).

Definition parseStructuredFormat (text : jstring) : list MCQQuestion :=
  flat_map
    (fun '(index, blk) =>
       match parseBlock blk index with Some q => [q] | None => [] end)
    (indexed (questionBlocks text)).

(* ================================================================== *)
(** ** The line-pattern parser *)

(** [Partial<MCQQuestion>], the question in progress; [None] is a field
    not set yet. *)
Record partialQuestion : Type := {
  pQuestion : option jstring;
  pOptions : option (list jstring);
  pCorrectAnswer : option Z;
  pExplanation : option jstring
}.

(** The local variables of the loop over the lines. *)
Record lineState : Type := {
  questions : list MCQQuestion;
  currentQuestion : partialQuestion;
  questionCounter : Z
}.

(** The guarded [questions.push] of the loop and of its exit.  An array is
    truthy whatever its length. *)
Definition completed (p : partialQuestion) (counter : Z) : option MCQQuestion :=
  match pQuestion p, pOptions p with
  | Some q, Some opts =>
      if nonempty q then
        Some {|
          id := questionId counter;
          question := JStr q;
          options := opts;
          correctAnswer := match pCorrectAnswer p with Some n => n | None => 0%Z end;
          explanation := option_map JStr (pExplanation p);
          additionalSections := None
        |}
      else None
  | _, _ => None
  end.

Definition optionsOrEmpty (p : partialQuestion) : list jstring :=
  match pOptions p with Some opts => opts | None => [] end.

(** The body of [for (let i = 0; i < lines.length; i++)] on
    [lines[i].trim()]. *)
Definition textLine (st : lineState) (line : jstring) : lineState :=
  let cur := currentQuestion st in
  if testAt Pattern.numbered line || testAt Pattern.qPrefixed line then
    let started :=
      {| pQuestion := Some (trim (removeAt Pattern.questionPrefix line));
         pOptions := Some [];
         pCorrectAnswer := Some 0%Z;
         pExplanation := None |} in
    match completed cur (questionCounter st) with
    | Some q =>
        {| questions := questions st ++ [q];
           currentQuestion := started;
           questionCounter := questionCounter st + 1 |}
    | None =>
        {| questions := questions st;
           currentQuestion := started;
           questionCounter := questionCounter st |}
    end
  else if testAt Pattern.optionPrefix line then
    let optionText := trim (removeAt Pattern.optionPrefix line) in
    let opts := optionsOrEmpty cur ++ [optionText] in
    {| questions := questions st;
       currentQuestion :=
         {| pQuestion := pQuestion cur;
            pOptions := Some opts;
            pCorrectAnswer :=
              if has 42%N line || has CHECK line
              then Some (Z.of_nat (List.length opts) - 1)%Z
              else pCorrectAnswer cur;
            pExplanation := pExplanation cur |};
       questionCounter := questionCounter st |}
  else if testAt Pattern.answerLine line then
    match exec Pattern.anyLetterAD line with
    | Some {| group1 := Some (answerLetter :: _) |} =>
        {| questions := questions st;
           currentQuestion :=
             {| pQuestion := pQuestion cur;
                pOptions := pOptions cur;
                pCorrectAnswer :=
                  Some (Z.of_N (CharClass.to_upper answerLetter) - 65)%Z;
                pExplanation := pExplanation cur |};
           questionCounter := questionCounter st |}
    | _ => st
    end
  else if testAt Pattern.explanationLine line then
    {| questions := questions st;
       currentQuestion :=
         {| pQuestion := pQuestion cur;
            pOptions := pOptions cur;
            pCorrectAnswer := pCorrectAnswer cur;
            pExplanation := Some (trim (removeAt Pattern.explanationPrefix line)) |};
       questionCounter := questionCounter st |}
  else st.

(** [text.split("\n").filter((line) => line.trim())], each line trimmed
    as the loop reads it. *)
Definition textLines (text : jstring) : list jstring :=
  map trim (filter (fun line => nonempty (trim line)) (splitLines text)).

(** The line-pattern pass of [parseMCQText]; [now] is the value
    [Date.now()] returns. *)
Definition parseLinePattern (now : Z) (text : jstring) : list MCQQuestion :=
  let st :=
    fold_left textLine (textLines text)
      {| questions := [];
         currentQuestion :=
           {| pQuestion := None; pOptions := None;
              pCorrectAnswer := None; pExplanation := None |};
         questionCounter := now |} in
  match completed (currentQuestion st) (questionCounter st) with
  | Some q => questions st ++ [q]
  | None => questions st
  end.

Definition parseMCQText (now : Z) (text : jstring) : list MCQQuestion :=
  let structuredQuestions := parseStructuredFormat text in
  if 0 <? List.length structuredQuestions then structuredQuestions
  else parseLinePattern now text.

End Parser.

Arguments parseJSONQuestion {caseTable} item index.
Arguments parseJSONFormat {caseTable} data.

(* ================================================================== *)
(** ** The editing operations of the preview

    [updateQuestion], [deleteQuestion], [addNewQuestion], [addOption] and
    [deleteOption] are the functions [setParsedQuestions] is given, from
    the previous list of questions to the next; [QuestionEditor] keeps a
    copy of one question in its own state. *)

(** [q.id === questionId] *)
Definition hasId (questionId : jstring) (q : MCQQuestion) : bool :=
  jstring_eqb (id q) questionId.

(** [Partial<MCQQuestion>] as [updateQuestion] receives it.  [None] is an
    absent key; for the two optional fields a present key may hold
    [undefined]. *)
Record questionUpdates : Type := {
  uId : option jstring;
  uQuestion : option json;
  uOptions : option (list jstring);
  uCorrectAnswer : option Z;
  uExplanation : option (option json);
  uAdditionalSections : option (option (list AdditionalSection))
}.

Definition orKeep {A : Type} (update : option A) (old : A) : A :=
  match update with Some v => v | None => old end.

(** [{ ...q, ...updates }] *)
Definition merge (q : MCQQuestion) (updates : questionUpdates) : MCQQuestion :=
  {| id := orKeep (uId updates) (id q);
     question := orKeep (uQuestion updates) (question q);
     options := orKeep (uOptions updates) (options q);
     correctAnswer := orKeep (uCorrectAnswer updates) (correctAnswer q);
     explanation := orKeep (uExplanation updates) (explanation q);
     additionalSections :=
       orKeep (uAdditionalSections updates) (additionalSections q) |}.

Definition updateQuestion (questionId : jstring) (updates : questionUpdates)
  (prev : list MCQQuestion) : list MCQQuestion :=
  map (fun q => if hasId questionId q then merge q updates else q) prev.

Definition deleteQuestion (questionId : jstring) (prev : list MCQQuestion)
  : list MCQQuestion :=
  filter (fun q => negb (hasId questionId q)) prev.

(** The question [addNewQuestion] appends; [now] is the value
    [Date.now()] returns. *)
Definition newQuestion (now : Z) : MCQQuestion :=
  {| id := questionId now;
     question := JStr (js "New question");
     options := [js "Option A"; js "Option B"; js "Option C"; js "Option D"];
     correctAnswer := 0;
     explanation := None;
     additionalSections := None |}.

Definition addNewQuestion (now : Z) (prev : list MCQQuestion)
  : list MCQQuestion :=
  prev ++ [newQuestion now].

(** [String.fromCharCode(n)]: the code unit [n] modulo 2^16. *)
Definition fromCharCode (n : nat) : jstring := [(N.of_nat n mod 65536)%N].

(** [`Option ${String.fromCharCode(65 + n)}`] *)
Definition optionLabel (n : nat) : jstring := js "Option " ++ fromCharCode (65 + n).

Definition setOptionsOf (q : MCQQuestion) (opts : list jstring) (ca : Z)
  : MCQQuestion :=
  {| id := id q; question := question q; options := opts;
     correctAnswer := ca; explanation := explanation q;
     additionalSections := additionalSections q |}.

Definition addOption (questionId : jstring) (prev : list MCQQuestion)
  : list MCQQuestion :=
  map (fun q =>
         if hasId questionId q
         then setOptionsOf q (options q ++ [optionLabel (List.length (options q))])
                (correctAnswer q)
         else q) prev.

(** [opts.filter((_, index) => index !== optionIndex)] *)
Definition withoutIndex (optionIndex : Z) (opts : list jstring) : list jstring :=
  map snd
    (filter (fun p => negb (Z.of_nat (fst p) =? optionIndex)%Z) (indexed opts)).

(** The [correctAnswer] that follows the removal of [optionIndex]. *)
Definition shiftedAnswer (optionIndex : Z) (correctAnswer : Z) : Z :=
  if (correctAnswer >? optionIndex)%Z then (correctAnswer - 1)%Z
  else if (correctAnswer =? optionIndex)%Z then 0%Z
  else correctAnswer.

Definition deleteOption (questionId : jstring) (optionIndex : Z)
  (prev : list MCQQuestion) : list MCQQuestion :=
  map (fun q =>
         if hasId questionId q && (2 <? List.length (options q))
         then setOptionsOf q (withoutIndex optionIndex (options q))
                (shiftedAnswer optionIndex (correctAnswer q))
         else q) prev.

(** The state of [QuestionEditor]. *)
Record editor : Type := {
  editedQuestion : json;
  editedOptions : list jstring;
  editedCorrectAnswer : Z;
  editedExplanation : json;
  editedAdditionalSections : list AdditionalSection
}.

(** The initial values of the [useState] calls. *)
Definition openEditor (q : MCQQuestion) : editor :=
  {| editedQuestion := question q;
     editedOptions := options q;
     editedCorrectAnswer := correctAnswer q;
     editedExplanation :=
       if truthy (explanation q)
       then match explanation q with Some v => v | None => JStr [] end
       else JStr [];
     editedAdditionalSections :=
       match additionalSections q with Some l => l | None => [] end |}.

(** The updates [handleSave] hands to [onSave]. *)
Definition handleSave (e : editor) : questionUpdates :=
  {| uId := None;
     uQuestion := Some (editedQuestion e);
     uOptions := Some (editedOptions e);
     uCorrectAnswer := Some (editedCorrectAnswer e);
     uExplanation :=
       Some (if truthy (Some (editedExplanation e))
             then Some (editedExplanation e) else None);
     uAdditionalSections :=
       Some (if 0 <? List.length (editedAdditionalSections e)
             then Some (editedAdditionalSections e) else None) |}.

Definition handleAddOption (e : editor) : editor :=
  {| editedQuestion := editedQuestion e;
     editedOptions :=
       editedOptions e ++ [optionLabel (List.length (editedOptions e))];
     editedCorrectAnswer := editedCorrectAnswer e;
     editedExplanation := editedExplanation e;
     editedAdditionalSections := editedAdditionalSections e |}.

Definition handleDeleteOption (index : Z) (e : editor) : editor :=
  if 2 <? List.length (editedOptions e) then
    {| editedQuestion := editedQuestion e;
       editedOptions := withoutIndex index (editedOptions e);
       editedCorrectAnswer :=
         if (editedCorrectAnswer e >? index)%Z
         then (editedCorrectAnswer e - 1)%Z
         else if (editedCorrectAnswer e =? index)%Z then 0%Z
         else editedCorrectAnswer e;
       editedExplanation := editedExplanation e;
       editedAdditionalSections := editedAdditionalSections e |}
  else e.

(** The [onSave] of the editor of [q]: [updateQuestion(question.id,
    updates)]. *)
Definition saveEditor (q : MCQQuestion) (e : editor) (prev : list MCQQuestion)
  : list MCQQuestion :=
  updateQuestion (id q) (handleSave e) prev.

(* ================================================================== *)
(** ** The dispatcher and the upload handler *)

(** What the component asks of its host: [JSON.parse] ([None] when it
    throws its [SyntaxError]) and the [message] of a caught error. *)
Class Host : Type := {
  jsonParse : jstring -> option json;
  errorMessage : exn -> jstring
}.

Inductive uploadStatus : Type := Processing | Success | Failed.

(** An entry of [uploadProgress]. *)
Record progress : Type := {
  fileName : jstring;
  status : uploadStatus;
  message : jstring;
  questionsCount : option nat
}.

(** The state of [MCQParser], one field per [useState]. *)
Record component : Type := {
  rawText : jstring;
  parsedQuestions : list MCQQuestion;
  testName : jstring;
  isPreviewMode : bool;
  editingQuestion : option jstring;
  uploadError : option jstring;
  showAddQuestions : bool;
  addQuestionsText : jstring;
  uploadProgress : list progress;
  isUploading : bool
}.

Definition setParsedQuestions (v : list MCQQuestion) (s : component) : component :=
  {| rawText := rawText s; parsedQuestions := v; testName := testName s;
     isPreviewMode := isPreviewMode s; editingQuestion := editingQuestion s;
     uploadError := uploadError s; showAddQuestions := showAddQuestions s;
     addQuestionsText := addQuestionsText s;
     uploadProgress := uploadProgress s; isUploading := isUploading s |}.

Definition setIsPreviewMode (v : bool) (s : component) : component :=
  {| rawText := rawText s; parsedQuestions := parsedQuestions s;
     testName := testName s;
     isPreviewMode := v; editingQuestion := editingQuestion s;
     uploadError := uploadError s; showAddQuestions := showAddQuestions s;
     addQuestionsText := addQuestionsText s;
     uploadProgress := uploadProgress s; isUploading := isUploading s |}.

Definition setUploadError (v : option jstring) (s : component) : component :=
  {| rawText := rawText s; parsedQuestions := parsedQuestions s;
     testName := testName s;
     isPreviewMode := isPreviewMode s; editingQuestion := editingQuestion s;
     uploadError := v; showAddQuestions := showAddQuestions s;
     addQuestionsText := addQuestionsText s;
     uploadProgress := uploadProgress s; isUploading := isUploading s |}.

Definition setShowAddQuestions (v : bool) (s : component) : component :=
  {| rawText := rawText s; parsedQuestions := parsedQuestions s;
     testName := testName s;
     isPreviewMode := isPreviewMode s; editingQuestion := editingQuestion s;
     uploadError := uploadError s; showAddQuestions := v;
     addQuestionsText := addQuestionsText s;
     uploadProgress := uploadProgress s; isUploading := isUploading s |}.

Definition setAddQuestionsText (v : jstring) (s : component) : component :=
  {| rawText := rawText s; parsedQuestions := parsedQuestions s;
     testName := testName s;
     isPreviewMode := isPreviewMode s; editingQuestion := editingQuestion s;
     uploadError := uploadError s; showAddQuestions := showAddQuestions s;
     addQuestionsText := v;
     uploadProgress := uploadProgress s; isUploading := isUploading s |}.

Definition setUploadProgress (v : list progress) (s : component) : component :=
  {| rawText := rawText s; parsedQuestions := parsedQuestions s;
     testName := testName s;
     isPreviewMode := isPreviewMode s; editingQuestion := editingQuestion s;
     uploadError := uploadError s; showAddQuestions := showAddQuestions s;
     addQuestionsText := addQuestionsText s;
     uploadProgress := v; isUploading := isUploading s |}.

Definition setIsUploading (v : bool) (s : component) : component :=
  {| rawText := rawText s; parsedQuestions := parsedQuestions s;
     testName := testName s;
     isPreviewMode := isPreviewMode s; editingQuestion := editingQuestion s;
     uploadError := uploadError s; showAddQuestions := showAddQuestions s;
     addQuestionsText := addQuestionsText s;
     uploadProgress := uploadProgress s; isUploading := v |}.

Definition setRawText (v : jstring) (s : component) : component :=
  {| rawText := v; parsedQuestions := parsedQuestions s;
     testName := testName s;
     isPreviewMode := isPreviewMode s; editingQuestion := editingQuestion s;
     uploadError := uploadError s; showAddQuestions := showAddQuestions s;
     addQuestionsText := addQuestionsText s;
     uploadProgress := uploadProgress s; isUploading := isUploading s |}.

(** The state of a component just mounted: the initial values of the
    [useState] calls. *)
Definition initialState : component :=
  {| rawText := []; parsedQuestions := []; testName := [];
     isPreviewMode := false; editingQuestion := None; uploadError := None;
     showAddQuestions := false; addQuestionsText := [];
     uploadProgress := []; isUploading := false |}.

(** A file of the input element: its [name], [type] and [size], and what
    [readFileContent] resolves to ([None] when it rejects). *)
Record file : Type := {
  name : jstring;
  type : jstring;
  size : Z;
  fileContent : option jstring
}.

Section Component.
Context {caseTable : CaseTable} {host : Host}.

(** The inner [try]/[catch] of [parseText]: the text parsers take over
    when [JSON.parse] or the extractor throws. *)
Definition parseAny (now : Z) (text : jstring) : list MCQQuestion :=
  match jsonParse text with
  | Some jsonData =>
      match parseJSONFormat jsonData with
      | Ok questions => questions
      | Throw _ => parseMCQText now text
      end
  | None => parseMCQText now text
  end.

(** The questions the two handlers hand over: appended to the test under
    edit, or put in place of the parsed ones with the preview opened. *)
Definition deliver (existingTest : bool) (questions : list MCQQuestion)
  (s : component) : component :=
  if existingTest
  then setParsedQuestions (parsedQuestions s ++ questions) s
  else setIsPreviewMode true (setParsedQuestions questions s).

(** [parseText]; [existingTest] tells whether the prop is set, [now] is
    the value [Date.now()] returns.  The outer [catch] has nothing to
    catch: the text parsers and the setters do not throw. *)
Definition parseText (existingTest : bool) (now : Z) (s : component) : component :=
  if negb (nonempty (trim (addQuestionsText s))) then
    setUploadError (Some (js "Please enter some text to parse.")) s
  else
    let questions := parseAny now (addQuestionsText s) in
    if (List.length questions =? 0)%nat then
      setUploadError
        (Some (js "No valid questions could be parsed from the text. Please check the format and try again."))
        s
    else
      setUploadError None
        (setAddQuestionsText []
           (setShowAddQuestions false (deliver existingTest questions s))).

(** [createTest]: the questions and the name [onTestCreated] is called
    with, if it is called. *)
Definition createTest (s : component) : option (list MCQQuestion * jstring) :=
  if (0 <? List.length (parsedQuestions s)) && nonempty (trim (testName s))
  then Some (parsedQuestions s, testName s)
  else None.

(** [`Successfully imported ${n} question${n !== 1 ? "s" : ""}`] *)
Definition importedMessage (n : nat) : jstring :=
  js "Successfully imported " ++ decimal (Z.of_nat n) ++ js " question"
  ++ (if (n =? 1)%nat then [] else js "s").

(** What the loop of [handleFileUpload] writes for one file: the fields
    it puts in the file's entry and the questions it pushes. *)
Record verdict : Type := {
  vStatus : uploadStatus;
  vMessage : jstring;
  vCount : option nat;
  vQuestions : list MCQQuestion
}.

Definition rejected (text : jstring) : verdict :=
  {| vStatus := Failed; vMessage := text; vCount := None; vQuestions := [] |}.

(** The body of the loop over the files, [catch] included. *)
Definition processFile (f : file) : verdict :=
  if negb (jstring_eqb (type f) (js "application/json")) then
    rejected (js "Invalid file type. Only JSON files are supported.")
  else if (size f >? 5 * 1024 * 1024)%Z then
    rejected (js "File too large. Maximum size is 5MB.")
  else
    match fileContent f with
    | None => rejected (js "Failed to read file")
    | Some content =>
        if negb (nonempty (trim content)) then rejected (js "File is empty.")
        else
          match jsonParse content with
          | None => rejected (js "Invalid JSON format. Please check file syntax.")
          | Some jsonData =>
              match parseJSONFormat jsonData with
              | Throw e => rejected (errorMessage e)
              | Ok questions =>
                  if (List.length questions =? 0)%nat then
                    rejected (js "No valid questions found in file.")
                  else
                    {| vStatus := Success;
                       vMessage := importedMessage (List.length questions);
                       vCount := Some (List.length questions);
                       vQuestions := questions |}
              end
          end
    end.

(** The local variables of [handleFileUpload]. *)
Record upload : Type := {
  progressArray : list progress;
  allNewQuestions : list MCQQuestion;
  totalQuestionsAdded : nat
}.

(** [arr[i] = f(arr[i])] for a position of the array. *)
Fixpoint updateAt {A : Type} (i : nat) (f : A -> A) (l : list A) : list A :=
  match l, i with
  | [], _ => []
  | x :: t, O => f x :: t
  | x :: t, S i' => x :: updateAt i' f t
  end.

(** [{ ...progressArray[i], status, message, questionsCount }] *)
Definition settle (v : verdict) (p : progress) : progress :=
  {| fileName := fileName p; status := vStatus v; message := vMessage v;
     questionsCount :=
       match vCount v with Some n => Some n | None => questionsCount p end |}.

(** One turn of [for (let i = 0; i < fileArray.length; i++)]. *)
Definition uploadStep (u : upload) (indexedFile : nat * file) : upload :=
  let v := processFile (snd indexedFile) in
  {| progressArray := updateAt (fst indexedFile) (settle v) (progressArray u);
     allNewQuestions := allNewQuestions u ++ vQuestions v;
     totalQuestionsAdded :=
       totalQuestionsAdded u + List.length (vQuestions v) |}.

(** The entries [fileArray.forEach] pushes before the loop, and the loop. *)
Definition uploadLoop (files : list file) : upload :=
  fold_left uploadStep (indexed files)
    {| progressArray :=
         map (fun f => {| fileName := name f; status := Processing;
                          message := js "Processing...";
                          questionsCount := None |}) files;
       allNewQuestions := [];
       totalQuestionsAdded := 0 |}.

Definition isSuccess (p : progress) : bool :=
  match status p with Success => true | _ => false end.

Definition isFailed (p : progress) : bool :=
  match status p with Failed => true | _ => false end.

(** [`Failed to process ${n} file${n !== 1 ? "s" : ""}. Please check the
    errors above.`] *)
Definition failedMessage (n : nat) : jstring :=
  js "Failed to process " ++ decimal (Z.of_nat n) ++ js " file"
  ++ (if (n =? 1)%nat then [] else js "s")
  ++ js ". Please check the errors above.".

(** [handleFileUpload] on the files of the input element ([[]] for no
    file list or an empty one), as the state it leaves when it
    completes. *)
Definition handleFileUpload (existingTest : bool) (files : list file)
  (s : component) : component :=
  match files with
  | [] => s
  | _ :: _ =>
      let s := setIsUploading true (setUploadProgress [] (setUploadError None s)) in
      let u := uploadLoop files in
      let s := setUploadProgress (progressArray u) s in
      let s :=
        if 0 <? List.length (allNewQuestions u)
        then deliver existingTest (allNewQuestions u) s else s in
      let s := setIsUploading false s in
      let successCount := List.length (filter isSuccess (progressArray u)) in
      let errorCount := List.length (filter isFailed (progressArray u)) in
      if (0 <? successCount) && (errorCount =? 0)%nat
      then setShowAddQuestions false s
      else if (successCount =? 0)%nat && (0 <? errorCount)
      then setUploadError (Some (failedMessage errorCount)) s
      else s
  end.

End Component.

(* ================================================================== *)
(** ** Notions the properties are stated with *)

(** The invariant of the data model: at least one option, and
    [correctAnswer] a position in [options]. *)
Definition validQuestion (q : MCQQuestion) : Prop :=
  options q <> [] /\
  (0 <= correctAnswer q < Z.of_nat (List.length (options q)))%Z.

(** A question without its [id]. *)
Definition withoutId (q : MCQQuestion) :=
  (question q, options q, correctAnswer q, explanation q, additionalSections q).

(** The minimal shape check of [parseJSONQuestion]: a truthy [question]
    and [options] present as an array. *)
Definition shapeOk (item : json) : bool :=
  match item with
  | JObj fields =>
      truthy (lookup (js "question") fields)
      && truthy (lookup (js "options") fields)
      && isArray (lookup (js "options") fields)
  | _ => false
  end.

Definition isString (v : json) : bool :=
  match v with JStr _ => true | _ => false end.

(** An item the extractor converts or skips without throwing: it is not
    [null] and, when it passes the shape check, its options are strings
    and its [correct_answer], when consulted, is a string or falsy. *)
Definition itemSafe (item : json) : bool :=
  match item with
  | JNull => false
  | JObj fields =>
      if shapeOk item then
        let opts := elements (lookup (js "options") fields) in
        let answer := lookup (js "correct_answer") fields in
        forallb isString opts
        && (existsb marked opts || negb (truthy answer)
            || match answer with Some (JStr _) => true | _ => false end)
      else true
  | _ => true
  end.

(** The items [parseJSONFormat] hands to [parseJSONQuestion]. *)
Definition candidates (data : json) : list json :=
  match data with
  | JArr items => items
  | JObj fields =>
      if truthy (lookup (js "question") fields)
         && truthy (lookup (js "options") fields)
      then [data]
      else if isArray (lookup (js "questions") fields)
      then elements (lookup (js "questions") fields)
      else []
  | _ => []
  end.

(** The stored form of a JSON option. *)
Definition cleanOption (option : jstring) : jstring := trim (strip GLYPH option).

(** The text a line-pattern or structured input is assembled from. *)
Fixpoint unlines (lines : list jstring) : jstring :=
  match lines with
  | [] => []
  | [line] => line
  | line :: t => line ++ [10%N] ++ unlines t
  end.

(** [k] is the position of the last option that bears the glyph. *)
Definition lastMarkedAt (strs : list jstring) (k : nat) : Prop :=
  (exists s, nth_error strs k = Some s /\ has GLYPH s = true) /\
  (forall j s, (k < j)%nat -> nth_error strs j = Some s -> has GLYPH s = false).

(** [k] is the position of the first stored option that matches the answer
    text by containment, either way, of the lower-cased texts. *)
Definition firstMatchAt {caseTable : CaseTable} (answer : jstring)
  (stored : list jstring) (k : nat) : Prop :=
  (exists o, nth_error stored k = Some o
             /\ matchesAnswer (trim (toLowerCase answer)) o = true) /\
  (forall j o, (j < k)%nat -> nth_error stored j = Some o ->
               matchesAnswer (trim (toLowerCase answer)) o = false).

(** The position [parseJSONQuestion] resolves for raw options [strs] and
    the item's [correct_answer] field. *)
Inductive resolved {caseTable : CaseTable}
  (strs : list jstring) (answer : option json) (ca : Z) : Prop :=
| ByGlyph (k : nat) :
    lastMarkedAt strs k -> ca = Z.of_nat k -> resolved strs answer ca
| ByText (a : jstring) (k : nat) :
    existsb (has GLYPH) strs = false -> answer = Some (JStr a) -> a <> [] ->
    firstMatchAt a (map cleanOption strs) k -> ca = Z.of_nat k ->
    resolved strs answer ca
| ByDefault :
    existsb (has GLYPH) strs = false ->
    (truthy answer = false \/
     exists a, answer = Some (JStr a) /\
               forall o, In o (map cleanOption strs) ->
                         matchesAnswer (trim (toLowerCase a)) o = false) ->
    ca = 0%Z -> resolved strs answer ca.

(** A line one of the label branches of the block loop takes. *)
Definition isLabel (line : jstring) : bool :=
  test Pattern.questionLabel line || test Pattern.optionsLabel line
  || test Pattern.answerLabel line || test Pattern.emphasizedAnswerLabel line
  || test Pattern.reasoningLabel line || testAt Pattern.customLabel line.

(** A line the Correct-Answer branch takes. *)
Definition isAnswerLabel (line : jstring) : bool :=
  negb (test Pattern.questionLabel line)
  && negb (test Pattern.optionsLabel line)
  && (test Pattern.answerLabel line || test Pattern.emphasizedAnswerLabel line).

(** A line the Correct-Answer or the Reasoning branch takes. *)
Definition isAnswerOrReasoningLabel (line : jstring) : bool :=
  negb (test Pattern.questionLabel line)
  && negb (test Pattern.optionsLabel line)
  && (test Pattern.answerLabel line || test Pattern.emphasizedAnswerLabel line
      || test Pattern.reasoningLabel line).

(** [correctAnswer] is the initial 0 or a position among the options
    collected so far. *)
Definition blockInv (b : block) : Prop :=
  (0 <= bCorrectAnswer b)%Z /\
  (bCorrectAnswer b = 0%Z
   \/ (bCorrectAnswer b < Z.of_nat (List.length (bOptions b)))%Z).

(** What the line-pattern parser guarantees of [correctAnswer]: it is a
    position among the options or one of the four letter positions. *)
Definition letterOrPosition (ca : Z) (opts : list jstring) : Prop :=
  (0 <= ca)%Z /\ ((ca < Z.of_nat (List.length opts))%Z \/ (ca <= 3)%Z).

(** The invariants of the line loop: of the question in progress, and of
    the questions pushed so far. *)
Definition partialInv (p : partialQuestion) : Prop :=
  forall n, pCorrectAnswer p = Some n -> letterOrPosition n (optionsOrEmpty p).

Definition lineInv (st : lineState) : Prop :=
  partialInv (currentQuestion st) /\
  Forall (fun q => letterOrPosition (correctAnswer q) (options q)) (questions st).

(** Two runs of the loop that differ in the counter only. *)
Definition sameButCounter (s1 s2 : lineState) : Prop :=
  currentQuestion s1 = currentQuestion s2 /\
  map withoutId (questions s1) = map withoutId (questions s2).

(** The ids of [qs] are those of strictly increasing positions from [i]
    on. *)
Definition idsFrom (i : nat) (qs : list MCQQuestion) : Prop :=
  exists positions,
    map id qs = map (fun j => questionId (Z.of_nat j)) positions /\
    StronglySorted lt positions /\ Forall (fun j => i <= j)%nat positions.

(** Two states of the loop that differ at most in a question in progress
    that has no text yet. *)
Definition sameButUnstarted (s1 s2 : lineState) : Prop :=
  questions s1 = questions s2 /\ questionCounter s1 = questionCounter s2 /\
  (currentQuestion s1 = currentQuestion s2 \/
   (pQuestion (currentQuestion s1) = None /\
    pQuestion (currentQuestion s2) = None)).

(** The states of the loop by the number of question lines read. *)
Definition readSoFar (st : lineState) (k : nat) : Prop :=
  (k = 0%nat /\ questions st = [] /\ pQuestion (currentQuestion st) = None) \/
  (exists q o,
     pQuestion (currentQuestion st) = Some q /\ nonempty q = true /\
     pOptions (currentQuestion st) = Some o /\
     (List.length (questions st) + 1 = k)%nat).

(** A file the upload handler reads and decodes to [d]: JSON by its
    type, within the size limit, its text not blank. *)
Definition decodesTo {host : Host} (f : file) (d : json) : Prop :=
  type f = js "application/json" /\ (size f <= 5 * 1024 * 1024)%Z /\
  exists content,
    fileContent f = Some content /\ nonempty (trim content) = true /\
    jsonParse content = Some d.

(** A text of ASCII units only. *)
Definition asciiText (s : jstring) : bool := forallb (fun c => (c <? 128)%N) s.

(** Two units that are the same letter in either case, or the same unit. *)
Definition caseVariant (c c' : char) : Prop :=
  c = c' \/
  (CharClass.upper_letter c = true /\ c' = (c + 32)%N) \/
  (CharClass.upper_letter c' = true /\ c = (c' + 32)%N).

(** Two texts that differ in the case of their letters at most. *)
Definition sameButCase (s s' : jstring) : Prop := Forall2 caseVariant s s'.

(** A question that a save of an unedited editor writes back as it is:
    its [explanation] is absent or truthy and its [additionalSections] is
    not an empty array. *)
Definition savedAsIs (q : MCQQuestion) : Prop :=
  (explanation q = None \/ truthy (explanation q) = true) /\
  additionalSections q <> Some [].

(* ================================================================== *)
(** ** Concrete inputs *)

(** The marker glyph after a text, as in ["- A ✅"]. *)
Definition withGlyph (s : string) : jstring := js s ++ [GLYPH].

Definition field (name : string) (v : json) : jstring * json := (js name, v).

Definition jstr (s : string) : json := JStr (js s).

(** The line-pattern minimal case of the specification. *)
Definition minimalCase : jstring :=
  unlines [js "1. What is 2+2?"; js "A. 3"; js "B. 4"; js "C. 5"; js "Answer: B"].

(** A question line and nothing else. *)
Definition loneQuestion : jstring := js "1. Pick one".

(** Two options and an answer line. *)
Definition twoOptions : jstring :=
  unlines [js "1. Pick one"; js "A. x"; js "B. y"; js "Correct: A"].

(** A question object whose options array is empty. *)
Definition noOptions : json :=
  JObj [field "question" (jstr "Pick one"); field "options" (JArr [])].

(** The substring-match case of the specification. *)
Definition capitals : json :=
  JObj [field "question" (jstr "Capital of France?");
        field "options" (JArr [jstr "London"; jstr "Paris"; jstr "Berlin"]);
        field "correct_answer" (jstr "Paris")].

(** A structured block whose first option bears the glyph and whose
    Correct-Answer label names the second. *)
Definition glyphThenLabel : jstring :=
  unlines [js "**Question:** Pick one"; js "**Options:**";
           withGlyph "- Alpha "; js "- Beta";
           js "**Correct Answer:** Beta"].

(** The same block with the label before the options. *)
Definition labelThenGlyph : jstring :=
  unlines [js "**Question:** Pick one"; js "**Options:**"; js "- Beta";
           js "**Correct Answer:** Beta"; js "**Options:**";
           withGlyph "- Alpha "].

(** A structured block with a custom section between the options and the
    reasoning. *)
Definition sectionThenReasoning : jstring :=
  unlines [js "**Question:** Pick one"; js "**Options:**";
           js "- Alpha"; js "- Beta";
           js "Context:----"; js "Some context";
           js "**Reasoning:** because"].

(** The same block with the custom section last. *)
Definition sectionLast : jstring :=
  unlines [js "**Question:** Pick one"; js "**Options:**";
           js "- Alpha"; js "- Beta";
           js "**Reasoning:** because";
           js "Context:----"; js "Some context"].

(** A block in the dashed convention, the question on the line after its
    label. *)
Definition dashedBlock : jstring :=
  unlines [js "Question:----"; js "Pick one"; js "Options:----";
           js "- Alpha"; js "- Beta"].

(** A batch of three objects, the second without [options]. *)
Definition batch : json :=
  JArr [JObj [field "question" (jstr "First?");
              field "options" (JArr [jstr "a"; jstr "b"])];
        JObj [field "question" (jstr "Second?")];
        JObj [field "question" (jstr "Third?");
              field "options" (JArr [jstr "c"; JStr (withGlyph "d ")])]].

(** An item with an [explanation] and no [reasoning]. *)
Definition explained : json :=
  JObj [field "question" (jstr "Why?");
        field "options" (JArr [jstr "a"; jstr "b"]);
        field "explanation" (jstr "Because of b.")].

(** An item two of whose options bear the glyph. *)
Definition twiceMarked : json :=
  JObj [field "question" (jstr "Which?");
        field "options" (JArr [JStr (withGlyph "a "); jstr "b";
                          JStr (withGlyph "c "); jstr "d"])].

(** The question the structured-header parser returns for
    [labelThenGlyph]. *)
Definition betaAlpha : MCQQuestion :=
  {| id := js "q-0"; question := jstr "Pick one";
     options := [js "Beta"; js "Alpha"]; correctAnswer := 1;
     explanation := None; additionalSections := None |}.

(** The state of the block loop on [labelThenGlyph] before its last line. *)
Definition beforeAlpha : block :=
  {| bQuestion := js "Pick one"; bOptions := [js "Beta"];
     bCorrectAnswer := 0; bExplanation := [];
     bAdditionalSections := []; currentSection := SecOptions;
     currentSectionTitle := []; currentSectionContent := [] |}.

(** The question the extractor returns for [twiceMarked]. *)
Definition abcd : MCQQuestion :=
  {| id := js "q-0"; question := jstr "Which?";
     options := [js "a"; js "b"; js "c"; js "d"];
     correctAnswer := 2; explanation := None; additionalSections := None |}.

(** The substring-match case with another [correct_answer]. *)
Definition capitalsAnswered (answer : string) : json :=
  JObj [field "question" (jstr "Capital of France?");
        field "options" (JArr [jstr "London"; jstr "Paris"; jstr "Berlin"]);
        field "correct_answer" (jstr answer)].

(** The same case in capitals throughout. *)
Definition capitalsShouted : json :=
  JObj [field "question" (jstr "CAPITAL OF FRANCE?");
        field "options" (JArr [jstr "LONDON"; jstr "PARIS"; jstr "BERLIN"]);
        field "correct_answer" (jstr "PARIS")].

(** A question object one of whose options is a number. *)
Definition numericOption : json :=
  JObj [field "question" (jstr "Pick one");
        field "options" (JArr [jstr "a"; JNum 1])].

(** A question object whose [correct_answer] is a number. *)
Definition numericAnswer : json :=
  JObj [field "question" (jstr "Pick one");
        field "options" (JArr [jstr "a"; jstr "b"]);
        field "correct_answer" (JNum 2)].

(** A question object followed by [null]. *)
Definition goodThenNull : json :=
  JArr [JObj [field "question" (jstr "First?");
              field "options" (JArr [jstr "a"; jstr "b"])];
        JNull].

(** A question object among elements that fail the shape check and are
    not [null]. *)
Definition goodAmongOthers : json :=
  JArr [JNum 5; jstr "text"; JBool true; JArr [];
        JObj [field "question" (jstr "First?");
              field "options" (JArr [jstr "a"; jstr "b"])];
        JObj [field "options" (JArr [jstr "a"])]].

(** A host for the examples: its [JSON.parse] decodes two texts, to
    [capitals] and to [explained], and rejects any other. *)
Definition tableHost : Host :=
  {| jsonParse := fun text =>
       if jstring_eqb text (js "<capitals>") then Some capitals
       else if jstring_eqb text (js "<explained>") then Some explained
       else None;
     errorMessage := fun _ => js "TypeError" |}.

(** A JSON file of the given name and text. *)
Definition jsonFile (fileName text : string) : file :=
  {| name := js fileName; type := js "application/json";
     size := Z.of_nat (List.length (js text));
     fileContent := Some (js text) |}.

(* ================================================================== *)
(** ** Lemmas on the primitives *)

Lemma findIndex_from_range (A : Type) (p : A -> bool) (l : list A) (i : Z) :
  findIndex_from p i l = (-1)%Z \/
  (i <= findIndex_from p i l < i + Z.of_nat (List.length l))%Z.
Proof.
  revert i; induction l as [|x t IH]; intros i; simpl.
  - now left.
  - destruct (p x).
    + right; lia.
    + destruct (IH (i + 1)%Z) as [H|H]; [now left | right; lia].
Qed.

Lemma findIndex_range (A : Type) (p : A -> bool) (l : list A) :
  findIndex p l = (-1)%Z \/
  (0 <= findIndex p l < Z.of_nat (List.length l))%Z.
Proof. exact (findIndex_from_range A p l 0). Qed.

Lemma trimStart_incl (s : jstring) (x : char) : In x (trimStart s) -> In x s.
Proof.
  induction s as [|c t IH]; simpl; [tauto|].
  destruct (CharClass.space c); simpl; tauto.
Qed.

Lemma trim_incl (s : jstring) (x : char) : In x (trim s) -> In x s.
Proof.
  unfold trim, trimEnd. intros H.
  apply trimStart_incl, in_rev, trimStart_incl, in_rev. exact H.
Qed.

Lemma trim_nonempty (s : jstring) : nonempty (trim s) = true -> nonempty s = true.
Proof.
  destruct s as [|c t]; [|reflexivity].
  vm_compute. trivial.
Qed.

Lemma has_In (c : char) (s : jstring) : has c s = true <-> In c s.
Proof.
  unfold has. rewrite existsb_exists. split.
  - intros [x [Hx E]]. apply N.eqb_eq in E. now subst.
  - intros H. exists c. split; [exact H | apply N.eqb_refl].
Qed.

Lemma strip_has (c : char) (s : jstring) : has c (strip c s) = false.
Proof.
  destruct (has c (strip c s)) eqn:E; [|reflexivity].
  apply has_In in E. unfold strip in E. apply filter_In in E.
  destruct E as [_ E]. rewrite N.eqb_refl in E. discriminate.
Qed.

(** A stored option bears no glyph. *)
Lemma cleanOption_unmarked (o : jstring) : has GLYPH (cleanOption o) = false.
Proof.
  destruct (has GLYPH (cleanOption o)) eqn:E; [|reflexivity].
  apply has_In, trim_incl, has_In in E.
  now rewrite strip_has in E.
Qed.

(** [findIndex] either finds nothing that satisfies [p], or returns the
    first position that does. *)
Lemma findIndex_from_spec (A : Type) (p : A -> bool) (l : list A) (i : Z) :
  (findIndex_from p i l = (-1)%Z /\ forall x, In x l -> p x = false) \/
  (exists k x,
     findIndex_from p i l = (i + Z.of_nat k)%Z /\
     nth_error l k = Some x /\ p x = true /\
     forall j y, (j < k)%nat -> nth_error l j = Some y -> p y = false).
Proof.
  revert i; induction l as [|a t IH]; intros i; simpl.
  - left. split; [reflexivity | intros x []].
  - destruct (p a) eqn:Pa.
    + right. exists 0%nat, a. repeat split; [lia | exact Pa |].
      intros j y Hj. lia.
    + destruct (IH (i + 1)%Z) as [[E N]|(k & x & E & Hk & Px & F)].
      * left. split; [exact E|]. intros x [<-|Hx]; auto.
      * right. exists (S k), x. repeat split; [lia | exact Hk | exact Px |].
        intros [|j] y Hj Hy; simpl in Hy.
        -- now injection Hy as <-.
        -- apply (F j y); [lia | exact Hy].
Qed.

(* ================================================================== *)
(** ** The JSON extractor: what a converted item is *)

Section JsonFacts.
Context {caseTable : CaseTable}.

Lemma existsb_marked_strings (strs : list jstring) :
  existsb marked (map JStr strs) = existsb (has GLYPH) strs.
Proof. induction strs as [|s t IH]; simpl; [reflexivity | now rewrite IH]. Qed.

Lemma scanOptions_spec (opts : list json) :
  forall (i : nat) (ca : Z) (clean : list jstring) (ca' : Z) (clean' : list jstring),
  scanOptions (indexed_from i opts) ca clean = Ok (ca', clean') ->
  exists strs,
    opts = map JStr strs /\
    clean' = clean ++ map cleanOption strs /\
    ((existsb marked opts = false /\ ca' = ca) \/
     (exists k, lastMarkedAt strs k /\ ca' = Z.of_nat (i + k))).
Proof.
  induction opts as [|o t IH]; intros i ca clean ca' clean' H; simpl in H.
  - injection H as <- <-. exists []. simpl. rewrite app_nil_r. auto.
  - destruct o as [| | |s| |]; try discriminate.
    apply IH in H. destruct H as (strs & -> & -> & Hca).
    exists (s :: strs). simpl. rewrite <- app_assoc. simpl.
    repeat split.
    destruct Hca as [[Hnone ->]|(k & [(s' & Hk & Hs') Hlast] & ->)].
    + destruct (has GLYPH s) eqn:Hs.
      * right. exists 0%nat. split; [|f_equal; lia].
        split; [exists s; auto|].
        intros j s' Hj Hnth. destruct j as [|j]; [lia|]. simpl in Hnth.
        rewrite existsb_marked_strings in Hnone.
        destruct (has GLYPH s') eqn:E; [|reflexivity].
        assert (existsb (has GLYPH) strs = true) as C.
        { apply existsb_exists. exists s'. split; [|exact E].
          eapply nth_error_In; eauto. }
        congruence.
      * left. split; [exact Hnone | reflexivity].
    + right. exists (S k). split; [|f_equal; lia].
      split; [exists s'; auto|].
      intros j s'' Hj Hnth. destruct j as [|j]; [lia|].
      apply (Hlast j s''); [lia | exact Hnth].
Qed.

Lemma lastMarkedAt_marked (strs : list jstring) (k : nat) :
  lastMarkedAt strs k -> existsb marked (map JStr strs) = true.
Proof.
  intros [(s & Hk & Hs) _]. rewrite existsb_marked_strings.
  apply existsb_exists. exists s. split; [eapply nth_error_In; eauto | exact Hs].
Qed.

Lemma resolve_text (strs : list jstring) (answer : option json) (ca ca' : Z) :
  (existsb (has GLYPH) strs = false /\ ca = 0%Z \/
   exists k, lastMarkedAt strs k /\ ca = Z.of_nat k) ->
  (if negb (existsb (has GLYPH) strs) && truthy answer
   then match answer with
        | Some (JStr a) =>
            Ok (if (findIndex (matchesAnswer (trim (toLowerCase a)))
                      (map cleanOption strs) =? -1)%Z
                then ca
                else findIndex (matchesAnswer (trim (toLowerCase a)))
                       (map cleanOption strs))
        | _ => Throw TypeError
        end
   else Ok ca) = Ok ca' ->
  resolved strs answer ca'.
Proof.
  intros Hca E. destruct Hca as [[Hnone ->]|(k & Hlast & ->)].
  - rewrite Hnone in E. simpl in E.
    destruct (truthy answer) eqn:Ta.
    + destruct answer as [[| | |a| |]|]; try discriminate.
      assert (a <> []) as Ha by (destruct a; [discriminate | congruence]).
      unfold findIndex in E.
      destruct (findIndex_from_spec _ (matchesAnswer (trim (toLowerCase a)))
                  (map cleanOption strs) 0) as [[Hn Hall]|(k & x & Hk & Hx & Px & F)].
      * rewrite Hn in E. simpl in E. injection E as <-.
        apply ByDefault; auto. right. exists a. auto.
      * rewrite Hk in E.
        replace (0 + Z.of_nat k =? -1)%Z with false in E by (symmetry; apply Z.eqb_neq; lia).
        injection E as <-.
        apply ByText with (a := a) (k := k).
        -- exact Hnone.
        -- reflexivity.
        -- exact Ha.
        -- split; [exists x; auto | exact F].
        -- lia.
    + injection E as <-. apply ByDefault; auto.
  - pose proof (lastMarkedAt_marked _ _ Hlast) as M.
    rewrite existsb_marked_strings in M. rewrite M in E. simpl in E.
    injection E as <-. now apply ByGlyph with (k := k).
Qed.

Lemma parseJSONQuestion_inv (item : json) (index : nat) (q : MCQQuestion) :
  parseJSONQuestion item index = Ok (Some q) ->
  exists fields qv strs,
    item = JObj fields /\
    lookup (js "question") fields = Some qv /\ truthy (Some qv) = true /\
    lookup (js "options") fields = Some (JArr (map JStr strs)) /\
    id q = questionId (Z.of_nat index) /\
    question q = qv /\
    options q = map cleanOption strs /\
    resolved strs (lookup (js "correct_answer") fields) (correctAnswer q) /\
    explanation q =
      (if truthy (lookup (js "reasoning") fields)
       then lookup (js "reasoning") fields
       else if truthy (lookup (js "explanation") fields)
            then lookup (js "explanation") fields else None) /\
    additionalSections q =
      (if 0 <? List.length (sectionsOfItem item)
       then Some (sectionsOfItem item) else None).
Proof.
  unfold parseJSONQuestion.
  destruct item as [| | | | |fields]; cbn [get bind truthy negb];
    try discriminate.
  destruct (lookup (js "question") fields) as [qv|] eqn:Hq;
    [|cbn [truthy negb]; discriminate].
  destruct (truthy (Some qv)) eqn:Tq; cbn [negb]; [|discriminate].
  destruct (lookup (js "options") fields) as [ov|] eqn:Ho;
    [|cbn [truthy negb orb]; discriminate].
  destruct (truthy (Some ov)) eqn:To; cbn [negb orb]; [|discriminate].
  destruct ov as [| | | |opts|]; cbn [isArray negb]; try discriminate.
  cbn [elements]. unfold indexed.
  destruct (scanOptions (indexed_from 0 opts) 0 []) as [[ca clean]|e] eqn:Hscan;
    cbn [bind]; [|discriminate].
  apply scanOptions_spec in Hscan.
  destruct Hscan as (strs & Eopts & Eclean & Hca). subst opts clean.
  cbn [app]. rewrite existsb_marked_strings in *.
  match goal with
  | |- bind ?c _ = _ -> _ =>
      destruct c as [ca'|e] eqn:Hres; cbn [bind]; [|discriminate]
  end.
  apply resolve_text in Hres.
  - intros H. injection H as <-. cbn.
    exists fields, qv, strs. repeat split; auto.
  - destruct Hca as [[Hn ->]|(k & Hk & ->)]; [left; auto | right; exists k; auto].
Qed.

Lemma parseItems_In (items : list (nat * json)) :
  forall (acc qs : list MCQQuestion) (q : MCQQuestion),
  parseItems items acc = Ok qs -> In q qs ->
  In q acc \/
  exists index item, In (index, item) items
                     /\ parseJSONQuestion item index = Ok (Some q).
Proof.
  induction items as [|[index item] t IH]; intros acc qs q H Hin; cbn [parseItems] in H.
  - injection H as <-. now left.
  - destruct (parseJSONQuestion item index) as [r|e] eqn:E; cbn [bind] in H;
      [|discriminate].
    destruct (IH _ _ _ H Hin) as [Hacc|(i & it & Hi & Hq)].
    + destruct r as [q'|]; [|now left].
      apply in_app_or in Hacc. destruct Hacc as [Hacc|[<-|[]]]; [now left|].
      right. exists index, item. split; [now left | exact E].
    + right. exists i, it. split; [now right | exact Hq].
Qed.

(** Every question [parseJSONFormat] returns is the conversion of some
    item. *)
Lemma parseJSONFormat_In (data : json) (qs : list MCQQuestion) (q : MCQQuestion) :
  parseJSONFormat data = Ok qs -> In q qs ->
  exists item index, parseJSONQuestion item index = Ok (Some q).
Proof.
  unfold parseJSONFormat. intros H Hin.
  destruct (get data "question") as [qv|e]; cbn [bind] in H; [|discriminate].
  match type of H with
  | bind ?c _ = _ => destruct c as [single|e]; cbn [bind] in H; [|discriminate]
  end.
  destruct single.
  - destruct (parseJSONQuestion data 0) as [r|e] eqn:E; cbn [bind] in H;
      [|discriminate].
    injection H as <-. destruct r as [q'|]; [|destruct Hin].
    destruct Hin as [<-|[]]. now exists data, 0%nat.
  - destruct (isArray (Some data)).
    + destruct (parseItems_In _ _ _ _ H Hin) as [[]|(i & it & _ & Hq)].
      now exists it, i.
    + destruct (get data "questions") as [qsv|e]; cbn [bind] in H; [|discriminate].
      destruct (truthy qsv && isArray qsv).
      * destruct (parseItems_In _ _ _ _ H Hin) as [[]|(i & it & _ & Hq)].
        now exists it, i.
      * injection H as <-. destruct Hin.
Qed.

Lemma scanOptions_total (opts : list json) :
  forall (i : nat) (ca : Z) (clean : list jstring),
  forallb isString opts = true ->
  exists r, scanOptions (indexed_from i opts) ca clean = Ok r.
Proof.
  induction opts as [|o t IH]; intros i ca clean H; cbn in *.
  - eauto.
  - apply andb_prop in H. destruct H as [Ho Ht].
    destruct o; try discriminate. apply IH. exact Ht.
Qed.

(** A safe item is converted when it passes the shape check and skipped
    when it does not; it never throws. *)
Lemma parseJSONQuestion_safe (item : json) (index : nat) :
  itemSafe item = true ->
  if shapeOk item
  then exists q, parseJSONQuestion item index = Ok (Some q)
  else parseJSONQuestion item index = Ok None.
Proof.
  unfold parseJSONQuestion.
  destruct item as [| | | | |fields]; cbn [itemSafe shapeOk get bind truthy negb];
    try discriminate; try reflexivity.
  destruct (lookup (js "question") fields) as [qv|] eqn:Hq;
    [|cbn [truthy negb andb]; reflexivity].
  destruct (truthy (Some qv)) eqn:Tq; cbn [negb andb]; [|reflexivity].
  destruct (lookup (js "options") fields) as [ov|] eqn:Ho;
    [|cbn [truthy negb orb andb]; reflexivity].
  destruct (truthy (Some ov)) eqn:To; cbn [negb orb andb]; [|reflexivity].
  destruct ov as [| | | |opts|]; cbn [isArray negb]; try reflexivity.
  cbn [elements]. intros Hsafe. apply andb_prop in Hsafe. destruct Hsafe as [Hstr Hans].
  destruct (scanOptions_total opts 0%nat 0%Z [] Hstr) as [[ca clean] Hscan].
  unfold indexed. rewrite Hscan. cbn [bind].
  destruct (existsb marked opts) eqn:Hm; cbn [negb andb orb] in *.
  - cbn [bind]. eauto.
  - destruct (truthy (lookup (js "correct_answer") fields)) eqn:Ta;
      cbn [negb orb] in Hans.
    + destruct (lookup (js "correct_answer") fields) as [[| | |a| |]|];
        try discriminate. cbn [bind]. eauto.
    + cbn [bind]. eauto.
Qed.

(** A batch of safe items yields the conversions of those that pass the
    shape check, in their order. *)
Lemma parseItems_safe (items : list json) :
  forall (i : nat) (acc : list MCQQuestion),
  forallb itemSafe items = true ->
  exists qs,
    parseItems (indexed_from i items) acc = Ok (acc ++ qs) /\
    Forall2 (fun p q => parseJSONQuestion (snd p) (fst p) = Ok (Some q))
      (filter (fun p => shapeOk (snd p)) (indexed_from i items)) qs.
Proof.
  induction items as [|item t IH]; intros i acc H; cbn [indexed_from parseItems filter].
  - exists []. rewrite app_nil_r. split; [reflexivity | constructor].
  - cbn [forallb] in H. apply andb_prop in H. destruct H as [Hitem Ht].
    pose proof (parseJSONQuestion_safe item i Hitem) as Hq.
    cbn [snd]. destruct (shapeOk item).
    + destruct Hq as [q Hq]. rewrite Hq. cbn [bind].
      destruct (IH (S i) (acc ++ [q]) Ht) as (qs & E & F).
      exists (q :: qs). rewrite E, <- app_assoc. split; [reflexivity|].
      constructor; [exact Hq | exact F].
    + rewrite Hq. cbn [bind]. apply IH. exact Ht.
Qed.

End JsonFacts.

(** Case analysis on every test a loop body makes. *)
Ltac break_block :=
  repeat match goal with
         | |- context [if ?c then _ else _] => destruct c eqn:?
         | |- context [match ?c with _ => _ end] => destruct c eqn:?
         end.

(* ================================================================== *)
(** ** The structured-header parser: the invariant of the block loop *)

Section StructuredFacts.
Context {caseTable : CaseTable}.

Lemma flushSection_options (b : block) : bOptions (flushSection b) = bOptions b.
Proof. unfold flushSection. now destruct (_ && _). Qed.

Lemma flushSection_correctAnswer (b : block) :
  bCorrectAnswer (flushSection b) = bCorrectAnswer b.
Proof. unfold flushSection. now destruct (_ && _). Qed.

Lemma flushSection_inv (b : block) : blockInv b -> blockInv (flushSection b).
Proof.
  unfold blockInv.
  now rewrite flushSection_options, flushSection_correctAnswer.
Qed.

Lemma resolveAnswer_options (t : jstring) (b : block) :
  bOptions (resolveAnswer t b) = bOptions b.
Proof. unfold resolveAnswer. now destruct (_ =? _)%Z. Qed.

Lemma resolveAnswer_inv (t : jstring) (b : block) :
  blockInv b -> blockInv (resolveAnswer t b).
Proof.
  unfold resolveAnswer, blockInv.
  match goal with |- context [findIndex ?p ?l] =>
    destruct (findIndex_range _ p l) as [E|R]; [rewrite E; auto|]
  end.
  destruct (_ =? _)%Z; [auto|]. cbn. lia.
Qed.

Lemma blockLine_inv (b : block) (line : jstring) :
  blockInv b -> blockInv (blockLine b line).
Proof.
  intros I. unfold blockLine. break_block;
    try apply resolveAnswer_inv; try apply flushSection_inv;
    try exact I;
    unfold blockInv in *; cbn;
    rewrite ?flushSection_options, ?flushSection_correctAnswer;
    try exact I.
  all: rewrite length_app; cbn; lia.
Qed.

Lemma fold_blockLine_inv (lines : list jstring) (b : block) :
  blockInv b -> blockInv (fold_left blockLine lines b).
Proof.
  revert b; induction lines as [|l t IH]; intros b I; cbn; [exact I|].
  apply IH, blockLine_inv, I.
Qed.

Lemma scanBlock_inv (blk : jstring) : blockInv (scanBlock blk).
Proof.
  apply flushSection_inv, fold_blockLine_inv.
  unfold blockInv. cbn. lia.
Qed.

(** What a block's question is made of. *)
Lemma parseBlock_inv (blk : jstring) (index : nat) (q : MCQQuestion) :
  parseBlock blk index = Some q ->
  id q = questionId (Z.of_nat index) /\
  options q = bOptions (scanBlock blk) /\
  options q <> [] /\
  correctAnswer q = bCorrectAnswer (scanBlock blk) /\
  additionalSections q =
    (if 0 <? List.length (bAdditionalSections (scanBlock blk))
     then Some (bAdditionalSections (scanBlock blk)) else None).
Proof.
  unfold parseBlock.
  destruct (negb _); [discriminate|].
  destruct (nonempty _); [|discriminate]. cbn [andb].
  destruct (0 <? _) eqn:L; [|discriminate].
  intros H. injection H as <-. cbn. repeat split.
  intros E. rewrite E in L. discriminate.
Qed.

Lemma parseStructuredFormat_In (text : jstring) (q : MCQQuestion) :
  In q (parseStructuredFormat text) ->
  exists blk index, parseBlock blk index = Some q.
Proof.
  unfold parseStructuredFormat. intros H.
  apply in_flat_map in H. destruct H as ([index blk] & _ & H).
  exists blk, index.
  destruct (parseBlock blk index) as [q'|]; [|destruct H].
  destruct H as [<-|[]]. reflexivity.
Qed.

Lemma structured_valid (text : jstring) (q : MCQQuestion) :
  In q (parseStructuredFormat text) -> validQuestion q.
Proof.
  intros H. apply parseStructuredFormat_In in H. destruct H as (blk & index & H).
  apply parseBlock_inv in H. destruct H as (_ & Ho & Hne & Hc & _).
  pose proof (scanBlock_inv blk) as [I0 I1].
  unfold validQuestion. rewrite Hc, Ho in *. split; [exact Hne|].
  destruct I1 as [E|L]; [|lia].
  rewrite E. destruct (bOptions (scanBlock blk)); [congruence | cbn; lia].
Qed.

End StructuredFacts.

(* ================================================================== *)
(** ** The line-pattern parser: what the loop maintains *)

Section LineFacts.
Context {caseTable : CaseTable}.

Lemma matchAt_anyLetterAD (x : char) (t : jstring) :
  matchAt Pattern.anyLetterAD (x :: t)
  = if CharClass.letterAD x
    then Some {| rest := t; group1 := Some [x] |} else None.
Proof.
  unfold matchAt, Pattern.anyLetterAD. cbn [matcher].
  destruct (CharClass.letterAD x); [|reflexivity].
  replace (List.length (x :: t) - List.length t)%nat with 1%nat
    by (cbn [List.length]; lia).
  reflexivity.
Qed.

Lemma exec_anyLetterAD (line : jstring) (m : rmatch) :
  exec Pattern.anyLetterAD line = Some m ->
  exists c, group1 m = Some [c] /\ CharClass.letterAD c = true.
Proof.
  induction line as [|x t IH]; cbn [exec].
  - cbn. discriminate.
  - rewrite matchAt_anyLetterAD.
    destruct (CharClass.letterAD x) eqn:E; [|exact IH].
    intros H. injection H as <-. exists x. auto.
Qed.

Lemma letterAD_position (c : char) :
  CharClass.letterAD c = true ->
  (0 <= Z.of_N (CharClass.to_upper c) - 65 <= 3)%Z.
Proof.
  unfold CharClass.letterAD, CharClass.to_upper, CharClass.lower_letter,
    CharClass.between.
  intros H. apply orb_prop in H.
  destruct H as [H|H]; apply andb_prop in H; destruct H as [L U];
    apply N.leb_le in L; apply N.leb_le in U.
  - replace ((97 <=? c)%N) with false by (symmetry; apply N.leb_gt; lia).
    cbn. lia.
  - replace ((97 <=? c)%N) with true by (symmetry; apply N.leb_le; lia).
    replace ((c <=? 122)%N) with true by (symmetry; apply N.leb_le; lia).
    cbn. lia.
Qed.

Lemma lit_ci_cases (a : ascii) (c : char) :
  CharClass.lit true a c = true ->
  CharClass.to_upper c = CharClass.to_upper (N_of_ascii a).
Proof. unfold CharClass.lit. apply N.eqb_eq. Qed.

Lemma answerLine_head (line : jstring) :
  testAt Pattern.answerLine line = true ->
  exists c c2 t,
    line = c :: c2 :: t /\
    ((CharClass.to_upper c = 65%N /\ CharClass.to_upper c2 = 78%N)
     \/ (CharClass.to_upper c = 67%N /\ CharClass.to_upper c2 = 79%N)).
Proof.
  destruct line as [|c [|c2 t]].
  - discriminate.
  - unfold testAt, matchAt, Pattern.answerLine. cbn [Seq Lit matcher].
    destruct (CharClass.lit true "A" c), (CharClass.lit true "C" c);
      cbn; discriminate.
  - intros H. exists c, c2, t. split; [reflexivity|].
    unfold testAt, matchAt, Pattern.answerLine in H. cbn [Seq Lit matcher] in H.
    destruct (CharClass.lit true "A" c) eqn:A;
      destruct (CharClass.lit true "n" c2) eqn:N;
      try (left; split; [exact (lit_ci_cases _ _ A) | exact (lit_ci_cases _ _ N)]);
      destruct (CharClass.lit true "C" c) eqn:C;
      destruct (CharClass.lit true "o" c2) eqn:O;
      try (right; split; [exact (lit_ci_cases _ _ C) | exact (lit_ci_cases _ _ O)]);
      cbv beta iota delta [orElse] in H; discriminate.
Qed.

Lemma to_upper_inv (c n : char) :
  CharClass.to_upper c = n -> c = n \/ c = (n + 32)%N.
Proof.
  unfold CharClass.to_upper, CharClass.lower_letter, CharClass.between.
  destruct ((97 <=? c)%N && (c <=? 122)%N) eqn:E; [|now left].
  apply andb_prop in E. destruct E as [L _]. apply N.leb_le in L.
  intros <-. right. lia.
Qed.

(** A line the answer branch takes opens with the [A] or the [C] of its
    label, which is the first of its letters A to D; no earlier branch of
    the loop takes it. *)
Lemma answerLine_first_letter (line : jstring) :
  testAt Pattern.answerLine line = true ->
  testAt Pattern.numbered line = false /\
  testAt Pattern.qPrefixed line = false /\
  testAt Pattern.optionPrefix line = false /\
  exists c t,
    line = c :: t /\
    exec Pattern.anyLetterAD line = Some {| rest := t; group1 := Some [c] |} /\
    (Z.of_N (CharClass.to_upper c) - 65 = 0 \/ Z.of_N (CharClass.to_upper c) - 65 = 2)%Z.
Proof.
  intros H. apply answerLine_head in H.
  destruct H as (c & c2 & t & -> & H).
  assert ((c = 65 \/ c = 97 \/ c = 67 \/ c = 99)%N
          /\ (c2 = 78 \/ c2 = 110 \/ c2 = 79 \/ c2 = 111)%N) as [Hc Hc2].
  { destruct H as [[A B]|[A B]]; apply to_upper_inv in A; apply to_upper_inv in B;
      cbn in A, B; tauto. }
  assert (CharClass.letterAD c = true /\ CharClass.digit c = false
          /\ CharClass.lit true "Q" c = false
          /\ (Z.of_N (CharClass.to_upper c) - 65 = 0
              \/ Z.of_N (CharClass.to_upper c) - 65 = 2)%Z) as (L & D & Q & P).
  { destruct Hc as [-> | [-> | [-> | ->]]]; cbn; auto. }
  assert ((fun c => CharClass.one 46%N c || CharClass.one 41%N c) c2 = false) as P2.
  { destruct Hc2 as [-> | [-> | [-> | ->]]]; reflexivity. }
  repeat split.
  - unfold testAt, matchAt, Pattern.numbered. cbn [Seq Plus matcher]. now rewrite D.
  - unfold testAt, matchAt, Pattern.qPrefixed. cbn [Seq Lit matcher]. now rewrite Q.
  - unfold testAt, matchAt, Pattern.optionPrefix. cbn [Seq matcher].
    rewrite L. cbv beta in P2. now rewrite P2.
  - exists c, (c2 :: t). repeat split; [|exact P].
    cbn [exec]. unfold matchAt, Pattern.anyLetterAD. cbn [matcher]. rewrite L.
    replace (List.length (c :: c2 :: t) - List.length (c2 :: t))%nat with 1%nat
      by (cbn [List.length]; lia).
    reflexivity.
Qed.

Lemma completed_inv (p : partialQuestion) (counter : Z) (q : MCQQuestion) :
  completed p counter = Some q ->
  id q = questionId counter /\
  options q = optionsOrEmpty p /\
  correctAnswer q = match pCorrectAnswer p with Some n => n | None => 0%Z end.
Proof.
  unfold completed, optionsOrEmpty.
  destruct (pQuestion p) as [t|]; [|discriminate].
  destruct (pOptions p) as [opts|]; [|discriminate].
  destruct (nonempty t); [|discriminate].
  intros H. injection H as <-. cbn. auto.
Qed.

Lemma completed_letterOrPosition (p : partialQuestion) (counter : Z) (q : MCQQuestion) :
  partialInv p -> completed p counter = Some q ->
  letterOrPosition (correctAnswer q) (options q).
Proof.
  intros I H. apply completed_inv in H. destruct H as (_ & -> & ->).
  destruct (pCorrectAnswer p) as [n|] eqn:E; [now apply I|].
  unfold letterOrPosition. lia.
Qed.

Lemma textLine_inv (st : lineState) (line : jstring) :
  lineInv st -> lineInv (textLine st line).
Proof.
  intros [Ip Iq]. unfold textLine.
  destruct (_ || _).
  - assert (partialInv
              {| pQuestion := Some (trim (removeAt Pattern.questionPrefix line));
                 pOptions := Some []; pCorrectAnswer := Some 0%Z;
                 pExplanation := None |}) as Is.
    { intros n H. cbn in H. injection H as <-. unfold letterOrPosition. lia. }
    destruct (completed _ _) as [q|] eqn:C; split; cbn; auto.
    apply Forall_app. split; [exact Iq|]. constructor; [|constructor].
    exact (completed_letterOrPosition _ _ _ Ip C).
  - destruct (testAt Pattern.optionPrefix line).
    + split; [|exact Iq]. cbn. intros n. unfold optionsOrEmpty at 1. cbn.
      destruct (_ || _).
      * intros H. injection H as <-. unfold letterOrPosition.
        rewrite length_app. cbn. lia.
      * intros H. apply Ip in H. destruct H as [H0 H1].
        unfold letterOrPosition. rewrite length_app. cbn. lia.
    + destruct (testAt Pattern.answerLine line).
      * destruct (exec Pattern.anyLetterAD line) as [m|] eqn:E; [|now split].
        apply exec_anyLetterAD in E. destruct E as (c & G & L).
        destruct m as [r g]. cbn in G. subst g.
        split; [|exact Iq]. cbn. intros n H. injection H as <-.
        pose proof (letterAD_position c L). unfold letterOrPosition. lia.
      * destruct (testAt Pattern.explanationLine line); [|now split].
        split; [|exact Iq]. exact Ip.
Qed.

Lemma fold_textLine_inv (lines : list jstring) (st : lineState) :
  lineInv st -> lineInv (fold_left textLine lines st).
Proof.
  revert st; induction lines as [|l t IH]; intros st I; cbn; [exact I|].
  apply IH, textLine_inv, I.
Qed.

Lemma linePattern_letterOrPosition (now : Z) (text : jstring) (q : MCQQuestion) :
  In q (parseLinePattern now text) ->
  letterOrPosition (correctAnswer q) (options q).
Proof.
  unfold parseLinePattern.
  match goal with |- context [fold_left textLine ?l ?s] =>
    pose proof (fold_textLine_inv l s) as I; set (st := fold_left textLine l s) in *
  end.
  destruct I as [Ip Iq].
  { split; [intros n H; discriminate | constructor]. }
  rewrite Forall_forall in Iq.
  destruct (completed _ _) as [q'|] eqn:C; intros H; [|now apply Iq].
  apply in_app_or in H. destruct H as [H|[<-|[]]]; [now apply Iq|].
  eapply completed_letterOrPosition; eauto.
Qed.

Lemma completed_counter (p : partialQuestion) (c1 c2 : Z) :
  option_map withoutId (completed p c1) = option_map withoutId (completed p c2).
Proof.
  unfold completed.
  destruct (pQuestion p); [|reflexivity].
  destruct (pOptions p); [|reflexivity].
  destruct (nonempty _); reflexivity.
Qed.

Lemma textLine_counter (s1 s2 : lineState) (line : jstring) :
  sameButCounter s1 s2 -> sameButCounter (textLine s1 line) (textLine s2 line).
Proof.
  intros [Ec Eq]. unfold textLine. rewrite <- Ec.
  destruct (_ || _).
  - pose proof (completed_counter (currentQuestion s1)
                  (questionCounter s1) (questionCounter s2)) as C.
    destruct (completed _ (questionCounter s1)) as [q1|];
      destruct (completed _ (questionCounter s2)) as [q2|];
      cbn in C; try discriminate; split; cbn; auto.
    rewrite !map_app, Eq. cbn [map].
    assert (withoutId q1 = withoutId q2) as -> by congruence. reflexivity.
  - destruct (testAt Pattern.optionPrefix line); [now split|].
    destruct (testAt Pattern.answerLine line).
    + destruct (exec Pattern.anyLetterAD line) as [[r [[|c g]|]]|];
        now split.
    + destruct (testAt Pattern.explanationLine line); now split.
Qed.

Lemma fold_textLine_counter (lines : list jstring) (s1 s2 : lineState) :
  sameButCounter s1 s2 ->
  sameButCounter (fold_left textLine lines s1) (fold_left textLine lines s2).
Proof.
  revert s1 s2; induction lines as [|l t IH]; intros s1 s2 H; cbn; [exact H|].
  apply IH, textLine_counter, H.
Qed.

(** The clock reading reaches the ids only. *)
Lemma linePattern_clock (now1 now2 : Z) (text : jstring) :
  map withoutId (parseLinePattern now1 text)
  = map withoutId (parseLinePattern now2 text).
Proof.
  unfold parseLinePattern.
  match goal with
  | |- context [fold_left textLine ?l ?s1] =>
      match goal with
      | |- _ = map _ (match completed (currentQuestion (fold_left _ _ ?s2)) _ with _ => _ end) =>
          pose proof (fold_textLine_counter l s1 s2) as H;
          set (st1 := fold_left textLine l s1) in *;
          set (st2 := fold_left textLine l s2) in *
      end
  end.
  destruct H as [Ec Eq]; [now split|].
  rewrite <- Ec.
  pose proof (completed_counter (currentQuestion st1)
                (questionCounter st1) (questionCounter st2)) as C.
  destruct (completed _ (questionCounter st1)) as [q1|];
    destruct (completed _ (questionCounter st2)) as [q2|];
    cbn in C; try discriminate; auto.
  rewrite !map_app, Eq. cbn [map].
  assert (withoutId q1 = withoutId q2) as -> by congruence. reflexivity.
Qed.

End LineFacts.

(* ================================================================== *)
(** ** Case folding: what the match of the extractor does not tell apart *)

Lemma upper_letter_range (c : char) :
  CharClass.upper_letter c = true -> (65 <= c <= 90)%N.
Proof.
  unfold CharClass.upper_letter, CharClass.between. intros H.
  apply andb_prop in H. destruct H as [L H].
  apply N.leb_le in L. apply N.leb_le in H. lia.
Qed.

Lemma letter_not_space (c : char) : (65 <= c <= 122)%N -> CharClass.space c = false.
Proof.
  intros R. unfold CharClass.space, CharClass.between.
  repeat (apply orb_false_intro);
    try (apply N.eqb_neq; lia);
    apply andb_false_iff;
    first [left; apply N.leb_gt; lia | right; apply N.leb_gt; lia].
Qed.

Lemma to_lower_upper (c : char) :
  CharClass.upper_letter c = true ->
  CharClass.to_lower c = (c + 32)%N /\ CharClass.to_lower (c + 32)%N = (c + 32)%N.
Proof.
  intros U. pose proof (upper_letter_range c U) as R.
  unfold CharClass.to_lower. rewrite U. split; [reflexivity|].
  assert (CharClass.upper_letter (c + 32)%N = false) as ->; [|reflexivity].
  unfold CharClass.upper_letter, CharClass.between.
  apply andb_false_iff. right. apply N.leb_gt. lia.
Qed.

Lemma caseVariant_to_lower (c c' : char) :
  caseVariant c c' -> CharClass.to_lower c = CharClass.to_lower c'.
Proof.
  intros [<-|[[U ->]|[U ->]]]; [reflexivity| |];
    destruct (to_lower_upper _ U) as [A B]; congruence.
Qed.

Lemma caseVariant_space (c c' : char) :
  caseVariant c c' -> CharClass.space c = CharClass.space c'.
Proof.
  intros [<-|[[U ->]|[U ->]]]; [reflexivity| |];
    pose proof (upper_letter_range _ U);
    rewrite !letter_not_space by lia; reflexivity.
Qed.

Lemma caseVariant_glyph (c c' : char) :
  caseVariant c c' -> (GLYPH =? c)%N = (GLYPH =? c')%N.
Proof.
  intros [<-|[[U ->]|[U ->]]]; [reflexivity| |];
    pose proof (upper_letter_range _ U); unfold GLYPH;
    match goal with
    | |- (?a =? ?b)%N = (?x =? ?y)%N =>
        destruct (N.eqb_spec a b); destruct (N.eqb_spec x y); try reflexivity; lia
    end.
Qed.

Lemma caseVariant_ascii (c c' : char) :
  caseVariant c c' -> (c <? 128)%N = true -> (c' <? 128)%N = true.
Proof.
  intros [<-|[[U ->]|[U ->]]] H; [exact H| |];
    pose proof (upper_letter_range _ U); apply N.ltb_lt; lia.
Qed.

Lemma sameButCase_fold (s s' : jstring) :
  sameButCase s s' -> map CharClass.to_lower s = map CharClass.to_lower s'.
Proof.
  induction 1 as [|c c' s s' Hc _ IH]; [reflexivity|].
  cbn [map]. now rewrite (caseVariant_to_lower _ _ Hc), IH.
Qed.

Lemma sameButCase_ascii (s s' : jstring) :
  sameButCase s s' -> asciiText s = true -> asciiText s' = true.
Proof.
  unfold asciiText.
  induction 1 as [|c c' s s' Hc _ IH]; [reflexivity|].
  cbn [forallb]. intros H. apply andb_prop in H. destruct H as [A B].
  now rewrite (caseVariant_ascii _ _ Hc A), IH.
Qed.

Lemma sameButCase_strip (s s' : jstring) :
  sameButCase s s' -> sameButCase (strip GLYPH s) (strip GLYPH s').
Proof.
  unfold strip.
  induction 1 as [|c c' s s' Hc _ IH]; [constructor|].
  cbn [filter]. rewrite <- (caseVariant_glyph _ _ Hc).
  destruct (GLYPH =? c)%N; cbn [negb]; [exact IH | now constructor].
Qed.

Lemma sameButCase_trimStart (s s' : jstring) :
  sameButCase s s' -> sameButCase (trimStart s) (trimStart s').
Proof.
  induction 1 as [|c c' s s' Hc H IH]; [constructor|].
  cbn [trimStart]. rewrite <- (caseVariant_space _ _ Hc).
  destruct (CharClass.space c); [exact IH | now constructor].
Qed.

Lemma sameButCase_rev (s s' : jstring) :
  sameButCase s s' -> sameButCase (rev s) (rev s').
Proof.
  induction 1 as [|c c' s s' Hc _ IH]; [constructor|].
  cbn [rev]. apply Forall2_app; [exact IH | constructor; [exact Hc | constructor]].
Qed.

Lemma sameButCase_cleanOption (s s' : jstring) :
  sameButCase s s' -> sameButCase (cleanOption s) (cleanOption s').
Proof.
  intros H. unfold cleanOption, trim, trimEnd.
  apply sameButCase_rev, sameButCase_trimStart, sameButCase_rev,
    sameButCase_trimStart, sameButCase_strip, H.
Qed.

Lemma asciiText_cleanOption (s : jstring) :
  asciiText s = true -> asciiText (cleanOption s) = true.
Proof.
  unfold asciiText, cleanOption, strip. rewrite !forallb_forall.
  intros H c Hc. apply trim_incl in Hc. apply filter_In in Hc. apply H, Hc.
Qed.

Lemma asciiText_unmarked (s : jstring) : asciiText s = true -> has GLYPH s = false.
Proof.
  unfold asciiText. rewrite forallb_forall. intros H.
  destruct (has GLYPH s) eqn:E; [|reflexivity].
  apply has_In, H in E. discriminate.
Qed.

Lemma findIndex_from_pointwise (A : Type) (p p' : A -> bool) (l l' : list A) :
  Forall2 (fun o o' => p o = p' o') l l' ->
  forall i, findIndex_from p i l = findIndex_from p' i l'.
Proof.
  induction 1 as [|o o' l l' Ho _ IH]; intros i; [reflexivity|].
  cbn [findIndex_from]. rewrite Ho. destruct (p' o'); [reflexivity | apply IH].
Qed.

Section CaseInsensitive.
Context {caseTable : CaseTable}.
Hypothesis lowerCasesAscii :
  forall s, asciiText s = true -> toLowerCase s = map CharClass.to_lower s.

(** On ASCII texts the match of the extractor does not tell the cases
    apart. *)
Lemma matchesAnswer_up_to_case (a a' o o' : jstring) :
  asciiText a = true -> asciiText o = true ->
  sameButCase a a' -> sameButCase o o' ->
  matchesAnswer (trim (toLowerCase a)) o
  = matchesAnswer (trim (toLowerCase a')) o'.
Proof.
  intros Aa Ao Sa So. unfold matchesAnswer.
  rewrite (lowerCasesAscii a Aa), (lowerCasesAscii o Ao).
  rewrite (lowerCasesAscii a' (sameButCase_ascii _ _ Sa Aa)),
          (lowerCasesAscii o' (sameButCase_ascii _ _ So Ao)).
  now rewrite (sameButCase_fold _ _ Sa), (sameButCase_fold _ _ So).
Qed.

(** The position a converted item gets from its [correct_answer] text
    when no option bears the glyph. *)
Lemma parseJSONQuestion_text_answer (fields : list (jstring * json))
  (index : nat) (q : MCQQuestion) (strs : list jstring) (a : jstring) :
  parseJSONQuestion (JObj fields) index = Ok (Some q) ->
  lookup (js "options") fields = Some (JArr (map JStr strs)) ->
  existsb (has GLYPH) strs = false ->
  lookup (js "correct_answer") fields = Some (JStr a) ->
  correctAnswer q
  = if nonempty a
    then if (findIndex (matchesAnswer (trim (toLowerCase a)))
               (map cleanOption strs) =? -1)%Z
         then 0%Z
         else findIndex (matchesAnswer (trim (toLowerCase a)))
                (map cleanOption strs)
    else 0%Z.
Proof.
  intros Hq Ho Hg Ha. apply parseJSONQuestion_inv in Hq.
  destruct Hq as (fields0 & qv & strs0 & E & _ & _ & Ho0 & _ & _ & _ & Hr & _).
  injection E as <-. rewrite Ho in Ho0. injection Ho0 as Es.
  assert (strs0 = strs) as ->.
  { clear -Es. revert strs0 Es. induction strs as [|s t IH]; intros [|s0 t0] Es;
      try discriminate; [reflexivity|].
    cbn [map] in Es. injection Es as E1 E2. f_equal; auto. }
  rewrite Ha in Hr.
  destruct Hr as [k Hl _|a0 k _ Ea Hne Hk ->|_ [T|(a0 & Ea & N)] ->].
  - apply lastMarkedAt_marked in Hl. rewrite existsb_marked_strings in Hl.
    congruence.
  - injection Ea as <-. destruct a as [|c t]; [congruence|]. cbn [nonempty].
    unfold findIndex.
    destruct (findIndex_from_spec _ (matchesAnswer (trim (toLowerCase (c :: t))))
                (map cleanOption strs) 0) as [[Hn Hall]|(k' & x & Hk' & Hx & Px & F)].
    + destruct Hk as [(o & Hnth & Mo) _]. apply nth_error_In in Hnth.
      rewrite (Hall o Hnth) in Mo. discriminate.
    + rewrite Hk'.
      replace (0 + Z.of_nat k' =? -1)%Z with false
        by (symmetry; apply Z.eqb_neq; lia).
      f_equal.
      assert (k = k') as ->; [|lia].
      destruct Hk as [(o & Hnth & Mo) Fk].
      destruct (Nat.lt_trichotomy k k') as [L|[E|L]]; [|exact E|].
      * rewrite (F k o L Hnth) in Mo. discriminate.
      * rewrite (Fk k' x L Hx) in Px. discriminate.
  - cbn [truthy] in T. now rewrite T.
  - injection Ea as <-. destruct a as [|c t]; [reflexivity|]. cbn [nonempty].
    assert (findIndex (matchesAnswer (trim (toLowerCase (c :: t))))
              (map cleanOption strs) = (-1)%Z) as ->; [|reflexivity].
    unfold findIndex.
    destruct (findIndex_from_spec _ (matchesAnswer (trim (toLowerCase (c :: t))))
                (map cleanOption strs) 0) as [[Hn Hall]|(k' & x & Hk' & Hx & Px & F)];
      [exact Hn|].
    apply nth_error_In in Hx. rewrite (N x Hx) in Px. discriminate.
Qed.

Lemma stored_up_to_case (a a' : jstring) (strs strs' : list jstring) :
  asciiText a = true -> forallb asciiText strs = true ->
  sameButCase a a' -> Forall2 sameButCase strs strs' ->
  Forall2 (fun o o' => matchesAnswer (trim (toLowerCase a)) o
                       = matchesAnswer (trim (toLowerCase a')) o')
    (map cleanOption strs) (map cleanOption strs').
Proof.
  intros Aa As Sa Ss. induction Ss as [|s s' t t' Hs _ IH]; [constructor|].
  cbn [forallb] in As. apply andb_prop in As. destruct As as [A1 A2].
  cbn [map]. constructor; [|now apply IH].
  apply matchesAnswer_up_to_case; auto.
  - now apply asciiText_cleanOption.
  - now apply sameButCase_cleanOption.
Qed.

Lemma unmarked_texts (strs : list jstring) :
  forallb asciiText strs = true -> existsb (has GLYPH) strs = false.
Proof.
  induction strs as [|s t IH]; [reflexivity|]. cbn [forallb existsb].
  intros H. apply andb_prop in H. destruct H as [A B].
  now rewrite (asciiText_unmarked s A), IH.
Qed.

Lemma texts_up_to_case (strs strs' : list jstring) :
  Forall2 sameButCase strs strs' -> forallb asciiText strs = true ->
  forallb asciiText strs' = true.
Proof.
  induction 1 as [|s s' t t' Hs _ IH]; [reflexivity|]. cbn [forallb].
  intros H. apply andb_prop in H. destruct H as [A B].
  now rewrite (sameButCase_ascii _ _ Hs A), IH.
Qed.

End CaseInsensitive.

(* ================================================================== *)
(** ** The properties of the specification *)

Section Claims.
Context {caseTable : CaseTable}.

Lemma nth_error_lt (A : Type) (l : list A) (k : nat) (x : A) :
  nth_error l k = Some x -> (k < List.length l)%nat.
Proof. intros H. apply nth_error_Some. congruence. Qed.

Lemma resolved_range (strs : list jstring) (answer : option json) (ca : Z) :
  resolved strs answer ca ->
  (0 <= ca)%Z /\ (strs <> [] -> (ca < Z.of_nat (List.length strs))%Z).
Proof.
  intros [k [(s & Hk & _) _] ->|a k _ _ _ [(o & Hk & _) _] ->|_ _ ->].
  - apply nth_error_lt in Hk. lia.
  - apply nth_error_lt in Hk. rewrite length_map in Hk. lia.
  - split; [lia|]. destruct strs; [congruence | cbn; lia].
Qed.

(** C1, amended.  Every question of the structured-header parser has at
    least one option and a [correctAnswer] that is a position in
    [options].  Every question of the JSON extractor has a non-negative
    [correctAnswer], below [options.length] whenever [options] is not
    empty.  Every question of the line-pattern parser has a non-negative
    [correctAnswer] that is a position in [options] or at most 3, the
    position of an answer letter (which is not compared with the number
    of options). *)
Theorem C1_question_ranges (q : MCQQuestion) :
  (forall text, In q (parseStructuredFormat text) -> validQuestion q) /\
  (forall data qs,
     parseJSONFormat data = Ok qs -> In q qs ->
     (0 <= correctAnswer q)%Z /\
     (options q <> [] ->
      (correctAnswer q < Z.of_nat (List.length (options q)))%Z)) /\
  (forall now text,
     In q (parseLinePattern now text) ->
     (0 <= correctAnswer q)%Z /\
     ((correctAnswer q < Z.of_nat (List.length (options q)))%Z
      \/ (correctAnswer q <= 3)%Z)).
Proof.
  split; [|split].
  - intros text. apply structured_valid.
  - intros data qs H Hin.
    destruct (parseJSONFormat_In data qs q H Hin) as (item & index & Hq).
    apply parseJSONQuestion_inv in Hq.
    destruct Hq as (fields & qv & strs & _ & _ & _ & _ & _ & _ & Ho & Hr & _).
    apply resolved_range in Hr. destruct Hr as [H0 H1].
    rewrite Ho, length_map. split; [exact H0|].
    intros Hne. apply H1. intros ->. now apply Hne.
  - intros now text. apply linePattern_letterOrPosition.
Qed.

(** C2, what the code does.  A line the answer branch takes sets
    [correctAnswer] to the position of the first letter of the line, the
    [A] of [Answer:] and [Ans:] (position 0) or the [C] of [Correct:]
    (position 2), whatever letter follows the colon.  On the input of the
    specification's line-pattern minimal case the parser returns the one
    question with options 3, 4, 5 and [correctAnswer] 0, not the 1 of the
    letter [B]. *)
Theorem C2_answer_line_reads_label_letter (now : Z) (st : lineState) (line : jstring) :
  (testAt Pattern.answerLine line = true ->
   exists c t,
     line = c :: t /\
     pCorrectAnswer (currentQuestion (textLine st line))
     = Some (Z.of_N (CharClass.to_upper c) - 65)%Z /\
     (Z.of_N (CharClass.to_upper c) - 65 = 0
      \/ Z.of_N (CharClass.to_upper c) - 65 = 2)%Z) /\
  map withoutId (parseMCQText now minimalCase)
  = [(jstr "What is 2+2?", [js "3"; js "4"; js "5"], 0%Z, None, None)].
Proof.
  split; [|vm_compute; reflexivity].
  intros H. pose proof (answerLine_first_letter line H) as (N & Q & O & c & t & E & X & P).
  exists c, t. repeat split; [exact E | | exact P].
  unfold textLine. rewrite N, Q, O, H, X. reflexivity.
Qed.

Lemma firstMatchAt_unique (a : jstring) (stored : list jstring) (k k' : nat) :
  firstMatchAt a stored k -> firstMatchAt a stored k' -> k = k'.
Proof.
  intros [(o & Hk & Mo) Fk] [(o' & Hk' & Mo') Fk'].
  destruct (Nat.lt_trichotomy k k') as [L|[E|L]]; [|exact E|].
  - rewrite (Fk' k o L Hk) in Mo. discriminate.
  - rewrite (Fk k' o' L Hk') in Mo'. discriminate.
Qed.

(** C3.  Over a runtime whose [toLowerCase] lower-cases ASCII text, an
    item that passes the shape check and is well typed (string options,
    and a [correct_answer] that is a string or falsy unless an option
    bears the glyph) is converted, and: the stored options are the raw
    ones with the glyph stripped; if some raw option bears the glyph,
    [correctAnswer] is the position of a glyph-bearing option; otherwise,
    if [correct_answer] is a non-empty text and some stored option matches
    it by containment either way of the lower-cased texts,
    [correctAnswer] is the position of the first such option; otherwise
    [correctAnswer] is 0.  The match is case-insensitive: on ASCII texts,
    an item whose [correct_answer] and options differ from this one's in
    the case of their letters at most resolves to the same position.
    [correct_answer] "Paris", "paris" or "PARIS" with options London,
    Paris, Berlin resolves to 1, as do a part of an option and a text
    that holds an option; "Rome" resolves to 0. *)
Theorem C3_answer_priority (item : json) (index : nat)
  (Hcase : forall s, asciiText s = true ->
                     toLowerCase s = map CharClass.to_lower s)
  (Hshape : shapeOk item = true) (Htyped : itemSafe item = true) :
  (exists q fields strs,
     parseJSONQuestion item index = Ok (Some q) /\
     item = JObj fields /\
     lookup (js "options") fields = Some (JArr (map JStr strs)) /\
     options q = map cleanOption strs /\
     Forall (fun o => has GLYPH o = false) (options q) /\
     (existsb (has GLYPH) strs = true ->
      exists k s, nth_error strs k = Some s /\ has GLYPH s = true
                  /\ correctAnswer q = Z.of_nat k) /\
     (existsb (has GLYPH) strs = false ->
      forall a k,
        lookup (js "correct_answer") fields = Some (JStr a) -> a <> [] ->
        firstMatchAt a (options q) k -> correctAnswer q = Z.of_nat k) /\
     (existsb (has GLYPH) strs = false ->
      (truthy (lookup (js "correct_answer") fields) = false
       \/ forall a,
            lookup (js "correct_answer") fields = Some (JStr a) ->
            forall o, In o (options q) ->
                      matchesAnswer (trim (toLowerCase a)) o = false) ->
      correctAnswer q = 0%Z) /\
     (forall a fields' strs' a',
        lookup (js "correct_answer") fields = Some (JStr a) ->
        asciiText a = true -> forallb asciiText strs = true ->
        truthy (lookup (js "question") fields') = true ->
        lookup (js "options") fields' = Some (JArr (map JStr strs')) ->
        lookup (js "correct_answer") fields' = Some (JStr a') ->
        sameButCase a a' -> Forall2 sameButCase strs strs' ->
        exists q',
          parseJSONQuestion (JObj fields') index = Ok (Some q') /\
          correctAnswer q' = correctAnswer q)) /\
  map (fun item => option_map correctAnswer
                     (match @parseJSONQuestion asciiCase item 0 with
                      | Ok r => r | Throw _ => None end))
    [capitals; capitalsAnswered "paris"; capitalsAnswered "PARIS";
     capitalsShouted; capitalsAnswered "ari";
     capitalsAnswered "in Paris, France"; capitalsAnswered "Rome"]
  = [Some 1; Some 1; Some 1; Some 1; Some 1; Some 1; Some 0]%Z.
Proof.
  split; [|vm_compute; reflexivity].
  pose proof (parseJSONQuestion_safe item index Htyped) as Hq.
  rewrite Hshape in Hq. destruct Hq as [q Hq]. pose proof Hq as Hq0.
  apply parseJSONQuestion_inv in Hq.
  destruct Hq as (fields & qv & strs & -> & _ & _ & Ho & _ & _ & Hopts & Hr & _).
  exists q, fields, strs. rewrite Hopts. repeat split; auto.
  - apply Forall_forall. intros o Ho'. apply in_map_iff in Ho'.
    destruct Ho' as (s & <- & _). apply cleanOption_unmarked.
  - intros Hm.
    destruct Hr as [k [(s & Hk & Hs) _] ->|a k Hn _ _ _ _|Hn _ _];
      [|congruence|congruence].
    now exists k, s.
  - intros Hn a k Ha Hne Hk.
    destruct Hr as [k' Hl ->|a' k' _ Ea _ Hk' ->|_ [T|(a' & Ea & N)] _].
    + apply lastMarkedAt_marked in Hl. rewrite existsb_marked_strings in Hl.
      congruence.
    + rewrite Ha in Ea. injection Ea as <-.
      f_equal. eapply firstMatchAt_unique; eauto.
    + rewrite Ha in T. destruct a; [congruence | discriminate].
    + rewrite Ha in Ea. injection Ea as <-.
      destruct Hk as [(o & Hk & Mo) _]. apply nth_error_In in Hk.
      rewrite (N o Hk) in Mo. discriminate.
  - intros Hn Hd.
    destruct Hr as [k' Hl ->|a' k' _ Ea Hne Hk' ->|_ _ ->]; [| |reflexivity].
    + apply lastMarkedAt_marked in Hl. rewrite existsb_marked_strings in Hl.
      congruence.
    + destruct Hd as [T|N].
      * rewrite Ea in T. destruct a'; [congruence | discriminate].
      * destruct Hk' as [(o & Hk & Mo) _]. apply nth_error_In in Hk.
        rewrite (N a' Ea o Hk) in Mo. discriminate.
  - intros a fields' strs' a' Ha Aa As Tq' Ho' Ha' Sa Ss.
    pose proof (texts_up_to_case _ _ Ss As) as As'.
    assert (exists q', parseJSONQuestion (JObj fields') index = Ok (Some q'))
      as [q' Hq'].
    { pose proof (parseJSONQuestion_safe (JObj fields') index) as S.
      assert (shapeOk (JObj fields') = true) as Sh.
      { cbn [shapeOk]. rewrite Tq', Ho'. reflexivity. }
      rewrite Sh in S. apply S. cbn [itemSafe]. rewrite Sh, Ho', Ha'.
      cbn [elements]. apply andb_true_intro. split; [|apply orb_true_r].
      clear. induction strs' as [|s t IH]; [reflexivity | exact IH]. }
    exists q'. split; [exact Hq'|].
    rewrite (parseJSONQuestion_text_answer fields' index q' strs' a' Hq' Ho'
               (unmarked_texts _ As') Ha').
    rewrite (parseJSONQuestion_text_answer fields index q strs a Hq0 Ho
               (unmarked_texts _ As) Ha).
    assert (nonempty a' = nonempty a) as ->.
    { destruct Sa; reflexivity. }
    unfold findIndex.
    rewrite (findIndex_from_pointwise _ _ _ _ _
               (stored_up_to_case Hcase a a' strs strs' Aa As Sa Ss) 0%Z).
    reflexivity.
Qed.

(** An element other than [null] that fails the shape check is skipped,
    whatever else it holds. *)
Lemma parseJSONQuestion_skip (item : json) (index : nat) :
  item <> JNull -> shapeOk item = false ->
  parseJSONQuestion item index = Ok None.
Proof.
  unfold parseJSONQuestion.
  destruct item as [| | | | |fields]; cbn [shapeOk get bind truthy negb];
    try congruence; try reflexivity.
  intros _.
  destruct (lookup (js "question") fields) as [qv|] eqn:Hq;
    [|cbn [truthy negb andb]; reflexivity].
  destruct (truthy (Some qv)) eqn:Tq; cbn [negb andb]; [|reflexivity].
  destruct (lookup (js "options") fields) as [ov|] eqn:Ho;
    [|cbn [truthy negb orb andb]; reflexivity].
  destruct (truthy (Some ov)) eqn:To; cbn [negb orb andb]; [|reflexivity].
  destruct (isArray (Some ov)); cbn [negb]; [discriminate | reflexivity].
Qed.

Lemma filter_indexed_length (items : list json) (i : nat) :
  List.length (filter (fun p => shapeOk (snd p)) (indexed_from i items))
  = List.length (filter shapeOk items).
Proof.
  revert i; induction items as [|x t IH]; intros i; cbn; [reflexivity|].
  destruct (shapeOk x); cbn; now rewrite IH.
Qed.

Lemma Forall2_nil_l (A B : Type) (R : A -> B -> Prop) (l : list B) :
  Forall2 R [] l -> l = [].
Proof. intros H. now inversion H. Qed.

Lemma filter_shapeless (items : list json) (i : nat) :
  (forall item, In item items -> shapeOk item = false) ->
  filter (fun p => shapeOk (snd p)) (indexed_from i items) = [].
Proof.
  revert i; induction items as [|x t IH]; intros i Hall; cbn; [reflexivity|].
  rewrite (Hall x) by now left.
  apply IH. intros item Hi. apply Hall. now right.
Qed.

Lemma parseItems_batch (items : list json) :
  forallb itemSafe items = true ->
  (exists qs, parseItems (indexed items) [] = Ok qs) /\
  ((forall item, In item items -> shapeOk item = false) ->
   parseItems (indexed items) [] = Ok []).
Proof.
  intros Hsafe.
  destruct (parseItems_safe items 0 [] Hsafe) as (qs & E & F).
  unfold indexed. rewrite E. cbn [app]. split; [eauto|].
  intros Hall. rewrite (filter_shapeless items 0 Hall) in F.
  now rewrite (Forall2_nil_l _ _ _ _ F).
Qed.

(** C4, amended.  Applied to a decoded JSON value other than [null], none
    of whose candidate items (the value itself when it bears [question]
    and [options], otherwise the elements of the array or of the
    [questions] array) is [null], and whose shape-passing candidates have
    string options and a [correct_answer] that is a string or falsy
    wherever it is consulted, the extractor returns without throwing; and
    when no candidate passes the shape check (numbers, strings, booleans,
    objects of unrecognized shape) it returns the empty sequence. *)
Theorem C4_extractor_returns (data : json)
  (Hnull : data <> JNull)
  (Hsafe : forallb itemSafe (candidates data) = true) :
  (exists qs, parseJSONFormat data = Ok qs) /\
  ((forall item, In item (candidates data) -> shapeOk item = false) ->
   parseJSONFormat data = Ok []).
Proof.
  unfold parseJSONFormat.
  destruct data as [|b|n|s|items|fields]; try congruence;
    try (split; [eexists|intros _]; reflexivity).
  - (* an array *)
    cbn [get bind truthy isArray elements candidates] in *.
    now apply parseItems_batch.
  - (* an object *)
    cbn [get bind candidates] in *.
    assert (truthy (lookup (js "questions") fields)
            && isArray (lookup (js "questions") fields)
            = isArray (lookup (js "questions") fields)) as Q.
    { destruct (lookup (js "questions") fields) as [[| | | | |]|];
        cbn [isArray]; rewrite ?andb_false_r; reflexivity. }
    rewrite Q. clear Q.
    destruct (truthy (lookup (js "question") fields)
              && truthy (lookup (js "options") fields)) eqn:Single.
    + apply andb_prop in Single. destruct Single as [Tq To].
      rewrite Tq, To. cbn [bind].
      cbn [forallb] in Hsafe. rewrite andb_true_r in Hsafe.
      pose proof (parseJSONQuestion_safe (JObj fields) 0 Hsafe) as Hq.
      destruct (shapeOk (JObj fields)) eqn:Sh.
      * destruct Hq as [q Hq]. rewrite Hq. cbn [bind]. split; [eauto|].
        intros Hall. rewrite (Hall (JObj fields)) in Sh by now left.
        discriminate.
      * rewrite Hq. cbn [bind]. split; [eauto | reflexivity].
    + destruct (truthy (lookup (js "question") fields)); cbn [bind andb] in *;
        [rewrite Single; cbn [bind]|]; cbn [isArray];
        (destruct (isArray (lookup (js "questions") fields));
         [now apply parseItems_batch | split; [eauto | reflexivity]]).
Qed.

Lemma section_eqb_eq (a b : section) : section_eqb a b = true -> a = b.
Proof. destruct a, b; cbn; congruence. Qed.

(** C5, what the code does.  In the structured-header parser the correct
    answer is the one resolved last in line order.  An option line that
    bears the glyph sets [correctAnswer] to the position of the option it
    adds; a Correct-Answer label whose text resolves to an option sets it
    to that option's position; each replaces the value held before.  A
    line that is no Correct-Answer label, bears no glyph and is not read
    in the answer section leaves [correctAnswer] unchanged.  So in
    [glyphThenLabel], where the glyph is on the first option and the
    Correct-Answer label, which names the second, follows, the parsed
    [correctAnswer] is 1, the label's, not the 0 of the glyph. *)
Theorem C5_last_resolution_decides (b : block) (line : jstring) :
  (isLabel line = false -> currentSection b = SecOptions ->
   startsWith line (js "-") = true -> has GLYPH line = true ->
   bCorrectAnswer (blockLine b line) = Z.of_nat (List.length (bOptions b))
   /\ List.length (bOptions (blockLine b line)) = S (List.length (bOptions b))) /\
  (isAnswerLabel line = true ->
   forall t k,
     trailingText "Correct Answer" line = Some t ->
     findIndex (matchesText (trim (removeBold t))) (bOptions b) = Z.of_nat k ->
     bCorrectAnswer (blockLine b line) = Z.of_nat k) /\
  (test Pattern.answerLabel line || test Pattern.emphasizedAnswerLabel line = false ->
   currentSection b <> SecAnswer -> has GLYPH line = false ->
   bCorrectAnswer (blockLine b line) = bCorrectAnswer b) /\
  (nth_error (blockLines glyphThenLabel) 2 = Some (withGlyph "- Alpha ") /\
   nth_error (blockLines glyphThenLabel) 4 = Some (js "**Correct Answer:** Beta") /\
   map (fun q => (options q, correctAnswer q))
     (@parseStructuredFormat asciiCase glyphThenLabel)
   = [([js "Alpha"; js "Beta"], 1%Z)]).
Proof.
  split; [|split; [|split]].
  - unfold isLabel. intros L S D G.
    repeat (apply orb_false_elim in L; destruct L as [L ?]).
    unfold blockLine.
    repeat match goal with H : _ = false |- _ => rewrite H; clear H end.
    cbn [orb]. rewrite S, D, G. cbn. rewrite length_app. cbn. split; lia.
  - unfold isAnswerLabel. intros L t k T F.
    apply andb_prop in L. destruct L as [L A].
    apply andb_prop in L. destruct L as [Q O].
    apply negb_true_iff in Q. apply negb_true_iff in O.
    unfold blockLine. rewrite Q, O, A, T.
    unfold resolveAnswer. cbn [bOptions setSection]. rewrite F.
    replace (Z.of_nat k =? -1)%Z with false by (symmetry; apply Z.eqb_neq; lia).
    reflexivity.
  - intros A S G. unfold blockLine. rewrite A, G.
    break_block; cbn; rewrite ?flushSection_correctAnswer; try reflexivity.
    all: match goal with
         | H : section_eqb _ SecAnswer = true |- _ =>
             apply section_eqb_eq in H; cbn in H; congruence
         | _ => idtac
         end.
  - repeat split; vm_compute; reflexivity.
Qed.

Lemma Forall2_length_eq (A B : Type) (R : A -> B -> Prop) (l : list A) (m : list B) :
  Forall2 R l m -> List.length l = List.length m.
Proof. induction 1; cbn; congruence. Qed.

(** An array of elements, none [null] and those passing the shape check
    well typed: each element is converted with its own position, the
    elements failing the shape check are skipped without error, and the
    result lists the conversions of the others in their order.  In
    particular the batch of three objects whose second lacks [options]
    yields the first and the third, in this order. *)
Lemma safe_batch_skips_shapeless (items : list json)
  (Hsafe : forallb itemSafe items = true) :
  (exists qs,
     parseJSONFormat (JArr items) = Ok qs /\
     Forall2 (fun p q => parseJSONQuestion (snd p) (fst p) = Ok (Some q))
       (filter (fun p => shapeOk (snd p)) (indexed items)) qs /\
     List.length qs = List.length (filter shapeOk items)) /\
  (forall item index,
     In item items -> shapeOk item = false ->
     parseJSONQuestion item index = Ok None) /\
  match @parseJSONFormat asciiCase batch with
  | Ok qs => map (fun q => (id q, question q)) qs
             = [(js "q-0", jstr "First?"); (js "q-2", jstr "Third?")]
  | Throw _ => False
  end.
Proof.
  split; [|split; [|vm_compute; reflexivity]].
  - unfold parseJSONFormat. cbn [get bind truthy isArray elements].
    destruct (parseItems_safe items 0 [] Hsafe) as (qs & E & F).
    exists qs. unfold indexed. rewrite E. cbn [app]. repeat split; [exact F|].
    rewrite <- (Forall2_length_eq _ _ _ _ _ F). apply filter_indexed_length.
  - intros item index Hin Hshape. apply parseJSONQuestion_skip; [|exact Hshape].
    intros ->. rewrite forallb_forall in Hsafe.
    specialize (Hsafe JNull Hin). discriminate.
Qed.

(** A [null] among the items makes the loop over them throw: nothing
    guards the property access [item.question]. *)
Lemma parseItems_null (items : list json) :
  In JNull items ->
  forall (i : nat) (acc : list MCQQuestion),
  parseItems (indexed_from i items) acc = Throw TypeError.
Proof.
  induction items as [|item t IH]; intros Hin i acc; [destruct Hin|].
  cbn [indexed_from parseItems].
  destruct Hin as [->|Hin]; [reflexivity|].
  destruct (parseJSONQuestion item i) as [r|[]]; cbn [bind]; [|reflexivity].
  now apply IH.
Qed.

(** C6.  The elements that fail the shape check are skipped, [null]
    excepted: an element other than [null] that fails the check is
    skipped whatever it is, but on [null] the conversion throws (the
    check reads [item.question] unguarded), so that an array holding a
    [null] anywhere yields no question at all, as does [null] itself
    handed to the extractor.  The array of a question
    object and [null] throws, where the claim has one question; numbers,
    strings, booleans, arrays and objects without [question] around a
    question object are skipped, and the batch of three objects whose
    second lacks [options] yields the first and the third. *)
Theorem C6_null_element_voids_the_batch :
  (forall items, In JNull items ->
                 parseJSONFormat (JArr items) = Throw TypeError) /\
  (forall index, parseJSONQuestion JNull index = Throw TypeError) /\
  parseJSONFormat JNull = Throw TypeError /\
  (forall item index,
     item <> JNull -> shapeOk item = false ->
     parseJSONQuestion item index = Ok None) /\
  @parseJSONFormat asciiCase goodThenNull = Throw TypeError /\
  match @parseJSONFormat asciiCase goodAmongOthers with
  | Ok qs => map (fun q => (id q, question q)) qs = [(js "q-4", jstr "First?")]
  | Throw _ => False
  end /\
  match @parseJSONFormat asciiCase batch with
  | Ok qs => map (fun q => (id q, question q)) qs
             = [(js "q-0", jstr "First?"); (js "q-2", jstr "Third?")]
  | Throw _ => False
  end.
Proof.
  split; [|split; [|split; [|split; [|split; [|split]]]]].
  - intros items Hin. unfold parseJSONFormat.
    cbn [get bind truthy isArray elements]. now apply parseItems_null.
  - reflexivity.
  - reflexivity.
  - intros item index Hn Hs. now apply parseJSONQuestion_skip.
  - vm_compute. reflexivity.
  - vm_compute. reflexivity.
  - vm_compute. reflexivity.
Qed.

Lemma resolveAnswer_section (t : jstring) (b : block) :
  currentSection (resolveAnswer t b) = currentSection b /\
  bAdditionalSections (resolveAnswer t b) = bAdditionalSections b.
Proof. unfold resolveAnswer. now destruct (_ =? _)%Z. Qed.

(** C7, what the code does.  A Correct-Answer or Reasoning label leaves
    [additionalSections] as it was and leaves a section other than
    [additional] current, so that the flush after it does nothing: a
    custom section open before the label is not stored.  Of two blocks
    that differ in the place of the custom section only, the one where
    the Reasoning label follows it has it in no [additionalSections]; the
    one where it is last has it stored by the flush at block end. *)
Theorem C7_section_before_reasoning_is_lost (b : block) (line : jstring) :
  (isAnswerOrReasoningLabel line = true ->
   bAdditionalSections (blockLine b line) = bAdditionalSections b /\
   currentSection (blockLine b line) <> SecAdditional /\
   flushSection (blockLine b line) = blockLine b line) /\
  map additionalSections (parseStructuredFormat sectionThenReasoning) = [None] /\
  map additionalSections (parseStructuredFormat sectionLast)
  = [Some [{| title := js "Context"; content := js "Some context" |}]].
Proof.
  split; [|split; vm_compute; reflexivity].
  unfold isAnswerOrReasoningLabel. intros L.
  apply andb_prop in L. destruct L as [L A].
  apply andb_prop in L. destruct L as [Q O].
  apply negb_true_iff in Q. apply negb_true_iff in O.
  assert (bAdditionalSections (blockLine b line) = bAdditionalSections b /\
          (currentSection (blockLine b line) = SecAnswer
           \/ currentSection (blockLine b line) = SecReasoning)) as [E S].
  { unfold blockLine. rewrite Q, O.
    destruct (test Pattern.answerLabel line
              || test Pattern.emphasizedAnswerLabel line).
    - destruct (trailingText "Correct Answer" line);
        rewrite ?(proj1 (resolveAnswer_section _ _)),
                ?(proj2 (resolveAnswer_section _ _)); cbn; auto.
    - cbn [orb] in A. rewrite A.
      destruct (trailingText "Reasoning" line); cbn; auto. }
  split; [exact E|].
  unfold flushSection.
  destruct S as [-> | ->]; cbn; split; (discriminate || reflexivity).
Qed.

(** The ids of the line-pattern parser count up from the clock reading. *)
Lemma textLine_ids (now : Z) (st : lineState) (line : jstring) :
  map id (questions st)
    = map (fun k => questionId (now + Z.of_nat k)) (seq 0 (List.length (questions st))) ->
  questionCounter st = (now + Z.of_nat (List.length (questions st)))%Z ->
  map id (questions (textLine st line))
    = map (fun k => questionId (now + Z.of_nat k))
        (seq 0 (List.length (questions (textLine st line)))) /\
  questionCounter (textLine st line)
    = (now + Z.of_nat (List.length (questions (textLine st line))))%Z.
Proof.
  intros Hids Hc. unfold textLine.
  destruct (_ || _).
  - destruct (completed _ _) as [q|] eqn:C; cbn; [|auto].
    apply completed_inv in C. destruct C as (Hid & _).
    rewrite length_app, seq_app, !map_app, Hids. cbn.
    rewrite Hid, Hc. split; [reflexivity | lia].
  - destruct (testAt Pattern.optionPrefix line); [now split|].
    destruct (testAt Pattern.answerLine line).
    + destruct (exec Pattern.anyLetterAD line) as [[r [[|c g]|]]|]; now split.
    + destruct (testAt Pattern.explanationLine line); now split.
Qed.

Lemma linePattern_ids (now : Z) (text : jstring) :
  map id (parseLinePattern now text)
  = map (fun k => questionId (now + Z.of_nat k))
      (seq 0 (List.length (parseLinePattern now text))).
Proof.
  unfold parseLinePattern.
  match goal with |- context [fold_left textLine ?l ?s] =>
    assert (map id (questions (fold_left textLine l s))
            = map (fun k => questionId (now + Z.of_nat k))
                (seq 0 (List.length (questions (fold_left textLine l s)))) /\
            questionCounter (fold_left textLine l s)
            = (now + Z.of_nat (List.length (questions (fold_left textLine l s))))%Z)
      as [Hids Hc];
    [ assert (map id (questions s)
              = map (fun k => questionId (now + Z.of_nat k))
                  (seq 0 (List.length (questions s))) /\
              questionCounter s = (now + Z.of_nat (List.length (questions s)))%Z)
        as H0 by (cbn; split; [reflexivity | lia]);
      revert H0; generalize s; induction l as [|x t IH]; intros s0 [H1 H2];
      [ now split | cbn [fold_left]; apply IH, textLine_ids; assumption ]
    | set (st := fold_left textLine l s) in * ]
  end.
  destruct (completed _ _) as [q|] eqn:C; [|exact Hids].
  apply completed_inv in C. destruct C as (Hid & _).
  rewrite length_app, seq_app, !map_app, Hids. cbn.
  now rewrite Hid, Hc.
Qed.

(** C8, amended.  Two invocations on the same text return sequences that
    agree in every field but [id].  The ids agree as well when the
    structured-header parser recognizes the text (they are block
    positions); those of the line-pattern parser are the clock reading of
    the invocation, counted up by one per question. *)
Theorem C8_deterministic_up_to_ids (now1 now2 : Z) (text : jstring) :
  map withoutId (parseMCQText now1 text) = map withoutId (parseMCQText now2 text) /\
  (parseStructuredFormat text <> [] ->
   parseMCQText now1 text = parseMCQText now2 text) /\
  (parseStructuredFormat text = [] ->
   map id (parseMCQText now1 text)
   = map (fun k => questionId (now1 + Z.of_nat k))
       (seq 0 (List.length (parseMCQText now1 text)))).
Proof.
  unfold parseMCQText.
  destruct (parseStructuredFormat text) as [|q qs] eqn:E; cbn [List.length Nat.ltb Nat.leb].
  - split; [apply linePattern_clock|]. split; [congruence|].
    intros _. apply linePattern_ids.
  - split; [reflexivity|]. split; [reflexivity | discriminate].
Qed.

Lemma lookup_In_keys (key : jstring) (fields : list (jstring * json)) (v : json) :
  lookup key fields = Some v -> In key (map fst fields).
Proof.
  induction fields as [|[k w] t IH]; cbn; [discriminate|].
  unfold jstring_eqb. destruct (list_eq_dec N.eq_dec k key) as [->|_]; auto.
Qed.

(** C9.  For an item [parseJSONQuestion] converts, whose [explanation] is
    a non-blank string and which has no [reasoning]: that string is the
    question's [explanation], and [additionalSections] holds an entry
    titled "Explanation" with that string as content. *)
Theorem C9_explanation_is_also_a_section
  (fields : list (jstring * json)) (index : nat) (q : MCQQuestion) (s : jstring)
  (Hq : parseJSONQuestion (JObj fields) index = Ok (Some q))
  (He : lookup (js "explanation") fields = Some (JStr s))
  (Hs : nonempty (trim s) = true)
  (Hr : lookup (js "reasoning") fields = None) :
  explanation q = Some (JStr s) /\
  exists sections,
    additionalSections q = Some sections /\
    In {| title := js "Explanation"; content := s |} sections.
Proof.
  apply parseJSONQuestion_inv in Hq.
  destruct Hq as (fields' & qv & strs & E & _ & _ & _ & _ & _ & _ & _ & Hx & Ha).
  injection E as <-. rewrite Hr, He in Hx. cbn [truthy] in Hx.
  rewrite (trim_nonempty s Hs) in Hx. split; [exact Hx|].
  assert (In {| title := js "Explanation"; content := s |}
             (sectionsOfItem (JObj fields))) as Hin.
  { cbn [sectionsOfItem keys]. apply in_flat_map.
    exists (js "explanation"). split; [eapply lookup_In_keys; eauto|].
    unfold sectionOfKey. rewrite He, Hs.
    replace (reservedKey (js "explanation")) with false by (vm_compute; reflexivity).
    left. f_equal. }
  exists (sectionsOfItem (JObj fields)). split; [|exact Hin].
  rewrite Ha. destruct (sectionsOfItem (JObj fields)); [destruct Hin | reflexivity].
Qed.

(** C10.  For an item [parseJSONQuestion] converts, two of whose options
    (at positions [i] < [j]) bear the glyph: [correctAnswer] is the
    position of the last glyph-bearing option, and the stored options are
    the raw ones in their order, as many, each with every glyph removed. *)
Theorem C10_last_glyph_decides
  (fields : list (jstring * json)) (opts : list json) (index : nat)
  (q : MCQQuestion) (i j : nat) (si sj : jstring)
  (Hq : parseJSONQuestion (JObj fields) index = Ok (Some q))
  (Ho : lookup (js "options") fields = Some (JArr opts))
  (Hij : (i < j)%nat)
  (Hi : nth_error opts i = Some (JStr si)) (Gi : has GLYPH si = true)
  (Hj : nth_error opts j = Some (JStr sj)) (Gj : has GLYPH sj = true) :
  exists strs k,
    opts = map JStr strs /\
    lastMarkedAt strs k /\ (j <= k)%nat /\
    correctAnswer q = Z.of_nat k /\
    options q = map cleanOption strs /\
    List.length (options q) = List.length opts /\
    Forall (fun o => has GLYPH o = false) (options q).
Proof.
  apply parseJSONQuestion_inv in Hq.
  destruct Hq as (fields' & qv & strs & E & _ & _ & Ho' & _ & _ & Hopts & Hr & _).
  injection E as <-. rewrite Ho in Ho'. injection Ho' as ->.
  assert (nth_error strs j = Some sj) as Hj'.
  { rewrite nth_error_map in Hj. destruct (nth_error strs j); [|discriminate].
    cbn in Hj. congruence. }
  assert (existsb (has GLYPH) strs = true) as Hm.
  { apply existsb_exists. exists sj. split; [eapply nth_error_In; eauto | exact Gj]. }
  destruct Hr as [k Hl ->|a k Hn _ _ _ _|Hn _ _]; [|congruence|congruence].
  exists strs, k. repeat split; try apply Hl; auto.
  - destruct (Nat.le_gt_cases j k) as [L|L]; [exact L|].
    destruct Hl as [_ Hl]. rewrite (Hl j sj L Hj') in Gj. discriminate.
  - now rewrite Hopts, !length_map.
  - rewrite Hopts. apply Forall_forall. intros o Hin. apply in_map_iff in Hin.
    destruct Hin as (s & <- & _). apply cleanOption_unmarked.
Qed.

End Claims.

(* ================================================================== *)
(** ** The properties on concrete inputs *)

(** C1 as stated fails: the line-pattern parser returns a question
    without options for a lone question line, and a [correctAnswer] of 2
    for a question with two options; the JSON extractor returns a question
    without options for an item whose [options] array is empty. *)
Lemma C1_counterexample :
  (exists q, In q (@parseMCQText asciiCase 0 loneQuestion) /\ options q = []) /\
  (exists q, In q (@parseMCQText asciiCase 0 twoOptions)
             /\ List.length (options q) = 2%nat /\ correctAnswer q = 2%Z) /\
  (exists q, @parseJSONFormat asciiCase noOptions = Ok [q] /\ options q = []).
Proof.
  split; [|split]; eexists.
  - split; [vm_compute; left; reflexivity | reflexivity].
  - split; [vm_compute; left; reflexivity | split; reflexivity].
  - split; [vm_compute; reflexivity | reflexivity].
Qed.

(** The ranges of C1 on the question of [labelThenGlyph]. *)
Lemma C1_witness : validQuestion betaAlpha.
Proof.
  apply (proj1 (@C1_question_ranges asciiCase betaAlpha) labelThenGlyph).
  vm_compute. left. reflexivity.
Defined.

(** C3 on the item of the specification, and its match in capitals
    throughout. *)
Lemma C3_witness :
  exists q q',
    @parseJSONQuestion asciiCase capitals 0 = Ok (Some q) /\
    @parseJSONQuestion asciiCase capitalsShouted 0 = Ok (Some q') /\
    correctAnswer q' = correctAnswer q.
Proof.
  destruct (@C3_answer_priority asciiCase capitals 0
              (fun s _ => eq_refl) eq_refl eq_refl)
    as [(q & fields & strs & Hq & E & Ho & _ & _ & _ & _ & _ & CI) _].
  injection E as <-. injection Ho as Es.
  assert (strs = [js "London"; js "Paris"; js "Berlin"]) as ->.
  { destruct strs as [|s1 [|s2 [|s3 [|s4 t]]]]; try discriminate.
    now injection Es as <- <- <-. }
  destruct (CI (js "Paris")
              [field "question" (jstr "CAPITAL OF FRANCE?");
               field "options" (JArr [jstr "LONDON"; jstr "PARIS"; jstr "BERLIN"]);
               field "correct_answer" (jstr "PARIS")]
              [js "LONDON"; js "PARIS"; js "BERLIN"] (js "PARIS")
              eq_refl eq_refl eq_refl eq_refl eq_refl eq_refl)
    as (q' & Hq' & Hc).
  - unfold sameButCase, caseVariant.
    repeat (constructor; [vm_compute; intuition congruence|]). constructor.
  - unfold sameButCase, caseVariant.
    repeat (constructor;
            [repeat (constructor; [vm_compute; intuition congruence|]);
             constructor|]).
    constructor.
  - exists q, q'. repeat split; assumption.
Defined.

(** C4 as stated fails: a question object that passes the shape check
    and holds an option that is not a string, or a [correct_answer] that
    is a number with no glyph on any option, makes the extractor throw a
    [TypeError]. *)
Lemma C4_counterexample :
  @parseJSONFormat asciiCase numericOption = Throw TypeError /\
  @parseJSONFormat asciiCase numericAnswer = Throw TypeError /\
  shapeOk numericOption = true /\ shapeOk numericAnswer = true.
Proof. repeat split; vm_compute; reflexivity. Qed.

(** The extractor returns on the batch of three objects. *)
Lemma C4_witness : exists qs, @parseJSONFormat asciiCase batch = Ok qs.
Proof.
  refine (proj1 (@C4_extractor_returns asciiCase batch _ _)).
  - unfold batch. discriminate.
  - vm_compute. reflexivity.
Defined.

(** A glyph-bearing option line read after a resolved label decides: the
    last line of [labelThenGlyph], read in the state its first five lines
    lead to. *)
Lemma C5_witness :
  fold_left (@blockLine asciiCase) (firstn 5 (blockLines labelThenGlyph)) emptyBlock
  = beforeAlpha /\
  nth_error (blockLines labelThenGlyph) 5 = Some (withGlyph "- Alpha ") /\
  bCorrectAnswer (@blockLine asciiCase beforeAlpha (withGlyph "- Alpha "))
  = Z.of_nat (List.length (bOptions beforeAlpha)) /\
  List.length (bOptions (@blockLine asciiCase beforeAlpha (withGlyph "- Alpha ")))
  = S (List.length (bOptions beforeAlpha)).
Proof.
  split; [vm_compute; reflexivity|]. split; [vm_compute; reflexivity|].
  apply (proj1 (@C5_last_resolution_decides asciiCase beforeAlpha
                  (withGlyph "- Alpha "))); vm_compute; reflexivity.
Defined.

(** The batch of three objects yields two questions. *)
Lemma safe_batch_example :
  exists qs, @parseJSONFormat asciiCase batch = Ok qs /\ List.length qs = 2%nat.
Proof.
  destruct (proj1 (@safe_batch_skips_shapeless asciiCase (elements (Some batch))
                     eq_refl)) as (qs & E & _ & L).
  exists qs. split; [exact E | exact L].
Defined.

(** C8 as stated fails: two readings of the clock give two ids. *)
Lemma C8_counterexample :
  map id (@parseMCQText asciiCase 1 minimalCase) = [js "q-1"] /\
  map id (@parseMCQText asciiCase 2 minimalCase) = [js "q-2"].
Proof. split; vm_compute; reflexivity. Qed.

(** A text of the structured convention parses to the same questions at
    two readings of the clock. *)
Lemma C8_witness :
  @parseMCQText asciiCase 1 glyphThenLabel = @parseMCQText asciiCase 2 glyphThenLabel.
Proof.
  apply (proj1 (proj2 (@C8_deterministic_up_to_ids asciiCase 1 2 glyphThenLabel))).
  vm_compute. discriminate.
Defined.

(** The explanation of [explained] is stored twice. *)
Lemma C9_witness :
  exists q,
    @parseJSONQuestion asciiCase explained 0 = Ok (Some q) /\
    explanation q = Some (jstr "Because of b.") /\
    exists sections,
      additionalSections q = Some sections /\
      In {| title := js "Explanation"; content := js "Because of b." |} sections.
Proof.
  eexists. split; [vm_compute; reflexivity|].
  apply (@C9_explanation_is_also_a_section asciiCase
           [field "question" (jstr "Why?");
            field "options" (JArr [jstr "a"; jstr "b"]);
            field "explanation" (jstr "Because of b.")] 0);
    vm_compute; reflexivity.
Defined.

(** The last of the two glyphs of [twiceMarked] decides. *)
Lemma C10_witness :
  exists strs k,
    @parseJSONQuestion asciiCase twiceMarked 0 = Ok (Some abcd) /\
    lastMarkedAt strs k /\ (2 <= k)%nat /\
    correctAnswer abcd = Z.of_nat k /\
    options abcd = map cleanOption strs /\
    List.length (options abcd) = 4%nat.
Proof.
  destruct (@C10_last_glyph_decides asciiCase
              [field "question" (jstr "Which?");
               field "options" (JArr [JStr (withGlyph "a "); jstr "b";
                                      JStr (withGlyph "c "); jstr "d"])]
              [JStr (withGlyph "a "); jstr "b"; JStr (withGlyph "c "); jstr "d"]
              0 abcd 0 2 (withGlyph "a ") (withGlyph "c ")
              eq_refl eq_refl (le_S 1 1 (le_n 1))
              eq_refl eq_refl eq_refl eq_refl)
    as (strs & k & _ & Hl & Hk & Hc & Ho & Hn & _).
  exists strs, k. repeat split; try assumption; try apply Hl.
Defined.

(** The label line [Question:----], which carries no text, takes its own
    last dash as the question text (the greedy run of dashes gives one
    back to the text group), so the question written on the next line is
    not read; the label [Question:-], with its single dash, carries no
    text. *)
Theorem dashed_label_takes_a_dash :
  @trailingText "Question" (js "Question:----") = Some (js "-") /\
  @trailingText "Question" (js "Question:-") = None /\
  map (fun q => (question q, options q))
    (@parseStructuredFormat asciiCase dashedBlock)
  = [(jstr "-", [js "Alpha"; js "Beta"])].
Proof. repeat split; vm_compute; reflexivity. Qed.

(* ================================================================== *)
(** ** Further properties: the ids *)

Lemma js_inj (a b : string) : js a = js b -> a = b.
Proof.
  unfold js. intros H.
  rewrite <- (string_of_list_ascii_of_string a), <- (string_of_list_ascii_of_string b).
  f_equal. revert H. generalize (list_ascii_of_string a) (list_ascii_of_string b).
  induction l as [|x t IH]; intros [|y u]; cbn; try discriminate; [reflexivity|].
  intros H. injection H as Hx Ht. f_equal; [|now apply IH].
  rewrite <- (ascii_N_embedding x), <- (ascii_N_embedding y). now rewrite Hx.
Qed.

Lemma decimal_inj (a b : Z) : decimal a = decimal b -> a = b.
Proof.
  unfold decimal. intros H. apply js_inj in H.
  apply DecimalZ.to_int_inj.
  assert (forall n, Z.to_int n <> Decimal.Pos Decimal.Nil
                    /\ Z.to_int n <> Decimal.Neg Decimal.Nil) as NN.
  { intros [|p|p]; cbn; split; try discriminate;
      intros E; injection E as E; now apply Unsigned.to_uint_nonnil in E. }
  assert (Some (Z.to_int a) = Some (Z.to_int b)) as E.
  { rewrite <- (NilZero.isi (Z.to_int a)), <- (NilZero.isi (Z.to_int b));
      try apply NN. now rewrite H. }
  now injection E.
Qed.

Lemma questionId_inj (a b : Z) : questionId a = questionId b -> a = b.
Proof. unfold questionId. intros H. apply app_inv_head in H. now apply decimal_inj. Qed.

Lemma idsFrom_NoDup (i : nat) (qs : list MCQQuestion) :
  idsFrom i qs -> NoDup (map id qs).
Proof.
  intros (positions & -> & S & _).
  induction S as [|j t S IH F]; cbn; constructor; [|exact IH].
  intros Hin. apply in_map_iff in Hin. destruct Hin as (k & E & Hk).
  apply questionId_inj in E. rewrite Forall_forall in F.
  specialize (F k Hk). lia.
Qed.

Lemma idsFrom_cons (i : nat) (q : MCQQuestion) (qs : list MCQQuestion) :
  id q = questionId (Z.of_nat i) -> idsFrom (S i) qs -> idsFrom i (q :: qs).
Proof.
  intros Hq (positions & E & S & F). exists (i :: positions). cbn.
  rewrite Hq, E. repeat split.
  - constructor; [exact S|]. eapply Forall_impl; [|exact F]. cbn. lia.
  - constructor; [lia|]. eapply Forall_impl; [|exact F]. cbn. lia.
Qed.

Lemma idsFrom_weaken (i : nat) (qs : list MCQQuestion) :
  idsFrom (S i) qs -> idsFrom i qs.
Proof.
  intros (positions & E & S & F). exists positions. repeat split; auto.
  eapply Forall_impl; [|exact F]. cbn. lia.
Qed.

Section IdFacts.
Context {caseTable : CaseTable}.

Lemma parseJSONQuestion_id (item : json) (index : nat) (q : MCQQuestion) :
  parseJSONQuestion item index = Ok (Some q) -> id q = questionId (Z.of_nat index).
Proof.
  intros H. apply parseJSONQuestion_inv in H.
  now destruct H as (? & ? & ? & _ & _ & _ & _ & H & _).
Qed.

Lemma parseItems_ids (items : list json) :
  forall (i : nat) (acc qs : list MCQQuestion),
  parseItems (indexed_from i items) acc = Ok qs ->
  exists new, qs = acc ++ new /\ idsFrom i new.
Proof.
  induction items as [|item t IH]; intros i acc qs H; cbn [indexed_from parseItems] in H.
  - injection H as <-. exists []. rewrite app_nil_r. split; [reflexivity|].
    exists []. repeat split; constructor.
  - destruct (parseJSONQuestion item i) as [r|e] eqn:E; cbn [bind] in H; [|discriminate].
    apply IH in H. destruct H as (new & -> & Hn).
    destruct r as [q|].
    + exists (q :: new). rewrite <- app_assoc. split; [reflexivity|].
      apply idsFrom_cons; [|exact Hn]. now apply parseJSONQuestion_id in E.
    + exists new. split; [reflexivity|]. now apply idsFrom_weaken.
Qed.

Lemma parseJSONFormat_ids (data : json) (qs : list MCQQuestion) :
  parseJSONFormat data = Ok qs -> idsFrom 0 qs.
Proof.
  unfold parseJSONFormat. intros H.
  destruct (get data "question") as [qv|e]; cbn [bind] in H; [|discriminate].
  match type of H with
  | bind ?c _ = _ => destruct c as [single|e]; cbn [bind] in H; [|discriminate]
  end.
  destruct single.
  - destruct (parseJSONQuestion data 0) as [r|e] eqn:E; cbn [bind] in H; [|discriminate].
    injection H as <-. destruct r as [q|].
    + apply idsFrom_cons; [now apply parseJSONQuestion_id in E|].
      exists []. repeat split; constructor.
    + exists []. repeat split; constructor.
  - destruct (isArray (Some data)).
    + apply parseItems_ids in H. now destruct H as (new & -> & Hn).
    + destruct (get data "questions") as [qsv|e]; cbn [bind] in H; [|discriminate].
      destruct (truthy qsv && isArray qsv).
      * apply parseItems_ids in H. now destruct H as (new & -> & Hn).
      * injection H as <-. exists []. repeat split; constructor.
Qed.

Lemma structured_idsFrom (blocks : list jstring) (i : nat) :
  idsFrom i
    (flat_map (fun '(index, blk) =>
                 match parseBlock blk index with Some q => [q] | None => [] end)
       (indexed_from i blocks)).
Proof.
  revert i; induction blocks as [|blk t IH]; intros i; cbn [indexed_from flat_map].
  - exists []. repeat split; constructor.
  - destruct (parseBlock blk i) as [q|] eqn:E; cbn [app].
    + apply idsFrom_cons; [|apply IH]. apply parseBlock_inv in E. tauto.
    + apply idsFrom_weaken, IH.
Qed.

(** X2.  Within one parse the ids are pairwise distinct: those of the text
    parsers, and those of the JSON extractor. *)
Theorem ids_are_distinct_within_a_parse :
  (forall now text, NoDup (map id (parseMCQText now text))) /\
  (forall data qs, parseJSONFormat data = Ok qs -> NoDup (map id qs)).
Proof.
  split.
  - intros now text. unfold parseMCQText.
    destruct (0 <? _).
    + apply idsFrom_NoDup with (i := 0%nat). apply structured_idsFrom.
    + rewrite linePattern_ids.
      apply Injective_map_NoDup; [|apply seq_NoDup].
      intros a b H. apply questionId_inj in H. lia.
  - intros data qs H. apply idsFrom_NoDup with (i := 0%nat).
    eapply parseJSONFormat_ids; eauto.
Qed.
End IdFacts.

(* ================================================================== *)
(** ** Further properties: the JSON extractor *)

Section MoreJson.
Context {caseTable : CaseTable}.

(** The one-element batch of an item is the item's conversion. *)
Lemma parseItems_one (item : json) :
  parseItems (indexed [item]) []
  = (r <- parseJSONQuestion item 0 ;;
     Ok (match r with Some question => [question] | None => [] end)).
Proof.
  cbn [indexed indexed_from parseItems].
  destruct (parseJSONQuestion item 0) as [[q|]|e]; reflexivity.
Qed.

(** X3.  The three shapes agree: an object that bears [question] and
    [options] is extracted as the array that holds only it (whatever its
    [questions] property), and any other object with a [questions] array
    is extracted as that array. *)
Theorem json_shapes_agree (fields : list (jstring * json)) :
  (truthy (lookup (js "question") fields)
   && truthy (lookup (js "options") fields) = true ->
   parseJSONFormat (JObj fields) = parseJSONFormat (JArr [JObj fields])) /\
  (truthy (lookup (js "question") fields)
   && truthy (lookup (js "options") fields) = false ->
   forall items,
     lookup (js "questions") fields = Some (JArr items) ->
     parseJSONFormat (JObj fields) = parseJSONFormat (JArr items)).
Proof.
  split.
  - intros H. apply andb_prop in H. destruct H as [Tq To].
    unfold parseJSONFormat. cbn [get bind truthy isArray elements].
    rewrite Tq. cbn [bind]. rewrite To.
    symmetry. apply parseItems_one.
  - intros H items Hq.
    unfold parseJSONFormat. cbn [get bind truthy isArray elements].
    rewrite Hq. cbn [truthy isArray andb elements].
    destruct (truthy (lookup (js "question") fields)); cbn [bind andb] in *;
      [rewrite H|]; reflexivity.
Qed.

(** An item that passes the shape check is converted, unless the
    conversion throws. *)
Lemma parseJSONQuestion_shaped (item : json) (index : nat) (r : option MCQQuestion) :
  shapeOk item = true -> parseJSONQuestion item index = Ok r ->
  exists q, r = Some q.
Proof.
  unfold parseJSONQuestion.
  destruct item as [| | | | |fields]; cbn [shapeOk get bind]; try discriminate.
  intros S. apply andb_prop in S. destruct S as [S A].
  apply andb_prop in S. destruct S as [Tq To].
  rewrite Tq, To, A. cbn [negb orb].
  destruct (scanOptions _ _ _) as [[ca clean]|e]; cbn [bind]; [|discriminate].
  match goal with
  | |- bind ?c _ = _ -> _ => destruct c as [ca'|e]; cbn [bind]; [|discriminate]
  end.
  intros H. injection H as <-. eauto.
Qed.

(** X4.  A question object gets the id [q-0] whatever it holds: the
    extractions of two such objects, appended as the handlers append
    them, share the id, so that [deleteQuestion] of it removes both and
    [updateQuestion] of it overwrites both. *)
Theorem single_objects_share_an_id
  (d1 d2 : json) (qs1 qs2 : list MCQQuestion)
  (S1 : shapeOk d1 = true) (S2 : shapeOk d2 = true)
  (H1 : parseJSONFormat d1 = Ok qs1) (H2 : parseJSONFormat d2 = Ok qs2) :
  exists q1 q2,
    qs1 = [q1] /\ qs2 = [q2] /\
    id q1 = js "q-0" /\ id q2 = js "q-0" /\
    deleteQuestion (id q1) (qs1 ++ qs2) = [] /\
    forall updates,
      updateQuestion (id q1) updates (qs1 ++ qs2)
      = [merge q1 updates; merge q2 updates].
Proof.
  assert (forall d qs, shapeOk d = true -> parseJSONFormat d = Ok qs ->
                       exists q, qs = [q] /\ id q = js "q-0") as One.
  { intros d qs S H. pose proof S as S'.
    destruct d as [| | | | |fields]; try discriminate.
    cbn [shapeOk] in S. apply andb_prop in S. destruct S as [S _].
    apply andb_prop in S. destruct S as [Tq To].
    unfold parseJSONFormat in H. cbn [get bind] in H.
    rewrite Tq in H. cbn [bind] in H. rewrite To in H.
    destruct (parseJSONQuestion (JObj fields) 0) as [r|e] eqn:E;
      cbn [bind] in H; [|discriminate].
    destruct (parseJSONQuestion_shaped _ _ _ S' E) as [q ->].
    injection H as <-. exists q. split; [reflexivity|].
    apply parseJSONQuestion_inv in E.
    now destruct E as (? & ? & ? & _ & _ & _ & _ & E & _). }
  destruct (One d1 qs1 S1 H1) as (q1 & -> & I1).
  destruct (One d2 qs2 S2 H2) as (q2 & -> & I2).
  exists q1, q2. repeat split; auto.
  - cbn. unfold hasId, jstring_eqb. rewrite I1, I2.
    destruct (list_eq_dec N.eq_dec (js "q-0") (js "q-0")); [reflexivity | congruence].
  - intros updates. cbn. unfold hasId, jstring_eqb. rewrite I1, I2.
    destruct (list_eq_dec N.eq_dec (js "q-0") (js "q-0")); [reflexivity | congruence].
Qed.

End MoreJson.

Lemma single_objects_share_an_id_witness :
  exists q1 q2,
    @parseJSONFormat asciiCase capitals = Ok [q1] /\
    @parseJSONFormat asciiCase explained = Ok [q2] /\
    id q1 = js "q-0" /\ id q2 = js "q-0" /\
    deleteQuestion (js "q-0") ([q1] ++ [q2]) = [].
Proof.
  pose (qs1 := match @parseJSONFormat asciiCase capitals with
               | Ok l => l | Throw _ => [] end).
  pose (qs2 := match @parseJSONFormat asciiCase explained with
               | Ok l => l | Throw _ => [] end).
  assert (@parseJSONFormat asciiCase capitals = Ok qs1) as H1
    by (vm_compute; reflexivity).
  assert (@parseJSONFormat asciiCase explained = Ok qs2) as H2
    by (vm_compute; reflexivity).
  destruct (@single_objects_share_an_id asciiCase capitals explained qs1 qs2
              eq_refl eq_refl H1 H2)
    as (q1 & q2 & E1 & E2 & I1 & I2 & D & _).
  exists q1, q2. rewrite E1 in H1, D. rewrite E2 in H2, D. rewrite I1 in D.
  repeat split; assumption.
Defined.

(* ================================================================== *)
(** ** Further properties: the editing operations *)

Lemma indexed_keep (l : list jstring) (j k : nat) :
  (k < j)%nat ->
  map snd (filter (fun p => negb (Z.of_nat (fst p) =? Z.of_nat k)%Z)
             (indexed_from j l)) = l.
Proof.
  revert j. induction l as [|x l IH]; intros j Hj; cbn [indexed_from filter map fst];
    [reflexivity|].
  destruct (Z.eqb_spec (Z.of_nat j) (Z.of_nat k)); [lia|].
  cbn [negb map snd]. f_equal. apply IH. lia.
Qed.

Lemma withoutIndex_from (opts : list jstring) (k n : nat) :
  map snd
    (filter (fun p => negb (Z.of_nat (fst p) =? Z.of_nat (k + n))%Z)
       (indexed_from k opts))
  = firstn n opts ++ skipn (S n) opts.
Proof.
  revert k n. induction opts as [|o t IH]; intros k n; cbn [indexed_from filter map fst].
  - now destruct n.
  - destruct n as [|n].
    + rewrite Nat.add_0_r, Z.eqb_refl. cbn [negb firstn skipn app].
      apply indexed_keep. lia.
    + destruct (Z.eqb_spec (Z.of_nat k) (Z.of_nat (k + S n))); [lia|].
      cbn [negb map snd firstn skipn app]. f_equal.
      replace (k + S n)%nat with (S k + n)%nat by lia. apply IH.
Qed.

(** [withoutIndex] at a position of the list removes the option there;
    at any other index it removes nothing. *)
Lemma withoutIndex_at (opts : list jstring) (n : nat) :
  withoutIndex (Z.of_nat n) opts = firstn n opts ++ skipn (S n) opts.
Proof. unfold withoutIndex, indexed. apply (withoutIndex_from opts 0 n). Qed.

Lemma withoutIndex_length (opts : list jstring) (optionIndex : Z) :
  (0 <= optionIndex)%Z ->
  List.length (withoutIndex optionIndex opts)
  = if (optionIndex <? Z.of_nat (List.length opts))%Z
    then (List.length opts - 1)%nat else List.length opts.
Proof.
  intros H. rewrite <- (Z2Nat.id optionIndex H). rewrite withoutIndex_at.
  rewrite length_app, length_firstn, length_skipn.
  destruct (Z.ltb_spec (Z.of_nat (Z.to_nat optionIndex)) (Z.of_nat (List.length opts))); lia.
Qed.

Lemma shiftedAnswer_range (optionIndex ca : Z) (opts : list jstring) :
  (0 <= optionIndex)%Z -> (2 < List.length opts)%nat ->
  (0 <= ca < Z.of_nat (List.length opts))%Z ->
  (0 <= shiftedAnswer optionIndex ca
   < Z.of_nat (List.length (withoutIndex optionIndex opts)))%Z.
Proof.
  intros Hi Hl Hc. rewrite withoutIndex_length by exact Hi.
  unfold shiftedAnswer.
  destruct (Z.gtb_spec ca optionIndex); [|destruct (Z.eqb_spec ca optionIndex)];
    destruct (Z.ltb_spec optionIndex (Z.of_nat (List.length opts))); lia.
Qed.

(** X5.  The option edits of the preview keep the invariant of the data
    model: on valid questions, [deleteOption] at an index that is not
    negative and [addOption] give valid questions; they keep the ids,
    and [deleteOption] leaves at least two options where there were. *)
Theorem option_edits_keep_validity
  (questionId : jstring) (optionIndex : Z) (prev : list MCQQuestion)
  (Hindex : (0 <= optionIndex)%Z) (Hvalid : Forall validQuestion prev) :
  Forall validQuestion (deleteOption questionId optionIndex prev) /\
  Forall validQuestion (addOption questionId prev) /\
  map id (deleteOption questionId optionIndex prev) = map id prev /\
  map id (addOption questionId prev) = map id prev /\
  (Forall (fun q => 2 <= List.length (options q))%nat prev ->
   Forall (fun q => 2 <= List.length (options q))%nat
     (deleteOption questionId optionIndex prev)).
Proof.
  unfold deleteOption, addOption. repeat split.
  - apply Forall_map. eapply Forall_impl; [|exact Hvalid]. intros q [Hne Hc].
    destruct (hasId questionId q && (2 <? List.length (options q))) eqn:G;
      [|now split].
    apply andb_prop in G. destruct G as [_ G]. apply Nat.ltb_lt in G.
    pose proof (shiftedAnswer_range optionIndex _ _ Hindex G Hc) as R.
    split; cbn [setOptionsOf options correctAnswer]; [|exact R].
    intros E. rewrite E in R. cbn in R. lia.
  - apply Forall_map. eapply Forall_impl; [|exact Hvalid]. intros q [Hne Hc].
    destruct (hasId questionId q); [|now split].
    split; cbn [setOptionsOf options correctAnswer].
    + intros E. now apply app_eq_nil in E.
    + rewrite length_app. cbn [List.length]. lia.
  - rewrite map_map. apply map_ext. intros q.
    now destruct (hasId questionId q && (2 <? List.length (options q))).
  - rewrite map_map. apply map_ext. intros q.
    now destruct (hasId questionId q).
  - intros H. apply Forall_map. eapply Forall_impl; [|exact H]. intros q Hq.
    cbn beta.
    destruct (hasId questionId q && (2 <? List.length (options q))) eqn:G;
      [|exact Hq].
    apply andb_prop in G. destruct G as [_ G]. apply Nat.ltb_lt in G.
    cbn [setOptionsOf options]. rewrite withoutIndex_length by exact Hindex.
    destruct (optionIndex <? Z.of_nat (List.length (options q)))%Z; lia.
Qed.

(** X6.  After [deleteOption] removes an option other than the correct one,
    [correctAnswer] designates the same option text as before; when it
    removes the correct one, the first of the remaining options becomes
    the correct one. *)
Theorem deleteOption_tracks_the_correct_option
  (q : MCQQuestion) (optionIndex : Z)
  (Hindex : (0 <= optionIndex)%Z)
  (Hvalid : validQuestion q) (Hmany : (2 < List.length (options q))%nat) :
  exists q',
    deleteOption (id q) optionIndex [q] = [q'] /\
    (optionIndex <> correctAnswer q ->
     nth_error (options q') (Z.to_nat (correctAnswer q'))
     = nth_error (options q) (Z.to_nat (correctAnswer q))) /\
    (optionIndex = correctAnswer q ->
     correctAnswer q' = 0%Z /\
     options q' = firstn (Z.to_nat optionIndex) (options q)
                  ++ skipn (S (Z.to_nat optionIndex)) (options q)).
Proof.
  destruct Hvalid as [_ Hc].
  destruct (Z_of_nat_complete optionIndex Hindex) as [n ->].
  rewrite Nat2Z.id.
  exists (setOptionsOf q (withoutIndex (Z.of_nat n) (options q))
            (shiftedAnswer (Z.of_nat n) (correctAnswer q))).
  split.
  - cbn [deleteOption map]. unfold hasId, jstring_eqb.
    destruct (list_eq_dec N.eq_dec (id q) (id q)) as [_|N]; [|congruence].
    apply Nat.ltb_lt in Hmany. now rewrite Hmany.
  - cbn [setOptionsOf options correctAnswer].
    rewrite !withoutIndex_at.
    unfold shiftedAnswer. split.
    + intros Hne.
      destruct (Z.gtb_spec (correctAnswer q) (Z.of_nat n)) as [G|G].
      * rewrite nth_error_app2 by (rewrite length_firstn; lia).
        rewrite length_firstn, nth_error_skipn. f_equal. lia.
      * destruct (Z.eqb_spec (correctAnswer q) (Z.of_nat n)); [congruence|].
        rewrite nth_error_app1 by (rewrite length_firstn; lia).
        rewrite nth_error_firstn.
        destruct (Nat.ltb_spec (Z.to_nat (correctAnswer q)) n); [reflexivity | lia].
    + intros E. rewrite <- E, Z.eqb_refl.
      destruct (Z.gtb_spec (Z.of_nat n) (Z.of_nat n)); [lia|].
      now split.
Qed.

Lemma option_edits_keep_validity_witness :
  Forall validQuestion (deleteOption (js "q-7") 1 [newQuestion 7]) /\
  Forall validQuestion (addOption (js "q-7") [newQuestion 7]).
Proof.
  assert (Forall validQuestion [newQuestion 7]) as V.
  { constructor; [|constructor]. split; [discriminate | vm_compute; split; [discriminate | reflexivity]]. }
  destruct (option_edits_keep_validity (js "q-7") 1 [newQuestion 7]
              ltac:(lia) V) as (D & A & _).
  split; assumption.
Defined.

Lemma deleteOption_tracks_the_correct_option_witness :
  exists q',
    deleteOption (js "q-0") 0 [abcd] = [q'] /\
    nth_error (options q') (Z.to_nat (correctAnswer q')) = Some (js "c").
Proof.
  assert (validQuestion abcd) as V.
  { split; [discriminate | vm_compute; split; [discriminate | reflexivity]]. }
  assert (2 < List.length (options abcd))%nat as M.
  { vm_compute. lia. }
  destruct (deleteOption_tracks_the_correct_option abcd 0 ltac:(lia) V M)
    as (q' & E & K & _).
  exists q'. split; [exact E|]. rewrite K; [reflexivity | discriminate].
Defined.

Lemma hasId_refl (q : MCQQuestion) : hasId (id q) q = true.
Proof.
  unfold hasId, jstring_eqb.
  destruct (list_eq_dec N.eq_dec (id q) (id q)); [reflexivity | congruence].
Qed.

Lemma hasId_eq (questionId : jstring) (q : MCQQuestion) :
  hasId questionId q = true -> id q = questionId.
Proof.
  unfold hasId, jstring_eqb.
  destruct (list_eq_dec N.eq_dec (id q) questionId); [auto | discriminate].
Qed.

(** X7.  [deleteOption] undoes [addOption]: removing the option [addOption]
    has appended gives the questions back, when the question edited had
    at least two options and a [correctAnswer] among them. *)
Theorem deleteOption_undoes_addOption
  (questionId : jstring) (n : nat) (prev : list MCQQuestion)
  (Hprev : Forall (fun q => hasId questionId q = true ->
                            List.length (options q) = n /\ (2 <= n)%nat /\
                            (correctAnswer q < Z.of_nat n)%Z) prev) :
  deleteOption questionId (Z.of_nat n) (addOption questionId prev) = prev.
Proof.
  unfold deleteOption, addOption. rewrite map_map.
  rewrite <- (map_id prev) at 2. apply map_ext_Forall.
  eapply Forall_impl; [|exact Hprev]. intros q Hq. cbn beta.
  destruct (hasId questionId q) eqn:I.
  - destruct (Hq I) as (L & N2 & C).
    unfold hasId in *. cbn [setOptionsOf id options correctAnswer].
    rewrite I, length_app. cbn [List.length andb].
    destruct (Nat.ltb_spec 2 (List.length (options q) + 1)); [|lia].
    rewrite withoutIndex_at, <- L.
    rewrite firstn_app, firstn_all, Nat.sub_diag. cbn [firstn].
    rewrite skipn_all2 by (rewrite length_app; cbn; lia).
    rewrite !app_nil_r. unfold shiftedAnswer.
    destruct (Z.gtb_spec (correctAnswer q) (Z.of_nat (List.length (options q)))); [lia|].
    destruct (Z.eqb_spec (correctAnswer q) (Z.of_nat (List.length (options q)))); [lia|].
    now destruct q.
  - rewrite I. reflexivity.
Qed.

Lemma deleteOption_undoes_addOption_witness :
  deleteOption (js "q-0") 4 (addOption (js "q-0") [abcd]) = [abcd].
Proof.
  apply (deleteOption_undoes_addOption (js "q-0") 4 [abcd]).
  constructor; [|constructor]. intros _.
  split; [reflexivity | split; [lia | reflexivity]].
Defined.

Lemma updateQuestion_unique (q : MCQQuestion) (updates : questionUpdates)
  (prev : list MCQQuestion) :
  In q prev -> NoDup (map id prev) -> merge q updates = q ->
  updateQuestion (id q) updates prev = prev.
Proof.
  intros Hin Hnd Hm. unfold updateQuestion.
  rewrite <- (map_id prev) at 2. apply map_ext_in. intros q' Hin'.
  destruct (hasId (id q) q') eqn:I; [|reflexivity].
  apply hasId_eq in I.
  assert (q' = q) as ->; [|exact Hm].
  clear Hm. induction prev as [|x t IH]; [destruct Hin|].
  cbn [map] in Hnd. inversion Hnd as [|? ? Hx Ht]; subst.
  destruct Hin as [->|Hin], Hin' as [->|Hin']; auto.
  - exfalso. apply Hx. rewrite <- I. now apply in_map.
  - exfalso. apply Hx. rewrite I. now apply in_map.
Qed.

(** Opening the editor on a question and saving without an edit gives
    the question back, when its optional fields are absent or truthy. *)
Lemma save_unedited (q : MCQQuestion) :
  explanation q = None \/ truthy (explanation q) = true ->
  additionalSections q <> Some [] ->
  merge q (handleSave (openEditor q)) = q.
Proof.
  intros He Hs. destruct q as [i qu o c e a]. cbn -[truthy] in *.
  unfold merge, handleSave, openEditor. cbn -[truthy]. f_equal.
  - destruct He as [->|T]; [reflexivity|]. rewrite T.
    destruct e as [v|]; [|discriminate]. now rewrite T.
  - destruct a as [[|x l]|]; [congruence | reflexivity | reflexivity].
Qed.

Lemma completed_optional (p : partialQuestion) (counter : Z) (q : MCQQuestion) :
  completed p counter = Some q ->
  additionalSections q = None /\
  (explanation q = None \/ exists s, explanation q = Some (JStr s)).
Proof.
  unfold completed.
  destruct (pQuestion p) as [t|]; [|discriminate].
  destruct (pOptions p) as [opts|]; [|discriminate].
  destruct (nonempty t); [|discriminate].
  intros H. injection H as <-. cbn. split; [reflexivity|].
  destruct (pExplanation p); cbn; eauto.
Qed.

Lemma linePattern_optional (now : Z) (text : jstring) :
  Forall (fun q => additionalSections q = None /\
                   (explanation q = None \/ exists s, explanation q = Some (JStr s)))
    (parseLinePattern now text).
Proof.
  unfold parseLinePattern.
  match goal with
  | |- context [fold_left textLine ?lines ?init] =>
      assert (Forall (fun q => additionalSections q = None /\
                               (explanation q = None \/
                                exists e, explanation q = Some (JStr e)))
                (questions (fold_left textLine lines init))) as F;
      [ assert (Forall (fun q => additionalSections q = None /\
                                 (explanation q = None \/
                                  exists e, explanation q = Some (JStr e)))
                  (questions init)) as F0 by constructor;
        revert F0; generalize init; induction lines as [|x t IH]; intros s0 F0;
        [exact F0|]
      | set (st := fold_left textLine lines init) in * ]
  end.
  - cbn [fold_left]. apply IH. unfold textLine.
    destruct (_ || _).
    + destruct (completed _ _) as [q|] eqn:C; cbn [questions]; [|exact F0].
      apply Forall_app. split; [exact F0|]. constructor; [|constructor].
      now apply completed_optional in C.
    + destruct (testAt Pattern.optionPrefix x); [exact F0|].
      destruct (testAt Pattern.answerLine x).
      * destruct (exec Pattern.anyLetterAD x) as [[r [[|a u]|]]|]; exact F0.
      * destruct (testAt Pattern.explanationLine x); exact F0.
  - destruct (completed _ _) as [q|] eqn:C; [|exact F].
    apply Forall_app. split; [exact F|]. constructor; [|constructor].
    now apply completed_optional in C.
Qed.

Lemma linePattern_NoDup (now : Z) (text : jstring) :
  NoDup (map id (parseLinePattern now text)).
Proof.
  rewrite linePattern_ids.
  apply Injective_map_NoDup; [|apply seq_NoDup].
  intros a b H. apply questionId_inj in H. lia.
Qed.

Section EditorFacts.
Context {caseTable : CaseTable}.

Lemma parseJSONQuestion_optional (item : json) (index : nat) (q : MCQQuestion) :
  parseJSONQuestion item index = Ok (Some q) ->
  (explanation q = None \/ truthy (explanation q) = true) /\
  additionalSections q <> Some [].
Proof.
  intros H. apply parseJSONQuestion_inv in H.
  destruct H as (fields & qv & strs & -> & _ & _ & _ & _ & _ & _ & _ & E & A).
  rewrite E, A. split.
  - destruct (truthy (lookup (js "reasoning") fields)) eqn:R; [now right|].
    destruct (truthy (lookup (js "explanation") fields)) eqn:X; [now right | now left].
  - destruct (sectionsOfItem (JObj fields)); cbn; congruence.
Qed.

Lemma parseBlock_optional (blk : jstring) (index : nat) (q : MCQQuestion) :
  parseBlock blk index = Some q ->
  (explanation q = None \/ truthy (explanation q) = true) /\
  additionalSections q <> Some [].
Proof.
  unfold parseBlock.
  destruct (negb _); [discriminate|].
  destruct (_ && _); [|discriminate].
  intros H. injection H as <-. cbn [explanation additionalSections]. split.
  - destruct (nonempty (bExplanation (scanBlock blk))) eqn:N; [right | now left].
    exact N.
  - destruct (bAdditionalSections (scanBlock blk)); cbn; congruence.
Qed.

(** X8.  A save of an unedited editor writes the question over every
    question that has its id.  For an editor in its initial state (the
    values [useState] takes from [q]) and a [q] whose optional fields are
    absent or truthy: [handleSave] through [updateQuestion] turns each
    question of the list with the id of [q] into [q] and leaves the
    others; so a list with pairwise distinct ids that holds [q] is left
    as it is, while a second question with the same id is overwritten.
    One parse returns such a list: the save leaves as they are the
    questions of the JSON extractor, those of the structured-header
    parser, and those of the line-pattern pass whose explanation is not
    the empty text (which a save turns into an absent one). *)
Theorem unedited_save_overwrites_by_id :
  (forall prev q,
     savedAsIs q ->
     saveEditor q (openEditor q) prev
     = map (fun x => if hasId (id q) x then q else x) prev) /\
  (forall prev q,
     savedAsIs q -> In q prev -> NoDup (map id prev) ->
     saveEditor q (openEditor q) prev = prev) /\
  (forall q x,
     savedAsIs q -> id x = id q ->
     saveEditor q (openEditor q) [q; x] = [q; q]) /\
  (forall data qs q,
     parseJSONFormat data = Ok qs -> In q qs ->
     saveEditor q (openEditor q) qs = qs) /\
  (forall text q,
     In q (parseStructuredFormat text) ->
     saveEditor q (openEditor q) (parseStructuredFormat text)
     = parseStructuredFormat text) /\
  (forall now text q,
     In q (parseLinePattern now text) ->
     explanation q <> Some (JStr []) ->
     saveEditor q (openEditor q) (parseLinePattern now text)
     = parseLinePattern now text).
Proof.
  assert (forall prev q,
            savedAsIs q ->
            saveEditor q (openEditor q) prev
            = map (fun x => if hasId (id q) x then q else x) prev) as Over.
  { intros prev q [He Hs]. unfold saveEditor, updateQuestion.
    apply map_ext. intros x.
    destruct (hasId (id q) x) eqn:I; [|reflexivity].
    apply hasId_eq in I.
    transitivity (merge q (handleSave (openEditor q)));
      [|now apply save_unedited].
    unfold merge, handleSave, orKeep.
    cbn [uId uQuestion uOptions uCorrectAnswer uExplanation uAdditionalSections].
    now rewrite I. }
  split; [exact Over|]. split; [|split; [|split; [|split]]].
  - intros prev q [He Hs] Hin Hnd. unfold saveEditor.
    apply updateQuestion_unique; [exact Hin | exact Hnd |].
    now apply save_unedited.
  - intros q x Hq I. rewrite (Over _ _ Hq). cbn [map].
    rewrite hasId_refl. unfold hasId, jstring_eqb. rewrite I.
    destruct (list_eq_dec N.eq_dec (id q) (id q)); [reflexivity | congruence].
  - intros data qs q H Hin. unfold saveEditor.
    apply updateQuestion_unique; [exact Hin| |].
    + apply idsFrom_NoDup with (i := 0%nat). now apply parseJSONFormat_ids with (data := data).
    + destruct (parseJSONFormat_In _ _ _ H Hin) as (item & index & Hq).
      apply parseJSONQuestion_optional in Hq. now apply save_unedited.
  - intros text q Hin. unfold saveEditor.
    apply updateQuestion_unique; [exact Hin| |].
    + apply idsFrom_NoDup with (i := 0%nat). apply structured_idsFrom.
    + destruct (parseStructuredFormat_In _ _ Hin) as (blk & index & Hq).
      apply parseBlock_optional in Hq. now apply save_unedited.
  - intros now text q Hin Hne. unfold saveEditor.
    apply updateQuestion_unique; [exact Hin | apply linePattern_NoDup |].
    pose proof (linePattern_optional now text) as F.
    rewrite Forall_forall in F. destruct (F q Hin) as (A & E).
    apply save_unedited; [|rewrite A; discriminate].
    destruct E as [E|(s & E)]; [now left|]. right. rewrite E in *.
    destruct s; [congruence | reflexivity].
Qed.

End EditorFacts.

(** X9.  The editor's own option buttons and the preview's agree: deleting
    or adding an option in the editor and saving gives the question
    [deleteOption] or [addOption] gives. *)
Theorem editor_option_edits_agree (q : MCQQuestion) (index : Z)
  (He : explanation q = None \/ truthy (explanation q) = true)
  (Hs : additionalSections q <> Some []) :
  saveEditor q (handleDeleteOption index (openEditor q)) [q]
  = deleteOption (id q) index [q] /\
  saveEditor q (handleAddOption (openEditor q)) [q] = addOption (id q) [q].
Proof.
  pose proof (save_unedited q He Hs) as S.
  unfold saveEditor, updateQuestion, deleteOption, addOption. cbn [map].
  rewrite hasId_refl. cbn [andb]. split.
  - unfold handleDeleteOption. cbn [openEditor editedOptions].
    destruct (2 <? List.length (options q)); [|now rewrite S].
    f_equal. destruct q as [i qu o c e a].
    unfold merge, handleSave, openEditor, setOptionsOf, shiftedAnswer in *. cbn in *.
    injection S as S1 S2. f_equal; assumption.
  - f_equal. destruct q as [i qu o c e a].
    unfold merge, handleSave, openEditor, handleAddOption, setOptionsOf in *. cbn in *.
    injection S as S1 S2. f_equal; assumption.
Qed.

Lemma editor_option_edits_agree_witness :
  saveEditor abcd (handleDeleteOption 1 (openEditor abcd)) [abcd]
  = deleteOption (js "q-0") 1 [abcd] /\
  saveEditor abcd (handleAddOption (openEditor abcd)) [abcd]
  = addOption (js "q-0") [abcd].
Proof.
  apply (editor_option_edits_agree abcd 1); [left; reflexivity | discriminate].
Defined.

(* ================================================================== *)
(** ** Further properties: the line-pattern parser *)

Lemma completed_unstarted (p : partialQuestion) (counter : Z) :
  pQuestion p = None -> completed p counter = None.
Proof. unfold completed. now intros ->. Qed.

Lemma textLine_unstarted (s1 s2 : lineState) (line : jstring) :
  sameButUnstarted s1 s2 -> sameButUnstarted (textLine s1 line) (textLine s2 line).
Proof.
  intros (Q & C & P). unfold textLine.
  destruct (testAt Pattern.numbered line || testAt Pattern.qPrefixed line).
  { rewrite Q, C.
    destruct P as [->|[P1 P2]].
    - destruct (completed _ _); repeat split; auto.
    - rewrite !completed_unstarted by assumption. repeat split; auto. }
  destruct (testAt Pattern.optionPrefix line).
  { destruct P as [P|[P1 P2]]; [rewrite P|]; repeat split; auto. }
  destruct (testAt Pattern.answerLine line).
  { destruct (exec Pattern.anyLetterAD line) as [[r [[|a l]|]]|];
      try (repeat split; assumption).
    destruct P as [P|[P1 P2]]; [rewrite P|]; repeat split; auto. }
  destruct (testAt Pattern.explanationLine line).
  { destruct P as [P|[P1 P2]]; [rewrite P|]; repeat split; auto. }
  repeat split; auto.
Qed.

Lemma textLine_before_question (st : lineState) (line : jstring) :
  testAt Pattern.numbered line || testAt Pattern.qPrefixed line = false ->
  pQuestion (currentQuestion st) = None ->
  sameButUnstarted (textLine st line) st.
Proof.
  intros T P. unfold textLine. rewrite T.
  destruct (testAt Pattern.optionPrefix line); [repeat split; auto|].
  destruct (testAt Pattern.answerLine line).
  { destruct (exec Pattern.anyLetterAD line) as [[r [[|a l]|]]|];
      repeat split; auto. }
  destruct (testAt Pattern.explanationLine line); repeat split; auto.
Qed.

Lemma fold_textLine_unstarted (lines : list jstring) (s1 s2 : lineState) :
  sameButUnstarted s1 s2 ->
  sameButUnstarted (fold_left textLine lines s1) (fold_left textLine lines s2).
Proof.
  revert s1 s2. induction lines as [|l t IH]; intros s1 s2 H; [exact H|].
  cbn [fold_left]. apply IH, textLine_unstarted, H.
Qed.

Lemma fold_textLine_before_question (pre : list jstring) (st : lineState) :
  Forall (fun line => testAt Pattern.numbered line
                      || testAt Pattern.qPrefixed line = false) pre ->
  pQuestion (currentQuestion st) = None ->
  sameButUnstarted (fold_left textLine pre st) st.
Proof.
  intros F. revert st. induction F as [|l t Hl F IH]; intros st P.
  - repeat split; auto.
  - cbn [fold_left].
    pose proof (textLine_before_question st l Hl P) as (Q & C & K).
    assert (pQuestion (currentQuestion (textLine st l)) = None) as P'.
    { destruct K as [->|[K _]]; assumption. }
    destruct (IH _ P') as (Q' & C' & K').
    repeat split; [congruence | congruence |].
    right. split; [|exact P]. destruct K' as [->|[K' _]]; assumption.
Qed.

Lemma lines_after_leading (pre rest : list jstring) (st : lineState) :
  Forall (fun line => testAt Pattern.numbered line
                      || testAt Pattern.qPrefixed line = false) pre ->
  pQuestion (currentQuestion st) = None ->
  sameButUnstarted (fold_left textLine (pre ++ rest) st) (fold_left textLine rest st).
Proof.
  intros F P. rewrite fold_left_app.
  apply fold_textLine_unstarted, fold_textLine_before_question; assumption.
Qed.

(** The exit of the loop gives the same questions from two such states. *)
Lemma exit_unstarted (s1 s2 : lineState) :
  sameButUnstarted s1 s2 ->
  match completed (currentQuestion s1) (questionCounter s1) with
  | Some q => questions s1 ++ [q]
  | None => questions s1
  end
  = match completed (currentQuestion s2) (questionCounter s2) with
    | Some q => questions s2 ++ [q]
    | None => questions s2
    end.
Proof.
  intros (Q & C & [P|[P1 P2]]).
  - now rewrite Q, C, P.
  - rewrite !completed_unstarted by assumption. exact Q.
Qed.

(** X10.  The line-pattern pass ignores whatever precedes the first question
    line: lines that are neither numbered nor Q-prefixed, put before a
    text, leave its result as it is. *)
Theorem leading_lines_are_ignored
  (now : Z) (text text' : jstring) (pre : list jstring)
  (Hlines : textLines text = pre ++ textLines text')
  (Hpre : Forall (fun line => testAt Pattern.numbered line
                              || testAt Pattern.qPrefixed line = false) pre) :
  parseLinePattern now text = parseLinePattern now text'.
Proof.
  unfold parseLinePattern. rewrite Hlines.
  apply exit_unstarted, lines_after_leading; [exact Hpre | reflexivity].
Qed.

Lemma leading_lines_are_ignored_witness :
  parseLinePattern 5 (js "Chapter one" ++ [10%N] ++ js "A. stray"
                      ++ [10%N] ++ js "1. Q?" ++ [10%N] ++ js "A. x")
  = parseLinePattern 5 (js "1. Q?" ++ [10%N] ++ js "A. x").
Proof.
  apply (leading_lines_are_ignored 5 _ _ [js "Chapter one"; js "A. stray"]).
  - vm_compute. reflexivity.
  - repeat constructor.
Defined.

Lemma exec_none (r : regex) (x : char) (t : jstring) :
  test r (x :: t) = false -> testAt r (x :: t) = false /\ test r t = false.
Proof.
  unfold test, testAt. cbn [exec].
  destruct (matchAt r (x :: t)); [discriminate|]. auto.
Qed.

Lemma splitBefore_unmatched (r : regex) (s cur : jstring) :
  test r s = false -> splitBefore_aux r cur s = [rev cur ++ s].
Proof.
  revert cur. induction s as [|x t IH]; intros cur H; cbn [splitBefore_aux].
  - now rewrite app_nil_r.
  - apply exec_none in H. destruct H as [H1 H2].
    rewrite H1, andb_false_r, IH by exact H2. cbn [rev].
    now rewrite <- app_assoc.
Qed.

Section NothingFound.
Context {caseTable : CaseTable}.

(** A text in which no Question label occurs has no structured
    question. *)
Lemma structured_unlabelled (text : jstring) :
  test Pattern.questionLabel text = false -> parseStructuredFormat text = [].
Proof.
  intros H. unfold parseStructuredFormat, questionBlocks, splitBefore.
  rewrite splitBefore_unmatched by exact H. cbn [rev app filter].
  destruct (nonempty (trim text)); [|reflexivity].
  cbn [indexed indexed_from flat_map]. unfold parseBlock. rewrite H. reflexivity.
Qed.

(** X11.  A text with no Question label and no numbered or Q-prefixed line
    yields no question at all. *)
Theorem text_without_a_question_yields_nothing (now : Z) (text : jstring)
  (Hlabel : test Pattern.questionLabel text = false)
  (Hlines : Forall (fun line => testAt Pattern.numbered line
                                || testAt Pattern.qPrefixed line = false)
              (textLines text)) :
  parseMCQText now text = [].
Proof.
  unfold parseMCQText. rewrite structured_unlabelled by exact Hlabel.
  cbn [List.length Nat.ltb Nat.leb]. unfold parseLinePattern.
  rewrite <- (app_nil_r (textLines text)).
  erewrite exit_unstarted
    by (apply lines_after_leading; [exact Hlines | reflexivity]).
  reflexivity.
Qed.

End NothingFound.

Lemma text_without_a_question_yields_nothing_witness :
  @parseMCQText asciiCase 5 (js "Some prose" ++ [10%N] ++ js "A. stray *") = [].
Proof.
  apply (@text_without_a_question_yields_nothing asciiCase 5).
  - vm_compute. reflexivity.
  - repeat constructor.
Defined.

Lemma trimStart_keeps (s : jstring) (x : char) :
  In x s -> CharClass.space x = false -> In x (trimStart s).
Proof.
  induction s as [|c t IH]; intros Hin Hx; [destruct Hin|].
  cbn [trimStart]. destruct (CharClass.space c) eqn:Sc; [|exact Hin].
  destruct Hin as [->|Hin]; [congruence | auto].
Qed.

Lemma trim_keeps (s : jstring) (x : char) :
  In x s -> CharClass.space x = false -> In x (trim s).
Proof.
  intros Hin Hx. unfold trim, trimEnd.
  apply in_rev. rewrite rev_involutive.
  apply trimStart_keeps; [|exact Hx]. apply -> in_rev.
  now apply trimStart_keeps.
Qed.

(** What [/^[A-Da-d][.)]\s/] matches: three units, a letter, a dot or a
    closing parenthesis, and a space. *)
Lemma optionPrefix_inv (line : jstring) :
  testAt Pattern.optionPrefix line = true ->
  exists c1 c2 c3 t,
    line = c1 :: c2 :: c3 :: t /\
    CharClass.letterAD c1 = true /\ (c2 = 46%N \/ c2 = 41%N) /\
    CharClass.space c3 = true /\
    removeAt Pattern.optionPrefix line = t.
Proof.
  unfold testAt, removeAt, matchAt, Pattern.optionPrefix.
  cbn [Seq matcher].
  destruct line as [|c1 [|c2 [|c3 t]]]; try discriminate;
    destruct (CharClass.letterAD c1) eqn:L; try discriminate;
    destruct (CharClass.one 46%N c2 || CharClass.one 41%N c2) eqn:P; try discriminate.
  destruct (CharClass.space c3) eqn:S; [|discriminate].
  intros _. exists c1, c2, c3, t. repeat split; auto.
  apply orb_prop in P. unfold CharClass.one in P.
  destruct P as [P|P]; apply N.eqb_eq in P; auto.
Qed.

(** X12.  The line-pattern pass keeps the mark of an option in its text: an
    option line that bears an asterisk or a check mark makes its option
    the correct one, and the option stored still bears the mark. *)
Theorem line_option_keeps_its_mark (st : lineState) (line : jstring) (mark : char)
  (Hmark : mark = 42%N \/ mark = CHECK)
  (Hquestion : testAt Pattern.numbered line || testAt Pattern.qPrefixed line = false)
  (Hoption : testAt Pattern.optionPrefix line = true)
  (Hmarked : has mark line = true) :
  exists optionText,
    pOptions (currentQuestion (textLine st line))
    = Some (optionsOrEmpty (currentQuestion st) ++ [optionText]) /\
    has mark optionText = true /\
    pCorrectAnswer (currentQuestion (textLine st line))
    = Some (Z.of_nat (List.length (optionsOrEmpty (currentQuestion st)))).
Proof.
  unfold textLine. rewrite Hquestion, Hoption.
  cbn [currentQuestion pOptions pCorrectAnswer].
  exists (trim (removeAt Pattern.optionPrefix line)). split; [reflexivity|].
  destruct (optionPrefix_inv line Hoption) as (c1 & c2 & c3 & t & -> & L & P & S & ->).
  split.
  - apply has_In. apply has_In in Hmarked.
    assert (CharClass.space mark = false) as Sm
      by (destruct Hmark as [-> | ->]; reflexivity).
    apply trim_keeps; [|exact Sm].
    destruct Hmarked as [E|[E|[E|Hin]]]; [| | |exact Hin]; exfalso; subst.
    + destruct Hmark as [-> | ->]; discriminate.
    + destruct Hmark as [M|M], P as [P|P]; rewrite M in P; discriminate.
    + congruence.
  - assert (has 42%N (c1 :: c2 :: c3 :: t) || has CHECK (c1 :: c2 :: c3 :: t) = true) as ->.
    { destruct Hmark as [-> | ->]; rewrite Hmarked; [reflexivity | apply orb_true_r]. }
    rewrite length_app. cbn [List.length]. f_equal. lia.
Qed.

Lemma line_option_keeps_its_mark_witness :
  exists optionText,
    pOptions (currentQuestion
                (textLine {| questions := [];
                             currentQuestion :=
                               {| pQuestion := Some (js "Capital of France?");
                                  pOptions := Some [js "London"];
                                  pCorrectAnswer := Some 0%Z;
                                  pExplanation := None |};
                             questionCounter := 0 |}
                   (js "B. Paris *")))
    = Some ([js "London"] ++ [optionText]) /\
    has 42%N optionText = true.
Proof.
  destruct (line_option_keeps_its_mark
              {| questions := [];
                 currentQuestion :=
                   {| pQuestion := Some (js "Capital of France?");
                      pOptions := Some [js "London"];
                      pCorrectAnswer := Some 0%Z;
                      pExplanation := None |};
                 questionCounter := 0 |}
              (js "B. Paris *") 42%N (or_introl eq_refl) eq_refl eq_refl eq_refl)
    as (o & E & M & _).
  exists o. split; [exact E | exact M].
Defined.

(* ================================================================== *)
(** ** Further properties: the dispatcher and the upload handler *)

Lemma updateAt_app (A : Type) (f : A -> A) (done : list A) (x : A) (t : list A) :
  updateAt (List.length done) f (done ++ x :: t) = done ++ f x :: t.
Proof. induction done as [|d done IH]; cbn; [reflexivity | now rewrite IH]. Qed.

Lemma filter_isSuccess_isFailed (l : list progress) :
  Forall (fun p => status p = Success \/ status p = Failed) l ->
  (List.length (filter isSuccess l) + List.length (filter isFailed l)
   = List.length l)%nat.
Proof.
  induction 1 as [|p l [H|H] _ IH]; [reflexivity| |];
    cbn [filter]; unfold isSuccess at 1, isFailed at 1; rewrite H; cbn [List.length]; lia.
Qed.

Lemma filter_none (A : Type) (p : A -> bool) (l : list A) :
  Forall (fun x => p x = false) l -> filter p l = [].
Proof. induction 1 as [|x l H _ IH]; cbn; [reflexivity | now rewrite H]. Qed.

Lemma filter_some (A : Type) (p : A -> bool) (l : list A) :
  Exists (fun x => p x = true) l -> (0 < List.length (filter p l))%nat.
Proof.
  induction 1 as [x l H|x l _ IH]; cbn [filter].
  - rewrite H. cbn. lia.
  - destruct (p x); cbn; lia.
Qed.

Section UploadFacts.
Context {caseTable : CaseTable} {host : Host}.

(** X13.  [parseText] never reads [rawText], the text of the main text area,
    although the Parse Questions button below that area calls it: on a
    component just mounted, whatever was typed there, the answer is that
    no text was entered. *)
Theorem main_text_area_is_not_read (existingTest : bool) (now : Z)
  (typed : jstring) (s : component) :
  parseText existingTest now (setRawText typed s)
  = setRawText typed (parseText existingTest now s) /\
  parseText existingTest now (setRawText typed initialState)
  = setUploadError (Some (js "Please enter some text to parse."))
      (setRawText typed initialState).
Proof.
  split; [|reflexivity].
  unfold parseText. cbn [setRawText addQuestionsText].
  destruct (negb _); [reflexivity|].
  destruct (_ =? 0)%nat; [reflexivity|].
  unfold deliver. destruct existingTest; reflexivity.
Qed.

(** X14.  What [parseText] leaves: when questions are found the error is
    cleared, the text emptied and the panel closed, and the questions
    are appended to a test under edit but put in place of the parsed
    ones otherwise; when none is found the error is set and the
    questions and the text stay as they were. *)
Theorem parseText_outcome (existingTest : bool) (now : Z) (s : component) :
  let s' := parseText existingTest now s in
  let found := parseAny now (addQuestionsText s) in
  (nonempty (trim (addQuestionsText s)) = true /\ found <> [] ->
   uploadError s' = None /\ addQuestionsText s' = [] /\
   showAddQuestions s' = false /\
   parsedQuestions s'
   = (if existingTest then parsedQuestions s ++ found else found) /\
   isPreviewMode s' = (if existingTest then isPreviewMode s else true)) /\
  (nonempty (trim (addQuestionsText s)) = false \/ found = [] ->
   uploadError s' <> None /\ parsedQuestions s' = parsedQuestions s /\
   addQuestionsText s' = addQuestionsText s /\
   isPreviewMode s' = isPreviewMode s /\
   showAddQuestions s' = showAddQuestions s).
Proof.
  cbv zeta. unfold parseText. split.
  - intros [T F]. rewrite T. cbn [negb].
    destruct (parseAny now (addQuestionsText s)) as [|q l] eqn:E; [congruence|].
    cbn [List.length Nat.eqb]. unfold deliver.
    destruct existingTest; repeat split.
  - intros H.
    destruct (nonempty (trim (addQuestionsText s))); cbn [negb];
      [|repeat split; discriminate].
    destruct H as [H | ->]; [discriminate|].
    cbn [List.length Nat.eqb]. repeat split; discriminate.
Qed.

(** What the loop writes for a file: a failure without questions, or a
    success with the questions the extractor returns for it, at least
    one. *)
Lemma processFile_cases (f : file) :
  (vStatus (processFile f) = Failed /\ vCount (processFile f) = None /\
   vQuestions (processFile f) = []) \/
  (vStatus (processFile f) = Success /\
   vCount (processFile f) = Some (List.length (vQuestions (processFile f))) /\
   vQuestions (processFile f) <> []).
Proof.
  unfold processFile.
  destruct (negb (jstring_eqb _ _)); [now left|].
  destruct (size f >? _)%Z; [now left|].
  destruct (fileContent f) as [content|]; [|now left].
  destruct (negb (nonempty _)); [now left|].
  destruct (jsonParse content) as [data|]; [|now left].
  destruct (parseJSONFormat data) as [[|q qs]|e]; [now left | | now left].
  right. cbn. repeat split. discriminate.
Qed.

Lemma uploadLoop_from (files : list file) :
  forall (done : list progress) (u : upload),
  progressArray u
  = done ++ map (fun f => {| fileName := name f; status := Processing;
                             message := js "Processing...";
                             questionsCount := None |}) files ->
  let u' := fold_left uploadStep (indexed_from (List.length done) files) u in
  progressArray u'
  = done ++ map (fun f => {| fileName := name f;
                             status := vStatus (processFile f);
                             message := vMessage (processFile f);
                             questionsCount := vCount (processFile f) |}) files /\
  allNewQuestions u'
  = allNewQuestions u ++ flat_map (fun f => vQuestions (processFile f)) files /\
  totalQuestionsAdded u'
  = (totalQuestionsAdded u
     + List.length (flat_map (fun f => vQuestions (processFile f)) files))%nat.
Proof.
  induction files as [|f t IH]; intros done u H; cbn [indexed_from fold_left map flat_map].
  - cbn. rewrite !app_nil_r, Nat.add_0_r. cbn in H. rewrite app_nil_r in H. auto.
  - specialize (IH (done ++ [{| fileName := name f;
                                status := vStatus (processFile f);
                                message := vMessage (processFile f);
                                questionsCount := vCount (processFile f) |}])
                   (uploadStep u (List.length done, f))).
    rewrite length_app in IH. cbn [List.length] in IH.
    rewrite Nat.add_1_r in IH.
    destruct IH as (P & Q & T).
    + unfold uploadStep. cbn [fst snd progressArray]. rewrite H.
      cbn [map]. rewrite updateAt_app, <- app_assoc. cbn [app].
      do 2 f_equal. unfold settle. cbn [fileName questionsCount]. f_equal.
      now destruct (vCount (processFile f)).
    + cbv zeta. rewrite P, Q, T. unfold uploadStep.
      cbn [allNewQuestions totalQuestionsAdded snd].
      rewrite <- !app_assoc, length_app. cbn [app]. repeat split. lia.
Qed.

Lemma uploadLoop_entries (files : list file) :
  progressArray (uploadLoop files)
  = map (fun f => {| fileName := name f;
                     status := vStatus (processFile f);
                     message := vMessage (processFile f);
                     questionsCount := vCount (processFile f) |}) files /\
  allNewQuestions (uploadLoop files)
  = flat_map (fun f => vQuestions (processFile f)) files /\
  totalQuestionsAdded (uploadLoop files)
  = List.length (flat_map (fun f => vQuestions (processFile f)) files).
Proof.
  unfold uploadLoop, indexed.
  match goal with
  | |- context [fold_left uploadStep _ ?u] =>
      pose proof (uploadLoop_from files [] u eq_refl) as H
  end.
  exact H.
Qed.

Lemma uploadLoop_settled (files : list file) :
  Forall (fun p => status p = Success \/ status p = Failed)
    (progressArray (uploadLoop files)).
Proof.
  destruct (uploadLoop_entries files) as (-> & _).
  apply Forall_map, Forall_forall. intros f _. cbn [status].
  destruct (processFile_cases f) as [(S & _)|(S & _)]; auto.
Qed.

(** X15.  The report of an upload: one entry per file, in the order of the
    files and under their names, none left in processing; the questions
    added are those of the files in order, and their number is the total
    counted, which is also the sum of the counts the entries show. *)
Theorem upload_report (files : list file) :
  let u := uploadLoop files in
  map fileName (progressArray u) = map name files /\
  Forall (fun p => status p = Success \/ status p = Failed) (progressArray u) /\
  allNewQuestions u = flat_map (fun f => vQuestions (processFile f)) files /\
  totalQuestionsAdded u = List.length (allNewQuestions u) /\
  totalQuestionsAdded u
  = list_sum (map (fun p => match questionsCount p with
                            | Some n => n | None => 0%nat end)
                (progressArray u)) /\
  Forall (fun p => status p = Success <->
                   exists n, questionsCount p = Some n /\ (0 < n)%nat)
    (progressArray u).
Proof.
  cbv zeta. pose proof (uploadLoop_settled files) as St.
  destruct (uploadLoop_entries files) as (P & Q & T).
  rewrite P in *. rewrite Q, T. repeat split; auto.
  - rewrite map_map. reflexivity.
  - rewrite map_map. cbn [questionsCount]. clear.
    induction files as [|f t IH]; [reflexivity|].
    cbn [flat_map map list_sum fold_right]. rewrite length_app.
    change (fold_right Nat.add 0%nat ?l) with (list_sum l). rewrite <- IH.
    destruct (processFile_cases f) as [(_ & -> & ->)|(_ & -> & _)]; reflexivity.
  - apply Forall_map, Forall_forall. intros f _. cbn [status questionsCount].
    destruct (processFile_cases f) as [(-> & -> & _)|(-> & -> & N)].
    + split; [discriminate | intros (n & E & _); discriminate].
    + split; [|reflexivity]. intros _. eexists. split; [reflexivity|].
      destruct (vQuestions (processFile f)); [congruence | cbn; lia].
Qed.

(** X16.  The state [handleFileUpload] leaves for a file list that is not
    empty: uploading is over and the report is shown; a test under edit
    keeps its questions and gets the new ones appended, while otherwise
    the new ones, if any, take the place of the parsed ones; the error
    is set exactly when every file failed, and counts all the files. *)
Theorem upload_outcome (existingTest : bool) (f : file) (fs : list file)
  (s : component) :
  let s' := handleFileUpload existingTest (f :: fs) s in
  let u := uploadLoop (f :: fs) in
  isUploading s' = false /\
  uploadProgress s' = progressArray u /\
  parsedQuestions s'
  = (if existingTest then parsedQuestions s ++ allNewQuestions u
     else match allNewQuestions u with
          | [] => parsedQuestions s
          | _ :: _ => allNewQuestions u
          end) /\
  (Forall (fun p => status p = Failed) (progressArray u) ->
   uploadError s' = Some (failedMessage (List.length (f :: fs)))) /\
  (Exists (fun p => status p = Success) (progressArray u) ->
   uploadError s' = None).
Proof.
  cbv zeta. unfold handleFileUpload.
  pose proof (uploadLoop_settled (f :: fs)) as St.
  pose proof (filter_isSuccess_isFailed _ St) as Count.
  assert (List.length (progressArray (uploadLoop (f :: fs)))
          = List.length (f :: fs)) as Len.
  { destruct (uploadLoop_entries (f :: fs)) as (-> & _). apply length_map. }
  set (u := uploadLoop (f :: fs)) in *.
  set (successCount := List.length (filter isSuccess (progressArray u))) in *.
  set (errorCount := List.length (filter isFailed (progressArray u))) in *.
  assert (parsedQuestions
            (if 0 <? List.length (allNewQuestions u)
             then deliver existingTest (allNewQuestions u)
                    (setUploadProgress (progressArray u)
                       (setIsUploading true
                          (setUploadProgress [] (setUploadError None s))))
             else setUploadProgress (progressArray u)
                    (setIsUploading true
                       (setUploadProgress [] (setUploadError None s))))
          = (if existingTest then parsedQuestions s ++ allNewQuestions u
             else match allNewQuestions u with
                  | [] => parsedQuestions s
                  | _ :: _ => allNewQuestions u
                  end)) as PQ.
  { unfold deliver. destruct (allNewQuestions u) as [|q l]; cbn [List.length Nat.ltb Nat.leb].
    - destruct existingTest; cbn; [now rewrite app_nil_r | reflexivity].
    - destruct existingTest; reflexivity. }
  assert (uploadError
            (if 0 <? List.length (allNewQuestions u)
             then deliver existingTest (allNewQuestions u)
                    (setUploadProgress (progressArray u)
                       (setIsUploading true
                          (setUploadProgress [] (setUploadError None s))))
             else setUploadProgress (progressArray u)
                    (setIsUploading true
                       (setUploadProgress [] (setUploadError None s))))
          = None) as UE.
  { unfold deliver. destruct (0 <? _); destruct existingTest; reflexivity. }
  assert (uploadProgress
            (if 0 <? List.length (allNewQuestions u)
             then deliver existingTest (allNewQuestions u)
                    (setUploadProgress (progressArray u)
                       (setIsUploading true
                          (setUploadProgress [] (setUploadError None s))))
             else setUploadProgress (progressArray u)
                    (setIsUploading true
                       (setUploadProgress [] (setUploadError None s))))
          = progressArray u) as UP.
  { unfold deliver. destruct (0 <? _); destruct existingTest; reflexivity. }
  repeat split.
  - destruct ((0 <? successCount) && (errorCount =? 0)%nat); [reflexivity|].
    destruct ((successCount =? 0)%nat && (0 <? errorCount)); reflexivity.
  - destruct ((0 <? successCount) && (errorCount =? 0)%nat); [exact UP|].
    destruct ((successCount =? 0)%nat && (0 <? errorCount)); exact UP.
  - destruct ((0 <? successCount) && (errorCount =? 0)%nat); [exact PQ|].
    destruct ((successCount =? 0)%nat && (0 <? errorCount)); exact PQ.
  - intros AllFailed.
    assert (successCount = 0)%nat as S0.
    { unfold successCount. rewrite filter_none; [reflexivity|].
      eapply Forall_impl; [|exact AllFailed]. intros p Hp.
      unfold isSuccess. now rewrite Hp. }
    assert (errorCount = List.length (f :: fs)) as E by lia.
    rewrite S0, E. reflexivity.
  - intros Some1.
    assert (0 < successCount)%nat as S1.
    { unfold successCount. apply filter_some.
      eapply Exists_impl; [|exact Some1]. intros p Hp.
      unfold isSuccess. now rewrite Hp. }
    destruct (Nat.ltb_spec 0 successCount); [|lia]. cbn [andb].
    destruct (errorCount =? 0)%nat; [exact UE|].
    destruct (Nat.eqb_spec successCount 0); [lia|]. exact UE.
Qed.

End UploadFacts.

(* ================================================================== *)
(** ** Further properties: the dashed labels *)

(** A greedy star over a character class, unfolded once. *)
Lemma star_chr_cons (A : Type) (p : char -> bool) (x : char) (t : jstring)
  (c : option jstring) (k : jstring -> option jstring -> option A) :
  matcher (Star (Chr p)) (x :: t) c k
  = if p x then orElse (matcher (Star (Chr p)) t c k) (k (x :: t) c)
    else k (x :: t) c.
Proof.
  cbn [matcher List.length].
  destruct (p x); [|reflexivity].
  destruct (Nat.ltb_spec (List.length t) (S (List.length t))); [reflexivity | lia].
Qed.

(** Over a run of the class, the star gives the whole run when what
    follows accepts the end of the input. *)
Lemma star_whole_run (A : Type) (p : char -> bool) (s : jstring)
  (c : option jstring) (k : jstring -> option jstring -> option A) (v : A) :
  forallb p s = true -> k [] c = Some v ->
  matcher (Star (Chr p)) s c k = Some v.
Proof.
  intros F K. induction s as [|x t IH]; [exact K|].
  cbn [forallb] in F. apply andb_prop in F. destruct F as [Px F].
  rewrite star_chr_cons, Px, (IH F). reflexivity.
Qed.

(** Over a run of one unit, the star gives back the last unit when what
    follows refuses the end of the input and accepts that unit. *)
Lemma star_gives_back_one (A : Type) (p : char -> bool) (x : char) (n : nat)
  (c : option jstring) (k : jstring -> option jstring -> option A) (v : A) :
  p x = true -> k [] c = None -> k [x] c = Some v ->
  matcher (Star (Chr p)) (repeat x (S n)) c k = Some v.
Proof.
  intros Px K0 K1. induction n as [|n IH].
  - cbn [repeat]. rewrite star_chr_cons, Px. cbn [matcher List.length].
    now rewrite K0, K1.
  - change (repeat x (S (S n))) with (x :: repeat x (S n)).
    rewrite star_chr_cons, Px, IH. reflexivity.
Qed.

Lemma forallb_repeat (p : char -> bool) (x : char) (n : nat) :
  p x = true -> forallb p (repeat x n) = true.
Proof. intros Px. induction n; cbn; [reflexivity | now rewrite Px]. Qed.

Lemma matcher_cat (A : Type) (r1 r2 : regex) (s : jstring) (c : option jstring)
  (k : jstring -> option jstring -> option A) :
  matcher (Cat r1 r2) s c k = matcher r1 s c (fun s1 c1 => matcher r2 s1 c1 k).
Proof. reflexivity. Qed.

Lemma matcher_chr (A : Type) (p : char -> bool) (x : char) (t : jstring)
  (c : option jstring) (k : jstring -> option jstring -> option A) :
  matcher (Chr p) (x :: t) c k = if p x then k t c else None.
Proof. reflexivity. Qed.

Lemma matcher_alt (A : Type) (r1 r2 : regex) (s : jstring) (c : option jstring)
  (k : jstring -> option jstring -> option A) :
  matcher (Alt r1 r2) s c k = orElse (matcher r1 s c k) (matcher r2 s c k).
Proof. reflexivity. Qed.

Lemma lit_refl (i : bool) (a : ascii) : CharClass.lit i a (N_of_ascii a) = true.
Proof. unfold CharClass.lit. destruct i; apply N.eqb_refl. Qed.

(** A literal matches itself. *)
Lemma Lit_js (A : Type) (i : bool) (w : string) (t : jstring) (c : option jstring)
  (k : jstring -> option jstring -> option A) :
  matcher (Lit i w) (js w ++ t) c k = k t c.
Proof.
  induction w as [|a w IH]; [reflexivity|].
  destruct w as [|b w].
  - cbn. now rewrite lit_refl.
  - change (Lit i (String a (String b w)))
      with (Cat (Chr (CharClass.lit i a)) (Lit i (String b w))).
    change (js (String a (String b w)) ++ t)
      with (N_of_ascii a :: (js (String b w) ++ t)).
    rewrite matcher_cat. cbn [matcher]. rewrite lit_refl. exact IH.
Qed.

(** A literal fails where its first character does. *)
Lemma Lit_head (A : Type) (i : bool) (a : ascii) (w : string) (x : char)
  (t : jstring) (c : option jstring) (k : jstring -> option jstring -> option A) :
  CharClass.lit i a x = false -> matcher (Lit i (String a w)) (x :: t) c k = None.
Proof. intros H. destruct w; cbn [Lit matcher]; now rewrite H. Qed.

Lemma Lit_head_js (A : Type) (i : bool) (a b : ascii) (w u : string)
  (t : jstring) (c : option jstring) (k : jstring -> option jstring -> option A) :
  CharClass.lit i a (N_of_ascii b) = false ->
  matcher (Lit i (String a w)) (js (String b u) ++ t) c k = None.
Proof. intros H. now apply Lit_head. Qed.

(** After a dashed label with two dashes or more and nothing behind
    them, the text group holds one dash. *)
Lemma dashed_label_text (name : string) (a : ascii) (w : string) (n : nat) :
  (name ++ ":")%string = String a w ->
  CharClass.lit true "*" (N_of_ascii a) = false ->
  matchAt (Pattern.labelText name) (js (name ++ ":") ++ repeat 45%N (S (S n)))
  = Some {| rest := []; group1 := Some [45%N] |}.
Proof.
  intros E H.
  unfold matchAt, Pattern.labelText, Pattern.label. cbn [Seq].
  rewrite matcher_cat, matcher_alt.
  change ("**" ++ name ++ ":**")%string with (String "*" ("*" ++ name ++ ":**")).
  rewrite E at 1. rewrite Lit_head_js by exact H.
  cbn [orElse]. rewrite !matcher_cat, Lit_js, !matcher_cat.
  unfold Pattern.spaces at 1.
  change (repeat 45%N (S (S n))) with (45%N :: repeat 45%N (S n)).
  rewrite star_chr_cons. change (CharClass.space 45%N) with false. cbv iota.
  unfold Pattern.dashes, Plus. rewrite matcher_cat.
  cbn [matcher]. change (CharClass.one 45%N 45%N) with true. cbv iota.
  apply star_gives_back_one; reflexivity.
Qed.

Lemma exec_head (r : regex) (s : jstring) (m : rmatch) :
  matchAt r s = Some m -> exec r s = Some m.
Proof. intros H. destruct s; cbn [exec]; now rewrite H. Qed.

(** A dashed label is recognised whatever follows its dashes. *)
Lemma dashed_label_test (name : string) (a : ascii) (w : string) (n : nat)
  (t : jstring) :
  (name ++ ":")%string = String a w ->
  CharClass.lit true "*" (N_of_ascii a) = false ->
  test (Pattern.label name) (js (name ++ ":") ++ repeat 45%N (S n) ++ t) = true.
Proof.
  intros E H.
  assert (testAt (Pattern.label name)
            (js (name ++ ":") ++ repeat 45%N (S n) ++ t) = true) as M.
  { unfold testAt, matchAt, Pattern.label. cbn [Seq].
    rewrite matcher_alt.
    change ("**" ++ name ++ ":**")%string with (String "*" ("*" ++ name ++ ":**")).
    rewrite E at 1. rewrite Lit_head_js by exact H.
    cbn [orElse]. rewrite !matcher_cat, Lit_js, ?matcher_cat.
    unfold Pattern.spaces at 1.
    change (repeat 45%N (S n) ++ t) with (45%N :: (repeat 45%N n ++ t)).
    rewrite star_chr_cons. change (CharClass.space 45%N) with false. cbv iota.
    unfold Pattern.dashes, Plus. rewrite matcher_cat, matcher_chr.
    change (CharClass.one 45%N 45%N) with true. cbv iota.
    generalize (repeat 45%N n ++ t). intros s.
    induction s as [|x s IH]; [reflexivity|].
    rewrite star_chr_cons. destruct (CharClass.one 45%N x); [|reflexivity].
    destruct (matcher _ s _ _); [reflexivity | discriminate]. }
  unfold test. unfold testAt in M.
  destruct (matchAt _ _) as [m|] eqn:Hm; [|discriminate].
  now rewrite (exec_head _ _ _ Hm).
Qed.

Lemma exec_skip (r : regex) (x : char) (t : jstring) :
  matchAt r (x :: t) = None -> exec r (x :: t) = exec r t.
Proof. intros H. cbn [exec]. now rewrite H. Qed.

(** A pattern that cannot start with a dash is not found in a run of
    dashes. *)
Lemma exec_dashes (r : regex) (k : nat) :
  matchAt r [] = None -> (forall t, matchAt r (45%N :: t) = None) ->
  exec r (repeat 45%N k) = None.
Proof.
  intros H0 H. induction k as [|k IH]; cbn [repeat].
  - change (exec r []) with
      (match matchAt r [] with Some m => Some m | None => None end).
    now rewrite H0.
  - now rewrite exec_skip.
Qed.

Ltac skip_reasoning :=
  unfold test;
  let v := eval vm_compute in (js "Reasoning:") in
  change (js "Reasoning:") with v;
  cbn [app];
  repeat (rewrite exec_skip by (vm_compute; reflexivity));
  rewrite exec_dashes; [reflexivity | vm_compute; reflexivity
                       | intros t; vm_compute; reflexivity].

Section DashedLabels.
Context {caseTable : CaseTable}.

(** X17.  The dashed labels leak a dash.  A Question or Reasoning label
    followed by two dashes or more, the text on the line after it (the
    layout the placeholder of the text area shows): the question text is
    the one dash the pattern's text group takes, and the line after the
    label is not read; the explanation begins with that dash. *)
Theorem dashed_labels_leak_a_dash (b : block) (n : nat) (line : jstring)
  (Hline : isLabel line = false) :
  bQuestion
    (fold_left blockLine [js "Question:" ++ repeat 45%N (S (S n)); line] b)
  = [45%N] /\
  bExplanation
    (fold_left blockLine [js "Reasoning:" ++ repeat 45%N (S (S n)); line] b)
  = [45%N; 10%N] ++ line.
Proof.
  unfold isLabel in Hline.
  repeat (apply orb_false_elim in Hline; destruct Hline as [Hline ?]).
  cbn [fold_left]. split.
  - assert (blockLine b (js "Question:" ++ repeat 45%N (S (S n)))
            = setQuestion [45%N] (setSection SecQuestion b)) as ->.
    { unfold blockLine.
      pose proof (dashed_label_test "Question" "Q" "uestion:" (S n) []
                    eq_refl eq_refl) as T.
      rewrite app_nil_r in T.
      change (test Pattern.questionLabel
                (js "Question:" ++ repeat 45%N (S (S n))) = true) in T.
      rewrite T. unfold trailingText.
      pose proof (exec_head _ _ _ (dashed_label_text "Question" "Q" "uestion:" n
                                     eq_refl eq_refl)) as X.
      change (exec (Pattern.labelText "Question")
                (js "Question:" ++ repeat 45%N (S (S n)))
              = Some {| rest := []; group1 := Some [45%N] |}) in X.
      rewrite X. reflexivity. }
    unfold blockLine.
    repeat match goal with H : _ = false |- _ => rewrite H; clear H end.
    reflexivity.
  - assert (blockLine b (js "Reasoning:" ++ repeat 45%N (S (S n)))
            = setExplanation [45%N] (setSection SecReasoning b)) as ->.
    { unfold blockLine.
      assert (test Pattern.questionLabel
                (js "Reasoning:" ++ repeat 45%N (S (S n))) = false) as ->
        by skip_reasoning.
      assert (test Pattern.optionsLabel
                (js "Reasoning:" ++ repeat 45%N (S (S n))) = false) as ->
        by skip_reasoning.
      assert (test Pattern.answerLabel
                (js "Reasoning:" ++ repeat 45%N (S (S n))) = false) as ->
        by skip_reasoning.
      assert (test Pattern.emphasizedAnswerLabel
                (js "Reasoning:" ++ repeat 45%N (S (S n))) = false) as ->
        by skip_reasoning.
      cbn [orb].
      pose proof (dashed_label_test "Reasoning" "R" "easoning:" (S n) []
                    eq_refl eq_refl) as T.
      rewrite app_nil_r in T.
      change (test Pattern.reasoningLabel
                (js "Reasoning:" ++ repeat 45%N (S (S n))) = true) in T.
      rewrite T. unfold trailingText.
      pose proof (exec_head _ _ _ (dashed_label_text "Reasoning" "R" "easoning:" n
                                     eq_refl eq_refl)) as X.
      change (exec (Pattern.labelText "Reasoning")
                (js "Reasoning:" ++ repeat 45%N (S (S n)))
              = Some {| rest := []; group1 := Some [45%N] |}) in X.
      rewrite X. reflexivity. }
    unfold blockLine.
    repeat match goal with H : _ = false |- _ => rewrite H; clear H end.
    reflexivity.
Qed.

End DashedLabels.

Lemma dashed_labels_leak_a_dash_witness :
  bQuestion
    (fold_left (@blockLine asciiCase)
       [js "Question:" ++ repeat 45%N 9; js "What section details results?"]
       emptyBlock)
  = [45%N] /\
  bExplanation
    (fold_left (@blockLine asciiCase)
       [js "Reasoning:" ++ repeat 45%N 9; js "What section details results?"]
       emptyBlock)
  = [45%N; 10%N] ++ js "What section details results?".
Proof.
  apply (@dashed_labels_leak_a_dash asciiCase emptyBlock 7
           (js "What section details results?")).
  vm_compute. reflexivity.
Defined.

(* ================================================================== *)
(** ** Further properties: the edits and the ids *)

Lemma hasId_other (q q' : MCQQuestion) :
  id q' <> id q -> hasId (id q) q' = false.
Proof.
  intros H. unfold hasId, jstring_eqb.
  destruct (list_eq_dec N.eq_dec (id q') (id q)); [contradiction | reflexivity].
Qed.

Lemma hasId_absent (q : MCQQuestion) (l : list MCQQuestion) :
  ~ In (id q) (map id l) -> Forall (fun q' => hasId (id q) q' = false) l.
Proof.
  intros H. apply Forall_forall. intros q' Hin. apply hasId_other.
  intros E. apply H. rewrite <- E. now apply in_map.
Qed.

(** X18.  With ids that are pairwise distinct, an edit reaches the question it
    is addressed to and no other: [deleteQuestion] removes that one
    question, and [updateQuestion], [addOption] and [deleteOption] change
    it where it stands. *)
Theorem edits_reach_one_question
  (before after : list MCQQuestion) (q : MCQQuestion)
  (Hids : NoDup (map id (before ++ q :: after))) :
  deleteQuestion (id q) (before ++ q :: after) = before ++ after /\
  (forall updates,
     updateQuestion (id q) updates (before ++ q :: after)
     = before ++ merge q updates :: after) /\
  addOption (id q) (before ++ q :: after)
  = before
    ++ setOptionsOf q (options q ++ [optionLabel (List.length (options q))])
         (correctAnswer q)
    :: after /\
  (forall optionIndex,
     deleteOption (id q) optionIndex (before ++ q :: after)
     = before
       ++ (if 2 <? List.length (options q)
           then setOptionsOf q (withoutIndex optionIndex (options q))
                  (shiftedAnswer optionIndex (correctAnswer q))
           else q)
       :: after).
Proof.
  rewrite map_app in Hids. cbn [map] in Hids.
  pose proof (NoDup_remove_2 _ _ _ Hids) as Hq.
  assert (Forall (fun q' => hasId (id q) q' = false) before) as Hb.
  { apply hasId_absent. intros H. apply Hq, in_or_app. now left. }
  assert (Forall (fun q' => hasId (id q) q' = false) after) as Ha.
  { apply hasId_absent. intros H. apply Hq, in_or_app. now right. }
  assert (forall f : MCQQuestion -> MCQQuestion,
            (forall x, hasId (id q) x = false -> f x = x) ->
            map f (before ++ q :: after) = before ++ f q :: after) as Keep.
  { intros f Hf. rewrite map_app. cbn [map]. f_equal; [|f_equal].
    - rewrite <- (map_id before) at 2. apply map_ext_Forall.
      eapply Forall_impl; [|exact Hb]. intros x Hx. now apply Hf.
    - rewrite <- (map_id after) at 2. apply map_ext_Forall.
      eapply Forall_impl; [|exact Ha]. intros x Hx. now apply Hf. }
  repeat split.
  - unfold deleteQuestion. rewrite filter_app. cbn [filter].
    rewrite hasId_refl. cbn [negb].
    rewrite !forallb_filter_id; [reflexivity | |].
    + apply forallb_forall. rewrite Forall_forall in Ha.
      intros x Hx. now rewrite (Ha x Hx).
    + apply forallb_forall. rewrite Forall_forall in Hb.
      intros x Hx. now rewrite (Hb x Hx).
  - intros updates. unfold updateQuestion. rewrite Keep.
    + now rewrite hasId_refl.
    + intros x Hx. now rewrite Hx.
  - unfold addOption. rewrite Keep.
    + now rewrite hasId_refl.
    + intros x Hx. now rewrite Hx.
  - intros optionIndex. unfold deleteOption. rewrite Keep.
    + now rewrite hasId_refl.
    + intros x Hx. now rewrite Hx.
Qed.

Lemma edits_reach_one_question_witness :
  deleteQuestion (js "q-0") ([newQuestion 7] ++ abcd :: [newQuestion 9])
  = [newQuestion 7] ++ [newQuestion 9].
Proof.
  apply (edits_reach_one_question [newQuestion 7] [newQuestion 9] abcd).
  vm_compute. repeat constructor; cbn; intuition discriminate.
Defined.

Lemma ids_after_filter (keep : MCQQuestion -> bool) (prev : list MCQQuestion) :
  NoDup (map id prev) -> NoDup (map id (filter keep prev)).
Proof.
  intros Hids. induction prev as [|q rest IH]; [constructor|].
  cbn [map] in Hids. apply NoDup_cons_iff in Hids. destruct Hids as [Hq Hrest].
  cbn [filter]. destruct (keep q); [|auto].
  cbn [map]. constructor; [|auto].
  intros Hin. apply Hq. apply in_map_iff in Hin.
  destruct Hin as (q' & E & Hq'). apply filter_In in Hq'.
  rewrite <- E. apply in_map. tauto.
Qed.

(** X19.  Every edit of the preview keeps the ids pairwise distinct: saving
    the editor, adding and deleting an option, deleting a question, and
    adding the blank question when the clock gives an id not in use. *)
Theorem edits_keep_ids_distinct (prev : list MCQQuestion)
  (Hids : NoDup (map id prev)) :
  (forall q e, NoDup (map id (saveEditor q e prev))) /\
  (forall questionId, NoDup (map id (addOption questionId prev))) /\
  (forall questionId optionIndex,
     NoDup (map id (deleteOption questionId optionIndex prev))) /\
  (forall questionId, NoDup (map id (deleteQuestion questionId prev))) /\
  (forall now, ~ In (questionId now) (map id prev) ->
               NoDup (map id (addNewQuestion now prev))).
Proof.
  repeat split.
  - intros q e. unfold saveEditor, updateQuestion. rewrite map_map.
    erewrite map_ext; [exact Hids|]. intros x. now destruct (hasId (id q) x).
  - intros qid. unfold addOption. rewrite map_map.
    erewrite map_ext; [exact Hids|]. intros x. now destruct (hasId qid x).
  - intros qid i. unfold deleteOption. rewrite map_map.
    erewrite map_ext; [exact Hids|]. intros x. now destruct (_ && _).
  - intros qid. now apply ids_after_filter.
  - intros now Hnew. unfold addNewQuestion. rewrite map_app. cbn [map].
    apply NoDup_app; [exact Hids | repeat constructor; intros [] |].
    intros a Ha [<-|[]]. contradiction.
Qed.

Lemma edits_keep_ids_distinct_witness :
  NoDup (map id (deleteQuestion (js "q-0") [abcd; newQuestion 7])) /\
  NoDup (map id (addNewQuestion 8 [abcd; newQuestion 7])).
Proof.
  assert (NoDup (map id [abcd; newQuestion 7])) as H.
  { vm_compute. repeat constructor; cbn; intuition discriminate. }
  destruct (edits_keep_ids_distinct [abcd; newQuestion 7] H) as (_ & _ & _ & D & N).
  split; [apply D | apply N].
  vm_compute. intuition discriminate.
Defined.

(* ================================================================== *)
(** ** Further properties: the stored options and the question lines *)

Section Unmarked.
Context {caseTable : CaseTable}.

Lemma trim_unmarked (c : char) (s : jstring) :
  has c s = false -> has c (trim s) = false.
Proof.
  intros H. destruct (has c (trim s)) eqn:E; [|reflexivity].
  apply has_In, trim_incl, has_In in E. congruence.
Qed.

Lemma blockLine_unmarked (b : block) (line : jstring) :
  Forall (fun o => has GLYPH o = false) (bOptions b) ->
  Forall (fun o => has GLYPH o = false) (bOptions (blockLine b line)).
Proof.
  intros I. unfold blockLine. break_block;
    rewrite ?resolveAnswer_options; cbn [bOptions setQuestion setSection
      setExplanation setSectionContent setSectionTitle setCorrectAnswer setOptions];
    rewrite ?flushSection_options; try exact I.
  all: apply Forall_app; split; [exact I|]; constructor; [|constructor];
    apply trim_unmarked, strip_has.
Qed.

(** X20.  The options the structured-header parser stores bear no glyph: the
    mark of the correct option is taken out of its text. *)
Theorem structured_options_bear_no_glyph (text : jstring) :
  Forall (fun q => Forall (fun o => has GLYPH o = false) (options q))
    (parseStructuredFormat text).
Proof.
  apply Forall_forall. intros q H. apply parseStructuredFormat_In in H. destruct H as (blk & index & H).
  apply parseBlock_inv in H. destruct H as (_ & -> & _).
  unfold scanBlock. rewrite flushSection_options.
  generalize (blockLines blk). intros lines.
  assert (Forall (fun o => has GLYPH o = false) (bOptions emptyBlock)) as I
    by constructor.
  revert I. generalize emptyBlock.
  induction lines as [|l t IH]; intros b I; [exact I|].
  cbn [fold_left]. apply IH, blockLine_unmarked, I.
Qed.

End Unmarked.

(** Whatever a pattern matches, what follows it is given the rest of
    the input. *)
Lemma matcher_suffix (A : Type) (r : regex) :
  forall (s : jstring) (c : option jstring)
         (k : jstring -> option jstring -> option A) (v : A),
  matcher r s c k = Some v ->
  exists pre s1 c1, s = pre ++ s1 /\ k s1 c1 = Some v.
Proof.
  induction r as [|p|r1 IH1 r2 IH2|r1 IH1 r2 IH2|r1 IH1|r1 IH1|r1 IH1];
    intros s c k v H.
  - exists [], s, c. auto.
  - destruct s as [|x t]; [discriminate|]. cbn [matcher] in H.
    destruct (p x); [|discriminate]. exists [x], t, c. auto.
  - cbn [matcher] in H. apply IH1 in H. destruct H as (pre1 & s1 & c1 & -> & H).
    apply IH2 in H. destruct H as (pre2 & s2 & c2 & -> & H).
    exists (pre1 ++ pre2), s2, c2. now rewrite app_assoc.
  - cbn [matcher] in H. unfold orElse in H.
    destruct (matcher r1 s c k) eqn:E; [rewrite H in E; now apply IH1 in E|].
    now apply IH2 in H.
  - cbn [matcher] in H. set (fuel := List.length s) in H. clearbody fuel.
    revert s c H. induction fuel as [|fuel IHf]; intros s c H.
    + exists [], s, c. auto.
    + unfold orElse in H.
      match type of H with
      | match ?m with _ => _ end = _ => destruct m eqn:E
      end.
      * rewrite H in E. apply IH1 in E. destruct E as (pre1 & s1 & c1 & -> & E).
        destruct (_ <? _); [|discriminate].
        apply IHf in E. destruct E as (pre2 & s2 & c2 & -> & E).
        exists (pre1 ++ pre2), s2, c2. now rewrite app_assoc.
      * exists [], s, c. auto.
  - cbn [matcher] in H. set (fuel := List.length s) in H. clearbody fuel.
    revert s c H. induction fuel as [|fuel IHf]; intros s c H.
    + exists [], s, c. auto.
    + unfold orElse in H. destruct (k s c) eqn:E.
      * exists [], s, c. split; [reflexivity | congruence].
      * apply IH1 in H. destruct H as (pre1 & s1 & c1 & -> & H).
        destruct (_ <? _); [|discriminate].
        apply IHf in H. destruct H as (pre2 & s2 & c2 & -> & H).
        exists (pre1 ++ pre2), s2, c2. now rewrite app_assoc.
  - cbn [matcher] in H. apply IH1 in H. destruct H as (pre1 & s1 & c1 & -> & H).
    eauto.
Qed.

(** The question prefix ends in a white-space unit. *)
Lemma questionPrefix_inv (line : jstring) (m : rmatch) :
  matchAt Pattern.questionPrefix line = Some m ->
  exists pre x, line = pre ++ x :: rest m /\ CharClass.space x = true.
Proof.
  unfold matchAt, Pattern.questionPrefix. rewrite matcher_alt.
  assert (forall (r : regex) s c,
            matcher (Cat r (Chr CharClass.space)) s c
              (fun s1 c1 => Some {| rest := s1; group1 := c1 |}) = Some m ->
            exists pre x, s = pre ++ x :: rest m /\ CharClass.space x = true) as End.
  { intros r s c H. rewrite matcher_cat in H. apply matcher_suffix in H.
    destruct H as (pre & s1 & c1 & -> & H).
    destruct s1 as [|x t]; [discriminate|]. rewrite matcher_chr in H.
    destruct (CharClass.space x) eqn:S; [|discriminate].
    injection H as <-. exists pre, x. auto. }
  unfold orElse.
  destruct (matcher Pattern.numbered line None _) eqn:E.
  - intros H. rewrite H in E. clear H.
    unfold Pattern.numbered in E. cbn [Seq] in E.
    rewrite matcher_cat in E. apply matcher_suffix in E.
    destruct E as (pre1 & s1 & c1 & -> & E).
    apply End in E. destruct E as (pre & x & -> & S).
    exists (pre1 ++ pre), x. now rewrite <- app_assoc.
  - intros H. unfold Pattern.qPrefixed in H. cbn [Seq] in H.
    rewrite matcher_cat in H. apply matcher_suffix in H.
    destruct H as (pre1 & s1 & c1 & -> & H).
    rewrite matcher_cat in H. apply matcher_suffix in H.
    destruct H as (pre2 & s2 & c2 & -> & H).
    apply End in H. destruct H as (pre & x & -> & S).
    exists (pre1 ++ pre2 ++ pre), x. now rewrite <- !app_assoc.
Qed.

Lemma trimStart_head (s : jstring) (x : char) (t : jstring) :
  trimStart s = x :: t -> CharClass.space x = false.
Proof.
  induction s as [|c u IH]; [discriminate|]. cbn [trimStart].
  destruct (CharClass.space c) eqn:S; [exact IH|].
  intros H. injection H as <- _. exact S.
Qed.

(** A trimmed line does not end in white space, so a question line has
    text after its prefix. *)
Lemma question_line_has_text (l : jstring) :
  testAt Pattern.numbered (trim l) || testAt Pattern.qPrefixed (trim l) = true ->
  nonempty (trim (removeAt Pattern.questionPrefix (trim l))) = true.
Proof.
  intros T.
  assert (exists m, matchAt Pattern.questionPrefix (trim l) = Some m) as [m M].
  { unfold testAt in T. unfold matchAt, Pattern.questionPrefix.
    rewrite matcher_alt. unfold matchAt in T.
    destruct (matcher Pattern.numbered (trim l) None _); [eexists; reflexivity|].
    cbn [orb orElse] in *.
    destruct (matcher Pattern.qPrefixed (trim l) None _); [eexists; reflexivity|].
    discriminate. }
  unfold removeAt. rewrite M.
  destruct (questionPrefix_inv _ _ M) as (pre & x & E & S).
  assert (exists y, In y (rest m) /\ CharClass.space y = false) as (y & Hy & Sy).
  { assert (rev (trim l) = trimStart (rev (trimStart l))) as R
      by (unfold trim, trimEnd; apply rev_involutive).
    rewrite E, rev_app_distr in R. cbn [rev] in R.
    destruct (rev (rest m)) as [|y u] eqn:Rr.
    - cbn [app] in R.
      symmetry in R. apply trimStart_head in R. congruence.
    - rewrite <- ?app_assoc in R. cbn [app] in R.
      symmetry in R. apply trimStart_head in R.
      exists y. split; [|exact R]. apply in_rev. rewrite Rr. now left. }
  pose proof (trim_keeps _ _ Hy Sy) as K.
  destruct (trim (rest m)); [destruct K | reflexivity].
Qed.

Lemma textLine_readSoFar (st : lineState) (l : jstring) (k : nat) :
  readSoFar st k ->
  readSoFar (textLine st (trim l))
    (k + if testAt Pattern.numbered (trim l) || testAt Pattern.qPrefixed (trim l)
         then 1 else 0).
Proof.
  intros J. unfold textLine.
  destruct (testAt Pattern.numbered (trim l) || testAt Pattern.qPrefixed (trim l)) eqn:T.
  { pose proof (question_line_has_text l T) as N.
    right. destruct J as [(-> & Q & P)|(q & o & P & Nq & O & L)].
    - rewrite completed_unstarted by exact P.
      cbn [currentQuestion pQuestion pOptions questions].
      eexists _, _. repeat split; [exact N | rewrite Q; reflexivity].
    - unfold completed. rewrite P, O, Nq.
      cbn [currentQuestion pQuestion pOptions questions].
      eexists _, _. repeat split; [exact N | rewrite length_app; cbn; lia]. }
  rewrite Nat.add_0_r.
  destruct (testAt Pattern.optionPrefix (trim l)).
  { destruct J as [J|(q & o & P & Nq & O & L)]; [now left|].
    right. cbn [currentQuestion pQuestion pOptions questions]. eauto 10. }
  destruct (testAt Pattern.answerLine (trim l)).
  { destruct (exec Pattern.anyLetterAD (trim l)) as [[r [[|a u]|]]|]; exact J. }
  destruct (testAt Pattern.explanationLine (trim l)); exact J.
Qed.

(** X21.  Every numbered or Q-prefixed line yields one question, and no other
    line does: the line-pattern pass returns as many questions as the
    text has question lines. *)
Theorem every_question_line_yields_a_question (now : Z) (text : jstring) :
  List.length (parseLinePattern now text)
  = List.length
      (filter (fun line => testAt Pattern.numbered line
                           || testAt Pattern.qPrefixed line)
         (textLines text)).
Proof.
  unfold parseLinePattern, textLines.
  generalize (filter (fun line => nonempty (trim line)) (splitLines text)).
  intros raw.
  match goal with
  | |- context [fold_left textLine _ ?s] =>
      assert (readSoFar s 0) as J by (left; auto);
      assert (forall k st, readSoFar st k ->
                readSoFar (fold_left textLine (map trim raw) st)
                  (k + List.length
                         (filter (fun line => testAt Pattern.numbered line
                                              || testAt Pattern.qPrefixed line)
                            (map trim raw)))) as F;
      [|specialize (F _ _ J); set (final := fold_left textLine (map trim raw) s) in *]
  end.
  { clear. induction raw as [|l t IH]; intros k st J; cbn [map fold_left filter].
    - now rewrite Nat.add_0_r.
    - apply (textLine_readSoFar st l k) in J. apply IH in J.
      destruct (testAt Pattern.numbered (trim l) || testAt Pattern.qPrefixed (trim l));
        cbn [List.length]; [|now rewrite Nat.add_0_r in J].
      match goal with
      | |- readSoFar _ (k + S ?n) => replace (k + S n)%nat with (k + 1 + n)%nat by lia
      end.
      exact J. }
  cbn [Nat.add] in F.
  destruct F as [(E & Q & P)|(q & o & P & Nq & O & L)].
  - rewrite completed_unstarted by exact P. now rewrite Q, E.
  - unfold completed. rewrite P, O, Nq. rewrite length_app. cbn [List.length].
    exact L.
Qed.

(* ================================================================== *)
(** ** Further properties: the ids across files *)

Section SharedIds.
Context {caseTable : CaseTable} {host : Host}.

(** A question object is extracted as one question, its id [q-0]. *)
Lemma single_object_parse (d : json) (qs : list MCQQuestion) :
  shapeOk d = true -> parseJSONFormat d = Ok qs ->
  exists q, qs = [q] /\ id q = js "q-0".
Proof.
  intros S H. pose proof S as S'.
  destruct d as [| | | | |fields]; try discriminate.
  cbn [shapeOk] in S. apply andb_prop in S. destruct S as [S _].
  apply andb_prop in S. destruct S as [Tq To].
  unfold parseJSONFormat in H. cbn [get bind] in H.
  rewrite Tq in H. cbn [bind] in H. rewrite To in H.
  destruct (parseJSONQuestion (JObj fields) 0) as [r|e] eqn:E;
    cbn [bind] in H; [|discriminate].
  destruct (parseJSONQuestion_shaped _ _ _ S' E) as [q ->].
  injection H as <-. exists q. split; [reflexivity|].
  apply parseJSONQuestion_inv in E.
  now destruct E as (? & ? & ? & _ & _ & _ & _ & E & _).
Qed.

Lemma processFile_question_object (f : file) (d : json) (qs : list MCQQuestion) :
  decodesTo f d -> shapeOk d = true -> parseJSONFormat d = Ok qs ->
  exists q, id q = js "q-0" /\
            vStatus (processFile f) = Success /\ vQuestions (processFile f) = [q].
Proof.
  intros (T & Sz & content & C & N & J) S H.
  destruct (single_object_parse d qs S H) as (q & -> & I).
  exists q. split; [exact I|].
  unfold processFile. rewrite T, C, N, J, H.
  unfold jstring_eqb.
  destruct (list_eq_dec N.eq_dec (js "application/json") (js "application/json"));
    [|congruence].
  cbn [negb]. destruct (Z.gtb_spec (size f) (5 * 1024 * 1024)); [lia|].
  cbn. auto.
Qed.

(** X22.  Files that each hold one question object give questions that all
    have the id [q-0]: every file succeeds and adds one question, and in
    the questions added [deleteQuestion] of that id leaves none. *)
Theorem uploaded_question_objects_share_an_id (files : list file)
  (Hfiles : Forall (fun f => exists d qs,
                      decodesTo f d /\ shapeOk d = true /\
                      parseJSONFormat d = Ok qs) files) :
  Forall (fun p => status p = Success) (progressArray (uploadLoop files)) /\
  List.length (allNewQuestions (uploadLoop files)) = List.length files /\
  Forall (fun q => id q = js "q-0") (allNewQuestions (uploadLoop files)) /\
  deleteQuestion (js "q-0") (allNewQuestions (uploadLoop files)) = [].
Proof.
  destruct (uploadLoop_entries files) as (-> & -> & _).
  induction Hfiles as [|f t (d & qs & D & S & H) _ (IH1 & IH2 & IH3 & IH4)];
    [repeat split; constructor|].
  destruct (processFile_question_object f d qs D S H) as (q & I & St & Q).
  cbn [map flat_map]. rewrite Q. cbn [app List.length].
  repeat split.
  - constructor; [exact St | exact IH1].
  - now rewrite IH2.
  - constructor; [exact I | exact IH3].
  - cbn [deleteQuestion filter]. unfold hasId, jstring_eqb. rewrite I.
    destruct (list_eq_dec N.eq_dec (js "q-0") (js "q-0")); [|congruence].
    exact IH4.
Qed.

End SharedIds.

Lemma uploaded_question_objects_share_an_id_witness :
  map id (allNewQuestions
            (@uploadLoop asciiCase tableHost
               [jsonFile "a.json" "<capitals>"; jsonFile "b.json" "<explained>"]))
  = [js "q-0"; js "q-0"].
Proof.
  assert (Forall (fun f => exists d qs,
                    @decodesTo tableHost f d /\ shapeOk d = true /\
                    @parseJSONFormat asciiCase d = Ok qs)
            [jsonFile "a.json" "<capitals>"; jsonFile "b.json" "<explained>"]) as H.
  { constructor; [|constructor; [|constructor]].
    - exists capitals. eexists. split; [|split; [reflexivity | vm_compute; reflexivity]].
      split; [reflexivity|]. split; [vm_compute; discriminate|].
      exists (js "<capitals>"). repeat split.
    - exists explained. eexists. split; [|split; [reflexivity | vm_compute; reflexivity]].
      split; [reflexivity|]. split; [vm_compute; discriminate|].
      exists (js "<explained>"). repeat split. }
  destruct (@uploaded_question_objects_share_an_id asciiCase tableHost _ H)
    as (_ & L & F & _).
  destruct (allNewQuestions _) as [|q1 [|q2 [|q3 t]]]; try discriminate.
  inversion F as [|? ? I1 F']; subst. inversion F' as [|? ? I2 _]; subst.
  cbn [map]. now rewrite I1, I2.
Defined.
